(** * mqtt-trace: the two message sinks, the dispatcher and the configuration loader

    The repository holds two alternative versions of the same program:
    - the Line Sink ([FileWriter], main.go), which appends one text line per
      message to the output file;
    - the JSON Store Sink ([MessageStore]), which keeps every record in memory
      and rewrites the output file as a JSON array on every message.

    Both are embedded here as functions in a small state monad over an
    explicit model of what the Go code touches: the sink object with its
    lock, the file system, the table of open descriptors, the clock and the
    log output.  The operating system may fail any call; which calls fail is
    decided by an oracle carried in the world, so that every theorem below
    quantifies over all behaviours of the environment.  What the Go
    libraries compute ([fmt]'s verbs, [encoding/json], the YAML reader) is
    taken as a parameter wherever the program only passes values through.
    For reading the output file back, the text that [encoding/json] writes
    for the records and a JSON decoder are modelled in [Json].

    For the behaviour under concurrent calls each sink call is also given
    as the sequence of its atomic actions; goroutines take turns, and a
    call on a held lock waits.

    [main] is followed on its own goroutine: it loads the configuration,
    creates the sink and drives the MQTT client, whose connection and
    subscription calls succeed or fail as the same oracle decides, and it
    stops at the first signal the process is sent.  The calls of the
    handler that the client makes meanwhile are the subject of the
    theorems on the handlers. *)

From Stdlib Require Import String Ascii ZArith Lia List DecimalString DecimalZ.
From stdpp Require Import base option gmap strings list fin_maps relations sorting.

(** ** Strings *)

(** The newline character that ends a line. *)
Definition LF : string := String "010"%char EmptyString.

(** The first [n] bytes of [s]: what a short write leaves on disk. *)
Fixpoint str_take (n : nat) (s : string) : string :=
  match n, s with
  | S n', String c s' => String c (str_take n' s')
  | _, _ => EmptyString
  end.

(** What is left of [s] once its first [n] bytes are removed. *)
Fixpoint str_drop (n : nat) (s : string) : string :=
  match n, s with
  | S n', String _ s' => str_drop n' s'
  | _, _ => s
  end.

(** [str_prefix p s]: [p] is an initial segment of [s]. *)
Definition str_prefix (p s : string) : Prop := exists n, p = str_take n s.

(** ** The Go runtime, as far as the program uses it *)

Module Go.

(** *** Errors *)

(** A Go [error] value.  [Cause] is an error produced by the operating
    system or by a library; [Errorf_w msg e] is
    [fmt.Errorf(msg + ": %w", e)]; [Errorf msg] is [fmt.Errorf(msg)]. *)
Inductive error : Type :=
| Cause (text : string)
| Errorf_w (msg : string) (cause : error)
| Errorf (msg : string).

(** [errors.Unwrap]. *)
Definition Unwrap (e : error) : option error :=
  match e with
  | Errorf_w _ cause => Some cause
  | _ => None
  end.

(** The [Error()] text. *)
Fixpoint Error (e : error) : string :=
  match e with
  | Cause text => text
  | Errorf_w msg cause => msg +:+ ": " +:+ Error cause
  | Errorf msg => msg
  end.

(** *** Dynamic values and maps *)

(** A Go [map[string]any]: the nil map, or an allocated map. *)
Inductive GoMap (any : Type) : Type :=
| NilMap
| Map (m : gmap string any).
Arguments NilMap {any}.
Arguments Map {any} m.

(** The library functions that look inside a value of type [any]
    ([interface{}]).  The program never inspects such a value itself: it
    copies it, or hands it to [fmt]. *)
Class Dyn (any : Type) := {
  Sprint_v : any -> string;           (* fmt.Sprintf("%v", x) *)
  Sprint_plus_v : GoMap any -> string (* fmt.Sprintf("%+v", m) *)
}.

(** [v, ok := m[k]]: the nil map answers like the empty map. *)
Definition index {any} (m : GoMap any) (k : string) : option any :=
  match m with
  | NilMap => None
  | Map m => m !! k
  end.

(** [make(map[string]any)]. *)
Definition make_map {any} : GoMap any := Map ∅.

(** *** The environment *)

(** A failed system call: the underlying cause, and for a write the
    number of bytes that reached the file before the failure. *)
Record Fault := { cause : string; written : nat }.

(** What the program cannot control: the successive readings of
    [time.Now().Format(time.RFC3339)], and the outcome the operating
    system gives to each system call, numbered in issue order ([None]
    is success). *)
Record Env := {
  clock : nat -> string;
  fault : nat -> option Fault
}.

(** An open file: its path and, unless it was opened with [O_APPEND],
    the offset of the next write. *)
Record Handle := { h_path : string; h_offset : option nat }.

(** One call of [log.Printf]: the format and the formatted arguments. *)
Record LogLine := { format : string; args : list string }.

Record World := {
  env : Env;
  files : gmap string string;   (* path to content *)
  fds : gmap nat Handle;      (* open descriptors *)
  ticks : nat;                  (* clock readings taken so far *)
  calls : nat;                  (* system calls issued so far *)
  stderr : list LogLine         (* log output, oldest first *)
}.

(** A running program: the sink object it owns and the world. *)
Record Proc (T : Type) := { self : T; world : World }.
Arguments self {T} p.
Arguments world {T} p.

(** *** The monad *)

(** A call returns, panics, or blocks for ever on a lock. *)
Inductive Outcome (S A : Type) : Type :=
| Returns (a : A) (s : S)
| Panics (reason : string) (s : S)
| Blocks.
Arguments Returns {S A} a s.
Arguments Panics {S A} reason s.
Arguments Blocks {S A}.

Definition M (S A : Type) : Type := S -> Outcome S A.

Definition ret {S A} (a : A) : M S A := fun s => Returns a s.

Definition bind {S A B} (c : M S A) (k : A -> M S B) : M S B :=
  fun s =>
    match c s with
    | Returns a s' => k a s'
    | Panics r s' => Panics r s'
    | Blocks => Blocks
    end.

(** [defer d; body]: [d] runs when [body] returns and also when it
    panics; the panic then goes on. *)
Definition defer {S A} (d : M S unit) (body : M S A) : M S A :=
  fun s =>
    match body s with
    | Returns a s' =>
        match d s' with
        | Returns _ s'' => Returns a s''
        | Panics r s'' => Panics r s''
        | Blocks => Blocks
        end
    | Panics r s' =>
        match d s' with
        | Returns _ s'' => Panics r s''
        | Panics r' s'' => Panics r' s''
        | Blocks => Blocks
        end
    | Blocks => Blocks
    end.

Definition gets {S A} (f : S -> A) : M S A := fun s => Returns (f s) s.
Definition modify {S} (f : S -> S) : M S unit := fun s => Returns tt (f s).
Definition panic {S A} (reason : string) : M S A := fun s => Panics reason s.

(** The calls [f x], for [x] in [xs], one after the other, with the
    result of each. *)
Fixpoint one_by_one {S X A} (f : X -> M S A) (xs : list X) : M S (list A) :=
  match xs with
  | [] => ret []
  | x :: rest =>
      bind (f x) (fun a => bind (one_by_one f rest) (fun r => ret (a :: r)))
  end.

End Go.

Declare Scope go_scope.
Delimit Scope go_scope with go.
Notation "x <- c ;; k" := (Go.bind c (fun x => k))
  (at level 100, c at next level, right associativity) : go_scope.
Notation "c ;;; k" := (Go.bind c (fun _ => k))
  (at level 100, right associativity) : go_scope.

(** ** Locks *)

Module Sync.
Import Go.

(** [sync.Mutex]: [true] when held. *)
Definition Mutex : Type := bool.

(** [sync.RWMutex]: the exclusive lock and the number of shared holders. *)
Record RWMutex := { writer : bool; readers : nat }.

Definition unlocked : Mutex := false.
Definition rw_unlocked : RWMutex := {| writer := false; readers := 0 |}.

Section Locks.
Context {S : Type}.

(** [mu.Lock()] on a [sync.Mutex] reached through [get] and [set]. *)
Definition Lock (get : S -> Mutex) (set : Mutex -> S -> S) : M S unit :=
  fun s => if get s then Blocks else Returns tt (set true s).

(** [mu.Unlock()]; unlocking a free mutex is a fatal error. *)
Definition Unlock (get : S -> Mutex) (set : Mutex -> S -> S) : M S unit :=
  fun s =>
    if get s then Returns tt (set false s)
    else Panics "sync: unlock of unlocked mutex" s.

(** [mu.Lock()] on a [sync.RWMutex]: waits for the writer and for
    every reader. *)
Definition RWLock (get : S -> RWMutex) (set : RWMutex -> S -> S) : M S unit :=
  fun s =>
    let m := get s in
    if writer m then Blocks
    else match readers m with
         | O => Returns tt (set {| writer := true; readers := 0 |} s)
         | _ => Blocks
         end.

(** [mu.Unlock()] on a [sync.RWMutex]. *)
Definition RWUnlock (get : S -> RWMutex) (set : RWMutex -> S -> S) : M S unit :=
  fun s =>
    let m := get s in
    if writer m
    then Returns tt (set {| writer := false; readers := readers m |} s)
    else Panics "sync: Unlock of unlocked RWMutex" s.
End Locks.
End Sync.

(** ** Files, clock and log *)

Module OS.
Import Go.

(** The two ways the program opens a file:
    [os.OpenFile(p, O_APPEND|O_CREATE|O_WRONLY, 0644)] and
    [os.Create(p)], which is [O_RDWR|O_CREATE|O_TRUNC]. *)
Inductive OpenFlags := O_APPEND_CREATE_WRONLY | O_RDWR_CREATE_TRUNC.

(** A [*os.File]: its descriptor. *)
Definition File : Type := nat.

Definition set_world {T} (w : World) (p : Proc T) : Proc T :=
  {| self := self p; world := w |}.

(** The world after one more system call was issued. *)
Definition issued (w : World) : World :=
  {| env := env w; files := files w; fds := fds w; ticks := ticks w;
     calls := S (calls w); stderr := stderr w |}.

Definition with_files (fs : gmap string string) (w : World) : World :=
  {| env := env w; files := fs; fds := fds w; ticks := ticks w;
     calls := calls w; stderr := stderr w |}.

Definition with_fds (t : gmap nat Handle) (w : World) : World :=
  {| env := env w; files := files w; fds := t; ticks := ticks w;
     calls := calls w; stderr := stderr w |}.

(** What the operating system answers to the next system call. *)
Definition answer (w : World) : option Fault := fault (env w) (calls w).

(** The content of the file at [path]; a missing file reads as empty. *)
Definition content (w : World) (path : string) : string :=
  default "" (files w !! path).

Section Calls.
Context {T : Type}.

(** Opening creates the file when it is missing; [O_TRUNC] empties it.
    On failure nothing changes and the cause is returned. *)
Definition OpenFile (name : string) (flag : OpenFlags)
  : M (Proc T) (File + error) :=
  fun p =>
    let w := world p in
    match answer w with
    | Some f => Returns (inr (Cause (cause f))) (set_world (issued w) p)
    | None =>
        let fd : nat := fresh (dom (fds w)) in
        let '(data, off) :=
          match flag with
          | O_APPEND_CREATE_WRONLY => (content w name, None)
          | O_RDWR_CREATE_TRUNC => ("", Some 0)
          end in
        Returns (inl fd)
          (set_world
             (with_fds (<[fd := {| h_path := name; h_offset := off |}]> (fds w))
                (with_files (<[name := data]> (files w)) (issued w))) p)
    end.

(** [os.Create(name)]. *)
Definition Create (name : string) : M (Proc T) (File + error) :=
  OpenFile name O_RDWR_CREATE_TRUNC.

(** [file.WriteString(s)]: the whole of [s] goes to the file, at its end
    under [O_APPEND] and at the descriptor's offset otherwise.  A failed
    write leaves the bytes that were written before the failure. *)
Definition WriteString (file : File) (s : string) : M (Proc T) (option error) :=
  fun p =>
    let w := world p in
    match fds w !! file with
    | None => Returns (Some (Cause "file already closed")) p
    | Some o =>
        let r := answer w in
        let n := match r with
                 | None => String.length s
                 | Some f => Nat.min (written f) (String.length s)
                 end in
        let old := content w (h_path o) in
        let '(new, off') :=
          match h_offset o with
          | None => (old +:+ str_take n s, None)
          | Some off =>
              (str_take off old +:+ str_take n s +:+ str_drop (off + n) old,
               Some (off + n))
          end in
        Returns (match r with
                 | None => None
                 | Some f => Some (Cause (cause f))
                 end)
          (set_world
             (with_fds (<[file := {| h_path := h_path o; h_offset := off' |}]> (fds w))
                (with_files (<[h_path o := new]> (files w)) (issued w))) p)
    end.

(** [file.Close()]: the descriptor is released even when the call
    reports an error. *)
Definition Close (file : File) : M (Proc T) (option error) :=
  fun p =>
    let w := world p in
    match fds w !! file with
    | None => Returns (Some (Cause "file already closed")) p
    | Some _ =>
        Returns (match answer w with
                 | None => None
                 | Some f => Some (Cause (cause f))
                 end)
          (set_world (with_fds (delete file (fds w)) (issued w)) p)
    end.

(** Reading a whole file, as a configuration loader does.  The error for
    a missing file names the operation and the path. *)
Definition ReadFile (name : string) : M (Proc T) (string + error) :=
  fun p =>
    let w := world p in
    match answer w with
    | Some f => Returns (inr (Cause (cause f))) (set_world (issued w) p)
    | None =>
        match files w !! name with
        | None =>
            Returns (inr (Cause ("open " +:+ name +:+ ": no such file or directory")))
              (set_world (issued w) p)
        | Some data => Returns (inl data) (set_world (issued w) p)
        end
    end.

(** [time.Now().Format(time.RFC3339)]. *)
Definition Now_RFC3339 : M (Proc T) string :=
  fun p =>
    let w := world p in
    Returns (clock (env w) (ticks w))
      (set_world
         {| env := env w; files := files w; fds := fds w;
            ticks := S (ticks w); calls := calls w; stderr := stderr w |} p).

(** [log.Printf(format, args...)]. *)
Definition Printf (fmt : string) (a : list string) : M (Proc T) unit :=
  fun p =>
    let w := world p in
    Returns tt
      (set_world
         {| env := env w; files := files w; fds := fds w;
            ticks := ticks w; calls := calls w;
            stderr := stderr w ++ [{| format := fmt; args := a |}] |} p).
End Calls.
End OS.

(** ** Goroutines *)

Module Threads.
Import Go.

(** A call cut into its atomic actions: each [Act] is one action on the
    shared state, after which other goroutines may run. *)
Inductive Prog (S A : Type) : Type :=
| Done (a : A)
| Fail (reason : string)
| Act {X : Type} (c : M S X) (k : X -> Prog S A).
Arguments Done {S A} a.
Arguments Fail {S A} reason.
Arguments Act {S A X} c k.

(** Running a call alone, with no other goroutine in between. *)
Fixpoint run {S A} (c : Prog S A) : M S A :=
  match c with
  | Done a => ret a
  | Fail r => panic r
  | Act c k =>
      fun s =>
        match c s with
        | Returns x s' => run (k x) s'
        | Panics r s' => Panics r s'
        | Blocks => Blocks
        end
  end.

(** One action as a call. *)
Definition lift {S X} (c : M S X) : Prog S X := Act c Done.

Fixpoint pbind {S A B} (c : Prog S A) (k : A -> Prog S B) : Prog S B :=
  match c with
  | Done a => k a
  | Fail r => Fail r
  | Act c k' => Act c (fun x => pbind (k' x) k)
  end.

(** An action whose panic is handed to the continuation. *)
Definition catch {S X} (c : M S X) : M S (X + string) :=
  fun s =>
    match c s with
    | Returns x s' => Returns (inl x) s'
    | Panics r s' => Returns (inr r) s'
    | Blocks => Blocks
    end.

(** [defer d; body] on calls cut into actions. *)
Fixpoint pdefer {S A} (d : Prog S unit) (body : Prog S A) : Prog S A :=
  match body with
  | Done a => pbind d (fun _ => Done a)
  | Fail r => pbind d (fun _ => Fail r)
  | Act c k =>
      Act (catch c)
        (fun v =>
           match v with
           | inl x => pdefer d (k x)
           | inr r => pbind d (fun _ => Fail r)
           end)
  end.

(** The goroutines of a process take turns: one of them performs its next
    action on the shared state.  A blocked action is not a turn. *)
Inductive turn {S A} : S * list (Prog S A) -> S * list (Prog S A) -> Prop :=
| turn_returns i X (c : M S X) k x s s' pool :
    pool !! i = Some (Act c k) ->
    c s = Returns x s' ->
    turn (s, pool) (s', <[i := k x]> pool)
| turn_panics i X (c : M S X) (k : X -> Prog S A) r s s' pool :
    pool !! i = Some (Act c k) ->
    c s = Panics r s' ->
    turn (s, pool) (s', <[i := Fail r]> pool).

(** A call that has come to its end. *)
Definition finished {S A} (c : Prog S A) : Prop :=
  match c with
  | Act _ _ => False
  | _ => True
  end.

(** [agrees c m]: run alone, [c] does what the call [m] does. *)
Definition agrees {S A} (c : Prog S A) (m : M S A) : Prop :=
  forall s, run c s = m s.

(** [serial pool0 l s s']: the calls numbered [l.*1] of [pool0], run alone
    one after the other from [s], return the results [l.*2] and leave
    [s']. *)
Inductive serial {S A} (pool0 : list (Prog S A)) : list (nat * A) -> S -> S -> Prop :=
| serial_nil s : serial pool0 [] s s
| serial_snoc l i c a s s1 s2 :
    serial pool0 l s s1 ->
    pool0 !! i = Some c ->
    run c s1 = Returns a s2 ->
    serial pool0 (l ++ [(i, a)]) s s2.

Section Discipline.
Context {S : Type} (free owned : S -> bool).

(** A stretch of a critical section: while the lock is held each action
    returns and keeps the lock, and the result satisfies [Q]. *)
Fixpoint inner {A} (Q : A -> Prop) (c : Prog S A) : Prop :=
  match c with
  | Done a => Q a
  | Fail _ => False
  | Act c k =>
      forall s, owned s = true ->
        exists x s', c s = Returns x s' /\ owned s' = true /\ inner Q (k x)
  end.

(** A call inside its critical section: while the lock is held each of its
    actions returns, and either keeps the lock and stays inside, or
    releases the lock and ends the call. *)
Fixpoint critical {A} (c : Prog S A) : Prop :=
  match c with
  | Act c k =>
      forall s, owned s = true ->
        exists x s',
          c s = Returns x s' /\
          ((owned s' = true /\ critical (k x)) \/
           (free s' = true /\ exists a, k x = Done a))
  | _ => False
  end.

(** A call that begins by taking the lock: its first action blocks while
    the lock is not free, and otherwise takes it and enters the critical
    section. *)
Definition guarded {A} (c : Prog S A) : Prop :=
  match c with
  | Act c k =>
      (forall s, free s = false -> c s = Blocks) /\
      (forall s, free s = true ->
         exists x s', c s = Returns x s' /\ owned s' = true /\ critical (k x))
  | _ => False
  end.

(** What holds of every state the goroutines of [pool0] reach from [s0]:
    some calls have run to their end, one after the other; the lock is
    free and the others have not begun, or one call holds the lock and is
    part of the way through what it does when run alone. *)
Definition inv {A} (pool0 : list (Prog S A)) (s0 : S)
    (st : S * list (Prog S A)) : Prop :=
  length (st.2) = length pool0 /\
  exists l sb,
    serial pool0 l s0 sb /\
    NoDup (l.*1) /\
    (forall i a, (i, a) ∈ l -> st.2 !! i = Some (Done a)) /\
    ((free st.1 = true /\ st.1 = sb /\
      forall i, i ∉ l.*1 -> st.2 !! i = pool0 !! i) \/
     (owned st.1 = true /\
      exists o c c0,
        (o ∉ l.*1) /\ st.2 !! o = Some c /\ pool0 !! o = Some c0 /\
        critical c /\ run c st.1 = run c0 sb /\
        forall i, i ∉ l.*1 -> i <> o -> st.2 !! i = pool0 !! i)).
End Discipline.
End Threads.

Declare Scope steps_scope.
Delimit Scope steps_scope with steps.
Notation "x <- c ;; k" := (Threads.pbind c (fun x => k))
  (at level 100, c at next level, right associativity) : steps_scope.
Notation "c ;;; k" := (Threads.pbind c (fun _ => k))
  (at level 100, right associativity) : steps_scope.

(** ** What both programs share: messages and their decoding *)

Module MQTT.
Import Go.

(** An inbound [mqtt.Message], as far as the handler reads it. *)
Record Message := { Topic : string; Payload : string }.

(** [json.Unmarshal(body, &payload)] with [payload] a
    [map[string]any]: the decoded map (nil for the document [null]), or
    the decoding error. *)
Class Decoder (any : Type) := {
  Unmarshal : string -> GoMap any + error
}.
End MQTT.

(** ** The configuration library *)

Module Viper.
Import Go OS.
Local Open Scope go_scope.

(** A configuration value as the YAML reader delivers it. *)
#[warnings="-register-all"]
Inductive setting : Type :=
| VString (s : string)
| VInt (z : Z)
| VBool (b : bool)
| VList (l : list setting).

(** The package-level viper instance.  Keys are the lower-cased dotted
    paths viper uses ([mqtt.port]). *)
Record State := {
  configFile : string;
  configType : string;
  defaults : gmap string setting;
  config : gmap string setting
}.

(** A fresh process: nothing set. *)
Definition initial : State :=
  {| configFile := ""; configType := ""; defaults := ∅; config := ∅ |}.

(** What the libraries behind viper compute: the reader for a
    configuration type ([yaml]) applied to the text of the file, its
    result flattened to dotted keys, and the conversions the decoder
    applies to a value that does not already have the kind of the field
    it goes to. *)
Class Codec := {
  parse_config : string -> string -> gmap string setting + error;
  weak_string : setting -> string + error;
  weak_int : setting -> Z + error;
  weak_strings : setting -> list string + error
}.

(** The values of a Go [int]. *)
Definition is_int (z : Z) : bool :=
  ((-9223372036854775808 <=? z) && (z <=? 9223372036854775807))%Z.

Definition SetConfigFile (path : string) : M (Proc State) unit :=
  modify (fun p =>
    {| self := {| configFile := path; configType := configType (self p);
                  defaults := defaults (self p); config := config (self p) |};
       world := world p |}).

Definition SetConfigType (ty : string) : M (Proc State) unit :=
  modify (fun p =>
    {| self := {| configFile := configFile (self p); configType := ty;
                  defaults := defaults (self p); config := config (self p) |};
       world := world p |}).

Definition SetDefault (key : string) (v : setting) : M (Proc State) unit :=
  modify (fun p =>
    {| self := {| configFile := configFile (self p); configType := configType (self p);
                  defaults := <[key := v]> (defaults (self p));
                  config := config (self p) |};
       world := world p |}).

(** A value set in the configuration file wins over a default. *)
Definition lookup_setting (v : State) (key : string) : option setting :=
  match config v !! key with
  | Some x => Some x
  | None => defaults v !! key
  end.

Section WithCodec.
Context `{Codec}.

Definition ReadInConfig : M (Proc State) (option error) :=
  path <- gets (fun p => configFile (self p)) ;;
  r <- ReadFile path ;;
  match r with
  | inr err => ret (Some err)
  | inl text =>
      ty <- gets (fun p => configType (self p)) ;;
      match parse_config ty text with
      | inr err => ret (Some err)
      | inl settings =>
          modify (fun p =>
            {| self := {| configFile := configFile (self p);
                          configType := configType (self p);
                          defaults := defaults (self p);
                          config := settings |};
               world := world p |}) ;;;
          ret None
      end
  end.

Definition decode_string (v : setting) : string + error :=
  match v with
  | VString s => inl s
  | _ => weak_string v
  end.

(** A Go [int] has 64 bits on the platforms the program is built for.
    An integer of the file that fits is taken as it is; what becomes of
    one that does not is the decoder's conversion. *)
Definition decode_int (v : setting) : Z + error :=
  match v with
  | VInt z => if is_int z then inl z else weak_int v
  | _ => weak_int v
  end.

Fixpoint decode_all (l : list setting) : list string + error :=
  match l with
  | [] => inl []
  | x :: l' =>
      match decode_string x with
      | inr err => inr err
      | inl s =>
          match decode_all l' with
          | inr err => inr err
          | inl ss => inl (s :: ss)
          end
      end
  end.

Definition decode_strings (v : setting) : list string + error :=
  match v with
  | VList l => decode_all l
  | _ => weak_strings v
  end.

(** Decoding one struct field: a key that is set nowhere leaves the
    zero value of the field. *)
Definition field {A} (decode : setting -> A + error) (zero : A)
    (v : State) (key : string) : A + error :=
  match lookup_setting v key with
  | None => inl zero
  | Some x => decode x
  end.
End WithCodec.
End Viper.

(** ** Configuration (the same in both programs but for one default) *)

Module Settings.
Import Go OS Viper.
Local Open Scope go_scope.

Record MQTTConfig := {
  Broker : string;
  Port : Z;                     (* a Go [int] *)
  Username : string;
  Password : string;
  Topics : list string
}.

Record Config := { MQTT : MQTTConfig; OutputFile : string }.

Section Load.
Context `{Codec}.

(** What [viper.Unmarshal(&config)] stores in [config], following the
    [mapstructure] tags of [Config], or its error. *)
Definition decode_config (v : State) : Config + error :=
  match field decode_string "" v "mqtt.broker" with
  | inr err => inr err
  | inl broker =>
  match field decode_int 0%Z v "mqtt.port" with
  | inr err => inr err
  | inl port =>
  match field decode_string "" v "mqtt.username" with
  | inr err => inr err
  | inl username =>
  match field decode_string "" v "mqtt.password" with
  | inr err => inr err
  | inl password =>
  match field decode_strings [] v "mqtt.topics" with
  | inr err => inr err
  | inl topics =>
  match field decode_string "" v "output_file" with
  | inr err => inr err
  | inl output =>
      inl {| MQTT := {| Broker := broker; Port := port;
                        Username := username; Password := password;
                        Topics := topics |};
             OutputFile := output |}
  end end end end end end.

(** [viper.Unmarshal(&config)]. *)
Definition Unmarshal_Config : M (Proc State) (Config + error) :=
  v <- gets self ;;
  ret (decode_config v).

(** [loadConfig], with the default output file name of the program it
    belongs to. *)
Definition loadConfig_with (default_output : string) (configPath : string)
  : M (Proc State) (Config + error) :=
  SetConfigFile configPath ;;;
  SetConfigType "yaml" ;;;
  SetDefault "mqtt.port" (VInt 1883) ;;;
  SetDefault "output_file" (VString default_output) ;;;
  r <- ReadInConfig ;;
  match r with
  | Some err => ret (inr (Errorf_w "failed to read config file" err))
  | None =>
      u <- Unmarshal_Config ;;
      match u with
      | inr err => ret (inr (Errorf_w "failed to unmarshal config" err))
      | inl config =>
          if String.eqb (Broker (MQTT config)) "" then
            ret (inr (Errorf "mqtt.broker is required"))
          else if Nat.eqb (List.length (Topics (MQTT config))) 0 then
            ret (inr (Errorf "at least one mqtt.topic is required"))
          else ret (inl config)
      end
  end.
End Load.
End Settings.

(** ** The Line Sink (main.go) *)

Module LineSink.
Import Go Sync OS MQTT Threads.
Local Open Scope go_scope.

(** [FileWriter]: the lock and the configured output path. *)
Record FileWriter := { mu : Mutex; filePath : string }.

Definition NewFileWriter (filePath : string) : FileWriter :=
  {| mu := unlocked; filePath := filePath |}.

Definition fw_mu (p : Proc FileWriter) : Mutex := mu (self p).

Definition set_fw_mu (b : Mutex) (p : Proc FileWriter) : Proc FileWriter :=
  {| self := {| mu := b; filePath := filePath (self p) |}; world := world p |}.

Section Sink.
Context {any : Type} `{Dyn any} `{Decoder any}.

Definition WriteMessage (payload : GoMap any) : M (Proc FileWriter) (option error) :=
  Lock fw_mu set_fw_mu ;;;
  defer (Unlock fw_mu set_fw_mu)
    (path <- gets (fun p => filePath (self p)) ;;
     r <- OpenFile path O_APPEND_CREATE_WRONLY ;;
     match r with
     | inr err => ret (Some (Errorf_w "failed to open output file" err))
     | inl file =>
         defer (Close file ;;; ret tt)
           (date <- Now_RFC3339 ;;
            let line := date in
            let line :=
              match index payload "name" with
              | Some name => line +:+ ("|name=" +:+ Sprint_v name)
              | None => line
              end in
            let line :=
              match index payload "rssi" with
              | Some rssi => line +:+ ("|rssi=" +:+ Sprint_v rssi)
              | None => line
              end in
            let line := line +:+ LF in
            w <- WriteString file line ;;
            match w with
            | Some err => ret (Some (Errorf_w "failed to write to file" err))
            | None => ret None
            end)
     end).

(** [WriteMessage] as the sequence of its atomic actions. *)
Definition WriteMessage_steps (payload : GoMap any)
  : Prog (Proc FileWriter) (option error) :=
  (lift (Lock fw_mu set_fw_mu) ;;;
   pdefer (lift (Unlock fw_mu set_fw_mu))
     (path <- lift (gets (fun p => filePath (self p))) ;;
      r <- lift (OpenFile path O_APPEND_CREATE_WRONLY) ;;
      match r with
      | inr err => Done (Some (Errorf_w "failed to open output file" err))
      | inl file =>
          pdefer (lift (Close file) ;;; Done tt)
            (date <- lift Now_RFC3339 ;;
             let line := date in
             let line :=
               match index payload "name" with
               | Some name => line +:+ ("|name=" +:+ Sprint_v name)
               | None => line
               end in
             let line :=
               match index payload "rssi" with
               | Some rssi => line +:+ ("|rssi=" +:+ Sprint_v rssi)
               | None => line
               end in
             let line := line +:+ LF in
             w <- lift (WriteString file line) ;;
             match w with
             | Some err => Done (Some (Errorf_w "failed to write to file" err))
             | None => Done None
             end)
      end))%steps.

(** The closure [messageHandler(writer)] applied to one message; the
    writer is the sink object of the process. *)
Definition messageHandler (msg : Message) : M (Proc FileWriter) unit :=
  match Unmarshal (Payload msg) with
  | inr err =>
      Printf "Error unmarshaling message from topic %s: %v" [Topic msg; Error err]
  | inl payload =>
      r <- WriteMessage payload ;;
      match r with
      | Some err => Printf "Error saving message: %v" [Error err]
      | None => Printf "Received message on topic %s" [Topic msg]
      end
  end.
End Sink.

Definition loadConfig `{Viper.Codec} (configPath : string)
  : M (Proc Viper.State) (Settings.Config + error) :=
  Settings.loadConfig_with "mqtt-trace.log" configPath.
End LineSink.

(** ** The JSON Store Sink *)

Module JsonStore.
Import Go Sync OS MQTT Threads.
Local Open Scope go_scope.

Section Sink.
Context {any : Type}.

Record MessageRecord := { Date : string; Payload : GoMap any }.

(** [MessageStore]: the lock, the records so far and the output path. *)
Record MessageStore := {
  mu : RWMutex;
  messages : list MessageRecord;
  filePath : string
}.

Definition NewMessageStore (filePath : string) : MessageStore :=
  {| mu := rw_unlocked; messages := []; filePath := filePath |}.

(** What [json.NewEncoder(file)] with [SetIndent("", "  ")] produces
    for the records: the text [Encode] hands to the file in one write,
    or the encoding error. *)
Class Encoder := {
  Marshal_indent : list MessageRecord -> string + error
}.

Context `{Dyn any} `{Decoder any} `{Encoder}.

Definition ms_mu (p : Proc MessageStore) : RWMutex := mu (self p).

Definition set_ms_mu (m : RWMutex) (p : Proc MessageStore) : Proc MessageStore :=
  {| self := {| mu := m; messages := messages (self p);
                filePath := filePath (self p) |};
     world := world p |}.

(** [ms.messages = append(ms.messages, record)]. *)
Definition append_record (record : MessageRecord) : M (Proc MessageStore) unit :=
  modify (fun p =>
    {| self := {| mu := mu (self p);
                  messages := messages (self p) ++ [record];
                  filePath := filePath (self p) |};
       world := world p |}).

(** [m[k] = v]; assigning into the nil map panics. *)
Definition assign {S} (m : GoMap any) (k : string) (v : any) : M S (GoMap any) :=
  match m with
  | NilMap => panic "assignment to entry in nil map"
  | Map g => ret (Map (<[k := v]> g))
  end.

(** [encoder.Encode(v)] on a file. *)
Definition Encode (file : File) (v : list MessageRecord)
  : M (Proc MessageStore) (option error) :=
  match Marshal_indent v with
  | inr err => ret (Some err)
  | inl text => WriteString file text
  end.

Definition saveToFile : M (Proc MessageStore) (option error) :=
  path <- gets (fun p => filePath (self p)) ;;
  r <- Create path ;;
  match r with
  | inr err => ret (Some (Errorf_w "failed to create output file" err))
  | inl file =>
      defer (Close file ;;; ret tt)
        (msgs <- gets (fun p => messages (self p)) ;;
         e <- Encode file msgs ;;
         match e with
         | Some err => ret (Some (Errorf_w "failed to encode JSON" err))
         | None => ret None
         end)
  end.

Definition AddMessage (payload : GoMap any) : M (Proc MessageStore) (option error) :=
  RWLock ms_mu set_ms_mu ;;;
  defer (RWUnlock ms_mu set_ms_mu)
    (let filteredPayload := make_map in
     filteredPayload <-
       match index payload "rssi" with
       | Some rssi => assign filteredPayload "rssi" rssi
       | None => ret filteredPayload
       end ;;
     filteredPayload <-
       match index payload "name" with
       | Some name => assign filteredPayload "name" name
       | None => ret filteredPayload
       end ;;
     date <- Now_RFC3339 ;;
     let record := {| Date := date; Payload := filteredPayload |} in
     append_record record ;;;
     saveToFile).

(** [encoder.Encode(v)] as its atomic actions. *)
Definition Encode_steps (file : File) (v : list MessageRecord)
  : Prog (Proc MessageStore) (option error) :=
  match Marshal_indent v with
  | inr err => Done (Some err)
  | inl text => lift (WriteString file text)
  end.

(** [saveToFile] as the sequence of its atomic actions. *)
Definition saveToFile_steps : Prog (Proc MessageStore) (option error) :=
  (path <- lift (gets (fun p => filePath (self p))) ;;
   r <- lift (Create path) ;;
   match r with
   | inr err => Done (Some (Errorf_w "failed to create output file" err))
   | inl file =>
       pdefer (lift (Close file) ;;; Done tt)
         (msgs <- lift (gets (fun p => messages (self p))) ;;
          e <- Encode_steps file msgs ;;
          match e with
          | Some err => Done (Some (Errorf_w "failed to encode JSON" err))
          | None => Done None
          end)
   end)%steps.

(** [AddMessage] as the sequence of its atomic actions. *)
Definition AddMessage_steps (payload : GoMap any)
  : Prog (Proc MessageStore) (option error) :=
  (lift (RWLock ms_mu set_ms_mu) ;;;
   pdefer (lift (RWUnlock ms_mu set_ms_mu))
     (let filteredPayload := make_map in
      filteredPayload <-
        match index payload "rssi" with
        | Some rssi => lift (assign filteredPayload "rssi" rssi)
        | None => Done filteredPayload
        end ;;
      filteredPayload <-
        match index payload "name" with
        | Some name => lift (assign filteredPayload "name" name)
        | None => Done filteredPayload
        end ;;
      date <- lift Now_RFC3339 ;;
      let record := {| Date := date; Payload := filteredPayload |} in
      lift (append_record record) ;;;
      saveToFile_steps))%steps.

(** The closure [messageHandler(store)] applied to one message. *)
Definition messageHandler (msg : Message) : M (Proc MessageStore) unit :=
  match Unmarshal (MQTT.Payload msg) with
  | inr err =>
      Printf "Error unmarshaling message from topic %s: %v" [Topic msg; Error err]
  | inl payload =>
      r <- AddMessage payload ;;
      match r with
      | Some err => Printf "Error saving message: %v" [Error err]
      | None =>
          Printf "Received message on topic %s: %+v"
            [Topic msg; Sprint_plus_v payload]
      end
  end.
End Sink.
Arguments MessageRecord any : clear implicits.
Arguments MessageStore any : clear implicits.
Arguments Encoder any : clear implicits.

Definition loadConfig `{Viper.Codec} (configPath : string)
  : M (Proc Viper.State) (Settings.Config + error) :=
  Settings.loadConfig_with "mqtt-trace.json" configPath.
End JsonStore.

(** ** Formatting numbers *)

Module Fmt.
(** [fmt.Sprintf("%d", z)]. *)
Definition Sprint_d (z : Z) : string :=
  DecimalString.NilZero.string_of_int (Z.to_int z).
End Fmt.

(** ** The MQTT client library, as far as [main] drives it *)

Module Paho.
Import Go OS.

(** [mqtt.ClientOptions], restricted to the fields the program sets; [H]
    is the type of a message handler.  A server is kept as the address
    handed to [AddBroker]. *)
Record ClientOptions (H : Type) := {
  Servers : list string;
  ClientID : string;
  Username : string;
  Password : string;
  AutoReconnect : bool;
  ConnectRetry : bool;
  ConnectRetryInterval : Z;            (* a [time.Duration]: nanoseconds *)
  DefaultPublishHandler : option H
}.
Arguments Servers {H} c.
Arguments ClientID {H} c.
Arguments Username {H} c.
Arguments Password {H} c.
Arguments AutoReconnect {H} c.
Arguments ConnectRetry {H} c.
Arguments ConnectRetryInterval {H} c.
Arguments DefaultPublishHandler {H} c.

(** One call of [client.Subscribe] that succeeded. *)
Record Subscription (H : Type) := { topic : string; qos : Z; callback : H }.
Arguments topic {H} s.
Arguments qos {H} s.
Arguments callback {H} s.

(** A client: its options, whether it is connected, and the
    subscriptions it holds, oldest first. *)
Record Client (H : Type) := {
  options : ClientOptions H;
  connected : bool;
  subscriptions : list (Subscription H)
}.
Arguments options {H} c.
Arguments connected {H} c.
Arguments subscriptions {H} c.

(** What [mqtt.NewClientOptions()] returns is the library's choice. *)
Class Library (H : Type) := { NewClientOptions : ClientOptions H }.

Section Options.
Context {H : Type}.

Definition AddBroker (server : string) (o : ClientOptions H) : ClientOptions H :=
  {| Servers := Servers o ++ [server]; ClientID := ClientID o;
     Username := Username o; Password := Password o;
     AutoReconnect := AutoReconnect o; ConnectRetry := ConnectRetry o;
     ConnectRetryInterval := ConnectRetryInterval o;
     DefaultPublishHandler := DefaultPublishHandler o |}.

Definition SetClientID (id : string) (o : ClientOptions H) : ClientOptions H :=
  {| Servers := Servers o; ClientID := id;
     Username := Username o; Password := Password o;
     AutoReconnect := AutoReconnect o; ConnectRetry := ConnectRetry o;
     ConnectRetryInterval := ConnectRetryInterval o;
     DefaultPublishHandler := DefaultPublishHandler o |}.

Definition SetUsername (u : string) (o : ClientOptions H) : ClientOptions H :=
  {| Servers := Servers o; ClientID := ClientID o;
     Username := u; Password := Password o;
     AutoReconnect := AutoReconnect o; ConnectRetry := ConnectRetry o;
     ConnectRetryInterval := ConnectRetryInterval o;
     DefaultPublishHandler := DefaultPublishHandler o |}.

Definition SetPassword (pw : string) (o : ClientOptions H) : ClientOptions H :=
  {| Servers := Servers o; ClientID := ClientID o;
     Username := Username o; Password := pw;
     AutoReconnect := AutoReconnect o; ConnectRetry := ConnectRetry o;
     ConnectRetryInterval := ConnectRetryInterval o;
     DefaultPublishHandler := DefaultPublishHandler o |}.

Definition SetAutoReconnect (b : bool) (o : ClientOptions H) : ClientOptions H :=
  {| Servers := Servers o; ClientID := ClientID o;
     Username := Username o; Password := Password o;
     AutoReconnect := b; ConnectRetry := ConnectRetry o;
     ConnectRetryInterval := ConnectRetryInterval o;
     DefaultPublishHandler := DefaultPublishHandler o |}.

Definition SetConnectRetry (b : bool) (o : ClientOptions H) : ClientOptions H :=
  {| Servers := Servers o; ClientID := ClientID o;
     Username := Username o; Password := Password o;
     AutoReconnect := AutoReconnect o; ConnectRetry := b;
     ConnectRetryInterval := ConnectRetryInterval o;
     DefaultPublishHandler := DefaultPublishHandler o |}.

Definition SetConnectRetryInterval (d : Z) (o : ClientOptions H) : ClientOptions H :=
  {| Servers := Servers o; ClientID := ClientID o;
     Username := Username o; Password := Password o;
     AutoReconnect := AutoReconnect o; ConnectRetry := ConnectRetry o;
     ConnectRetryInterval := d;
     DefaultPublishHandler := DefaultPublishHandler o |}.

Definition SetDefaultPublishHandler (h : H) (o : ClientOptions H) : ClientOptions H :=
  {| Servers := Servers o; ClientID := ClientID o;
     Username := Username o; Password := Password o;
     AutoReconnect := AutoReconnect o; ConnectRetry := ConnectRetry o;
     ConnectRetryInterval := ConnectRetryInterval o;
     DefaultPublishHandler := Some h |}.

(** [mqtt.NewClient(opts)]. *)
Definition NewClient (o : ClientOptions H) : Client H :=
  {| options := o; connected := false; subscriptions := [] |}.

Context {T : Type}.
Variable get : T -> option (Client H).
Variable set : Client H -> T -> T.

(** [token := client.Connect(); token.Wait(); token.Error()]; a nil
    client is a run-time panic.  The operating system's answer says
    whether the broker is reached.  A client told to retry
    ([ConnectRetry]) tries again every [ConnectRetryInterval] until a
    connection is made, so its token ends only with a connection: the
    answer [None] then stands for a connection made at some attempt, and
    with any other answer the caller waits for ever.  Without
    [ConnectRetry] the token ends with the error of the one attempt. *)
Definition Connect : M (Proc T) (option error) :=
  fun p =>
    match get (self p) with
    | None => Panics "invalid memory address or nil pointer dereference" p
    | Some c =>
        let w := world p in
        match answer w with
        | Some f =>
            if ConnectRetry (options c) then Blocks
            else Returns (Some (Cause (cause f))) {| self := self p; world := issued w |}
        | None =>
            Returns None
              {| self := set {| options := options c; connected := true;
                                subscriptions := subscriptions c |} (self p);
                 world := issued w |}
        end
    end.

(** [token := client.Subscribe(topic, qos, callback); token.Wait();
    token.Error()]. *)
Definition Subscribe (tp : string) (q : Z) (h : H) : M (Proc T) (option error) :=
  fun p =>
    match get (self p) with
    | None => Panics "invalid memory address or nil pointer dereference" p
    | Some c =>
        let w := world p in
        match answer w with
        | Some f => Returns (Some (Cause (cause f))) {| self := self p; world := issued w |}
        | None =>
            Returns None
              {| self := set {| options := options c; connected := connected c;
                                subscriptions :=
                                  subscriptions c
                                    ++ [{| topic := tp; qos := q; callback := h |}] |}
                             (self p);
                 world := issued w |}
        end
    end.

(** [client.Disconnect(quiesce)]. *)
Definition Disconnect (quiesce : Z) : M (Proc T) unit :=
  fun p =>
    match get (self p) with
    | None => Panics "invalid memory address or nil pointer dereference" p
    | Some c =>
        Returns tt
          {| self := set {| options := options c; connected := false;
                            subscriptions := subscriptions c |} (self p);
             world := world p |}
    end.
End Options.
End Paho.

(** ** What [main] is made of *)

Module Main.
Import Go OS MQTT Settings.
Local Open Scope go_scope.

(** The signals [main] asks to be notified of. *)
Inductive Signal := Interrupt | SIGTERM.

(** The Unix time of an instant given as [time.RFC3339] text. *)
Class Calendar := { unix : string -> Z }.

(** The variables of [main] and what the process is sent: the
    package-level viper instance, the sink and the client once they are
    created, and the signals that reach [sigChan] once [main] has asked
    for them, first one first. *)
Record Process (Sink : Type) := {
  viper : Viper.State;
  sink : option Sink;
  client : option (Paho.Client (Message -> M (Proc Sink) unit));
  signals : list Signal
}.
Arguments viper {Sink} p.
Arguments sink {Sink} p.
Arguments client {Sink} p.
Arguments signals {Sink} p.

Section Main.
Context {Sink : Type} `{Calendar}.
Context `{Paho.Library (Message -> M (Proc Sink) unit)}.

(** A call on the viper instance, made from [main]. *)
Definition on_viper {X} (c : M (Proc Viper.State) X) : M (Proc (Process Sink)) X :=
  fun p =>
    let back (v : Proc Viper.State) : Proc (Process Sink) :=
      {| self := {| viper := self v; sink := sink (self p);
                    client := client (self p); signals := signals (self p) |};
         world := world v |} in
    match c {| self := viper (self p); world := world p |} with
    | Returns x v => Returns x (back v)
    | Panics r v => Panics r (back v)
    | Blocks => Blocks
    end.

Definition set_sink (s : Sink) : M (Proc (Process Sink)) unit :=
  modify (fun p =>
    {| self := {| viper := viper (self p); sink := Some s;
                  client := client (self p); signals := signals (self p) |};
       world := world p |}).

Definition with_client (c : Paho.Client (Message -> M (Proc Sink) unit))
    (s : Process Sink) : Process Sink :=
  {| viper := viper s; sink := sink s; client := Some c; signals := signals s |}.

Definition set_client (c : Paho.Client (Message -> M (Proc Sink) unit))
  : M (Proc (Process Sink)) unit :=
  modify (fun p => {| self := with_client c (self p); world := world p |}).

(** [time.Now().Unix()]. *)
Definition Now_Unix : M (Proc (Process Sink)) Z :=
  date <- Now_RFC3339 ;;
  ret (unix date).

(** [log.Println(s)]: the output of [log.Printf(s)] for a text without
    verbs. *)
Definition Println (s : string) : M (Proc (Process Sink)) unit := Printf s [].

(** [log.Fatalf(format, args...)]: the line is written and the process
    exits with status 1. *)
Definition Fatalf (fmt : string) (a : list string) : M (Proc (Process Sink)) Z :=
  Printf fmt a ;;;
  ret 1%Z.

(** [<-sigChan], after [signal.Notify(sigChan, os.Interrupt,
    syscall.SIGTERM)]: waits for the first signal. *)
Definition receive_signal : M (Proc (Process Sink)) Signal :=
  fun p =>
    match signals (self p) with
    | [] => Blocks
    | s :: rest =>
        Returns s
          {| self := {| viper := viper (self p); sink := sink (self p);
                        client := client (self p); signals := rest |};
             world := world p |}
    end.

Variable loadConfig : string -> M (Proc Viper.State) (Config + error).
Variable NewSink : string -> Sink.
Variable messageHandler : Message -> M (Proc Sink) unit.
Variable last_words : M (Proc (Process Sink)) unit.

(** The loop over [config.MQTT.Topics]: the exit status when a
    subscription fails, nothing when all are made. *)
Fixpoint subscribe_all (topics : list string) : M (Proc (Process Sink)) (option Z) :=
  match topics with
  | [] => ret None
  | tp :: rest =>
      r <- Paho.Subscribe client with_client tp 0 messageHandler ;;
      match r with
      | Some err =>
          code <- Fatalf "Failed to subscribe to topic %s: %v" [tp; Error err] ;;
          ret (Some code)
      | None =>
          Printf "Subscribed to topic: %s" [tp] ;;;
          subscribe_all rest
      end
  end.

(** [main], given [os.Args]; the result is the exit status of the
    process.  What differs between the two programs is [loadConfig], the
    sink, its handler and the last line of the log. *)
Definition main_with (args : list string) : M (Proc (Process Sink)) Z :=
  let configPath :=
    match args with
    | _ :: path :: _ => path
    | _ => "config.yaml"
    end in
  r <- on_viper (loadConfig configPath) ;;
  match r with
  | inr err => Fatalf "Failed to load configuration: %v" [Error err]
  | inl config =>
      Printf "Loaded configuration from %s" [configPath] ;;;
      Printf "MQTT Broker: %s:%d"
        [Broker (MQTT config); Fmt.Sprint_d (Port (MQTT config))] ;;;
      Printf "Output file: %s" [OutputFile config] ;;;
      Printf "Subscribing to %d topics"
        [Fmt.Sprint_d (Z.of_nat (length (Topics (MQTT config))))] ;;;
      set_sink (NewSink (OutputFile config)) ;;;
      let opts := Paho.NewClientOptions in
      let opts :=
        Paho.AddBroker
          ("tcp://" +:+ Broker (MQTT config) +:+ ":" +:+ Fmt.Sprint_d (Port (MQTT config)))
          opts in
      now <- Now_Unix ;;
      let opts := Paho.SetClientID ("mqtt-trace-" +:+ Fmt.Sprint_d now) opts in
      let opts := Paho.SetUsername (Username (MQTT config)) opts in
      let opts := Paho.SetPassword (Password (MQTT config)) opts in
      let opts := Paho.SetAutoReconnect true opts in
      let opts := Paho.SetConnectRetry true opts in
      let opts := Paho.SetConnectRetryInterval (5 * 1000000000) opts in
      let opts := Paho.SetDefaultPublishHandler messageHandler opts in
      set_client (Paho.NewClient opts) ;;;
      c <- Paho.Connect client with_client ;;
      match c with
      | Some err => Fatalf "Failed to connect to MQTT broker: %v" [Error err]
      | None =>
          Println "Connected to MQTT broker" ;;;
          s <- subscribe_all (Topics (MQTT config)) ;;
          match s with
          | Some code => ret code
          | None =>
              Println "MQTT trace started. Press Ctrl+C to stop..." ;;;
              receive_signal ;;;
              Println "Shutting down..." ;;;
              Paho.Disconnect client with_client 250 ;;;
              Println "Disconnected from MQTT broker" ;;;
              last_words ;;;
              ret 0%Z
          end
      end
  end.
End Main.

End Main.

(** ** The two programs *)

Module LineSinkCmd.
Import Go OS MQTT Main.
Local Open Scope go_scope.

(** [main] of the Line Sink program (main.go). *)
Definition main `{Viper.Codec} `{Calendar} {any : Type} `{Dyn any} `{Decoder any}
    `{Paho.Library (Message -> M (Proc LineSink.FileWriter) unit)}
    (args : list string) : M (Proc (Process LineSink.FileWriter)) Z :=
  main_with LineSink.loadConfig LineSink.NewFileWriter LineSink.messageHandler
    (ret tt) args.
End LineSinkCmd.

Module JsonStoreCmd.
Import Go OS MQTT Main.
Local Open Scope go_scope.

(** [len(store.messages)], read by [main]. *)
Definition recorded {any : Type} (s : Process (JsonStore.MessageStore any)) : nat :=
  match sink s with
  | Some store => length (JsonStore.messages store)
  | None => 0
  end.

(** [main] of the JSON Store program. *)
Definition main `{Viper.Codec} `{Calendar} {any : Type} `{Dyn any} `{Decoder any}
    `{JsonStore.Encoder any}
    `{Paho.Library (Message -> M (Proc (JsonStore.MessageStore any)) unit)}
    (args : list string) : M (Proc (Process (JsonStore.MessageStore any))) Z :=
  main_with JsonStore.loadConfig JsonStore.NewMessageStore JsonStore.messageHandler
    (n <- gets (fun p => recorded (self p)) ;;
     Printf "Total messages recorded: %d" [Fmt.Sprint_d (Z.of_nat n)])
    args.
End JsonStoreCmd.

(** ** The JSON text of the records

    [saveToFile] hands the records to [encoding/json], and nothing in the
    repository reads the output file back.  The text that the library
    writes for the records and the reading of a JSON text are modelled
    here, from the specification and from what the library documents. *)

Module Json.
Import Go.

(** *** Bytes *)

Definition code (a : ascii) : N := N_of_ascii a.
Definition chr (n : N) : ascii := ascii_of_N n.

(** The bytes of a text. *)
Definition txt (s : string) : list ascii := list_ascii_of_string s.

Definition between (lo hi : N) (a : ascii) : bool :=
  ((lo <=? code a) && (code a <=? hi))%N.

(** The double quote and the backslash. *)
Definition dquote : ascii := chr 34.
Definition backslash : ascii := chr 92.

(** A continuation byte of UTF-8. *)
Definition cont (a : ascii) : bool := between 128 191 a.

(** The length of the well-formed UTF-8 sequence that [s] begins with,
    if it begins with one. *)
Definition utf8_width (s : list ascii) : option nat :=
  match s with
  | [] => None
  | a :: r =>
      if (code a <? 128)%N then Some 1
      else if between 194 223 a then
        match r with
        | b :: _ => if cont b then Some 2 else None
        | _ => None
        end
      else if between 224 239 a then
        match r with
        | b :: c :: _ =>
            if (if (code a =? 224)%N then between 160 191 b
                else if (code a =? 237)%N then between 128 159 b
                else cont b)
               && cont c
            then Some 3 else None
        | _ => None
        end
      else if between 240 244 a then
        match r with
        | b :: c :: d :: _ =>
            if (if (code a =? 240)%N then between 144 191 b
                else if (code a =? 244)%N then between 128 143 b
                else cont b)
               && cont c && cont d
            then Some 4 else None
        | _ => None
        end
      else None
  end.

(** [s] is well-formed UTF-8. *)
Fixpoint valid_from (fuel : nat) (s : list ascii) : bool :=
  match s with
  | [] => true
  | _ :: _ =>
      match fuel with
      | O => false
      | S fuel =>
          match utf8_width s with
          | Some w => valid_from fuel (drop w s)
          | None => false
          end
      end
  end.

Definition valid_utf8 (s : string) : bool := valid_from (String.length s) (txt s).

(** The UTF-8 sequence of a code point. *)
Definition utf8_encode (cp : N) : list ascii :=
  (if cp <? 128 then [chr cp]
   else if cp <? 2048 then [chr (192 + cp / 64); chr (128 + cp mod 64)]
   else if cp <? 65536 then
     [chr (224 + cp / 4096); chr (128 + (cp / 64) mod 64); chr (128 + cp mod 64)]
   else
     [chr (240 + cp / 262144); chr (128 + (cp / 4096) mod 64);
      chr (128 + (cp / 64) mod 64); chr (128 + cp mod 64)])%N.

(** The replacement character U+FFFD. *)
Definition replacement : list ascii := utf8_encode 65533.

(** *** Hexadecimal digits *)

Definition hex_digit (n : N) : ascii :=
  (if n <? 10 then chr (48 + n) else chr (87 + n))%N.

Definition hex_value (a : ascii) : option N :=
  if between 48 57 a then Some (code a - 48)%N
  else if between 97 102 a then Some (code a - 87)%N
  else if between 65 70 a then Some (code a - 55)%N
  else None.

Definition hex4 (a b c d : ascii) : option N :=
  match hex_value a, hex_value b, hex_value c, hex_value d with
  | Some x, Some y, Some z, Some t => Some (((x * 16 + y) * 16 + z) * 16 + t)%N
  | _, _, _, _ => None
  end.

(** *** Numbers *)

(** A character of a JSON number: a digit, a sign, the point or the mark
    of the exponent. *)
Definition number_char (a : ascii) : bool :=
  between 48 57 a
  || (code a =? 43)%N || (code a =? 45)%N || (code a =? 46)%N
  || (code a =? 69)%N || (code a =? 101)%N.

(** A text made of such characters that begins with a digit or the minus
    sign. *)
Definition number_text (s : list ascii) : bool :=
  match s with
  | [] => false
  | a :: _ => (between 48 57 a || (code a =? 45)%N) && forallb number_char s
  end.

(** Modelled from the spec: a number of a payload is a [float64], and its
    decimal form and the reading of a decimal form are the library's
    ([strconv]). *)
Class Number (num : Type) := {
  show_number : num -> string;
  read_number : string -> option num
}.

(** What the library documents of the two: the text it writes is a JSON
    number, and reading that text gives the same number. *)
Definition writes_numbers {num : Type} `{Number num} : Prop :=
  forall n, number_text (txt (show_number n)) = true.

Definition reads_numbers {num : Type} `{Number num} : Prop :=
  forall n, read_number (show_number n) = Some n.

(** *** Values *)

(** Modelled from the spec: a value of a payload is a tagged variant:
    string, number, boolean, null or nested mapping.  A sequence of
    values, which the decoder of the dispatcher yields for a JSON array,
    is a value too. *)
#[warnings="-register-all"]
Inductive value (num : Type) : Type :=
| JNull
| JBool (b : bool)
| JNumber (n : num)
| JString (s : string)
| JArray (l : list (value num))
| JObject (m : gmap string (value num)).
Arguments JNull {num}.
Arguments JBool {num} b.
Arguments JNumber {num} n.
Arguments JString {num} s.
Arguments JArray {num} l.
Arguments JObject {num} m.

(** Every string of a value, keys included, is well-formed UTF-8, as the
    strings a JSON decoder yields are. *)
Inductive wf {num : Type} : value num -> Prop :=
| wf_null : wf JNull
| wf_bool b : wf (JBool b)
| wf_number n : wf (JNumber n)
| wf_string s : valid_utf8 s = true -> wf (JString s)
| wf_array l : (forall v, v ∈ l -> wf v) -> wf (JArray l)
| wf_object m :
    (forall k v, m !! k = Some v -> valid_utf8 k = true) ->
    (forall k v, m !! k = Some v -> wf v) ->
    wf (JObject m).

Definition wf_payload {num : Type} (p : GoMap (value num)) : Prop :=
  match p with
  | NilMap => True
  | Map m => wf (JObject m)
  end.

Definition wf_record {num : Type} (r : JsonStore.MessageRecord (value num)) : Prop :=
  valid_utf8 (JsonStore.Date r) = true /\ wf_payload (JsonStore.Payload r).

(** *** Encoding *)

(** Modelled from the spec: the text of a JSON string as the encoder
    writes it, with the escapes of [encoding/json] (HTML characters
    included, as an [Encoder] does unless told otherwise). *)
Definition escape_ascii (a : ascii) : list ascii :=
  match code a with
  | 34%N | 92%N => [backslash; a]
  | 8%N => backslash :: txt "b"
  | 12%N => backslash :: txt "f"
  | 10%N => backslash :: txt "n"
  | 13%N => backslash :: txt "r"
  | 9%N => backslash :: txt "t"
  | n =>
      if ((n <? 32) || (n =? 60) || (n =? 62) || (n =? 38))%N
      then backslash :: txt "u00" ++ [hex_digit (n / 16)%N; hex_digit (n mod 16)%N]
      else [a]
  end.

(** The line and paragraph separators U+2028 and U+2029. *)
Definition separator (u : list ascii) : option (list ascii) :=
  match u with
  | [a; b; c] =>
      if ((code a =? 226) && (code b =? 128))%N then
        if (code c =? 168)%N then Some (backslash :: txt "u2028")
        else if (code c =? 169)%N then Some (backslash :: txt "u2029")
        else None
      else None
  | _ => None
  end.

Fixpoint escape_from (fuel : nat) (s : list ascii) : list ascii :=
  match fuel, s with
  | S fuel, a :: r =>
      if (code a <? 128)%N then escape_ascii a ++ escape_from fuel r
      else
        match utf8_width s with
        | Some w =>
            let u := take w s in
            default u (separator u) ++ escape_from fuel (drop w s)
        | None => backslash :: txt "ufffd" ++ escape_from fuel r
        end
  | _, _ => []
  end.

Definition escape (s : string) : list ascii := escape_from (String.length s) (txt s).

Definition quoted (s : string) : list ascii := dquote :: escape s ++ [dquote].

(** A line break followed by the indentation of depth [d]. *)
Definition newline (d : nat) : list ascii :=
  chr 10 :: concat (replicate d (txt "  ")).

(** Items separated by a comma and a line break. *)
Definition commas (d : nat) (items : list (list ascii)) : list ascii :=
  match items with
  | [] => []
  | x :: xs => x ++ concat ((fun y => chr 44 :: newline d ++ y) <$> xs)
  end.

(** An array or an object at depth [d]: nothing between the brackets
    when it is empty, one item per line otherwise. *)
Definition block (opening closing : ascii) (d : nat) (items : list (list ascii))
  : list ascii :=
  match items with
  | [] => [opening; closing]
  | _ => opening :: newline (S d) ++ commas (S d) items ++ newline d ++ [closing]
  end.

Definition member (kt : string * list ascii) : list ascii :=
  quoted kt.1 ++ txt ": " ++ kt.2.

(** The entries of a map in the order of their keys. *)
Definition by_key {X : Type} (a b : string * X) : Prop := String.le a.1 b.1.

#[export] Instance by_key_dec {X : Type} : RelDecision (@by_key X).
Proof. intros a b. unfold by_key. apply _. Defined.

Definition sorted_entries {X : Type} (m : gmap string X) : list (string * X) :=
  merge_sort by_key (map_to_list m).

Section WithNumbers.
Context {num : Type} `{Number num}.

(** Modelled from the spec: the output is two-space indented JSON; this
    is the text of a value at depth [d] under
    [SetIndent(<empty>, <two spaces>)]. *)
Fixpoint enc_value (d : nat) (v : value num) : list ascii :=
  match v with
  | JNull => txt "null"
  | JBool true => txt "true"
  | JBool false => txt "false"
  | JNumber n => txt (show_number n)
  | JString s => quoted s
  | JArray l => block (chr 91) (chr 93) d (enc_value (S d) <$> l)
  | JObject m =>
      block (chr 123) (chr 125) d (member <$> sorted_entries (enc_value (S d) <$> m))
  end.

(** A nil map is written [null]. *)
Definition enc_payload (d : nat) (p : GoMap (value num)) : list ascii :=
  match p with
  | NilMap => txt "null"
  | Map m => enc_value d (JObject m)
  end.

(** Modelled from the spec: a record is an object [{date, payload}]: the
    two fields of [MessageRecord] in the order of the struct, under the
    names of their [json] tags. *)
Definition enc_record (d : nat) (r : JsonStore.MessageRecord (value num)) : list ascii :=
  block (chr 123) (chr 125) d
    [ member ("date", quoted (JsonStore.Date r));
      member ("payload", enc_payload (S d) (JsonStore.Payload r)) ].

(** Modelled from the spec: the output is a single top-level array of the
    records, two-space indented; [encoder.Encode(ms.messages)] ends it
    with a line break. *)
Definition encode (rs : list (JsonStore.MessageRecord (value num))) : string :=
  string_of_list_ascii (block (chr 91) (chr 93) 0 (enc_record 1 <$> rs) ++ [chr 10]).

(** Modelled from the spec: the encoder of [saveToFile] for these values.
    It has no error: every such value has a JSON text. *)
#[export] Instance encoder : JsonStore.Encoder (value num) :=
  {| JsonStore.Marshal_indent rs := inl (encode rs) |}.

(** *** Decoding *)

Definition is_ws (a : ascii) : bool :=
  ((code a =? 32) || (code a =? 10) || (code a =? 13) || (code a =? 9))%N.

Fixpoint skip_ws (s : list ascii) : list ascii :=
  match s with
  | a :: r => if is_ws a then skip_ws r else s
  | [] => []
  end.

(** [p] followed by the rest of [s], if [s] begins with [p]. *)
Fixpoint strip (p s : list ascii) : option (list ascii) :=
  match p, s with
  | [], _ => Some s
  | a :: p', b :: s' => if Ascii.eqb a b then strip p' s' else None
  | _ :: _, [] => None
  end.

Definition prepend (u : list ascii) (r : option (list ascii * list ascii))
  : option (list ascii * list ascii) :=
  match r with
  | Some (v, rest) => Some (u ++ v, rest)
  | None => None
  end.

(** Modelled from the spec: the content of a JSON string up to its
    closing quote, and what follows the quote.  [k] counts the bytes
    still to copy of a UTF-8 sequence that was found well-formed; a
    byte that begins no well-formed sequence is replaced by U+FFFD, and
    so is a surrogate without its pair. *)
Fixpoint unescape (k : nat) (s : list ascii) : option (list ascii * list ascii) :=
  match s with
  | [] => None
  | a :: r =>
      match k with
      | S k' => prepend [a] (unescape k' r)
      | O =>
          match code a with
          | 34%N => Some ([], r)
          | 92%N =>
              match r with
              | b :: r1 =>
                  match code b with
                  | 34%N | 92%N | 47%N => prepend [b] (unescape 0 r1)
                  | 98%N => prepend [chr 8] (unescape 0 r1)
                  | 102%N => prepend [chr 12] (unescape 0 r1)
                  | 110%N => prepend [chr 10] (unescape 0 r1)
                  | 114%N => prepend [chr 13] (unescape 0 r1)
                  | 116%N => prepend [chr 9] (unescape 0 r1)
                  | 117%N =>
                      match r1 with
                      | h1 :: h2 :: h3 :: h4 :: r2 =>
                          match hex4 h1 h2 h3 h4 with
                          | None => None
                          | Some cp =>
                              if ((55296 <=? cp) && (cp <=? 56319))%N then
                                match r2 with
                                | e1 :: e2 :: l1 :: l2 :: l3 :: l4 :: r3 =>
                                    match hex4 l1 l2 l3 l4 with
                                    | Some lo =>
                                        if ((code e1 =? 92) && (code e2 =? 117)
                                            && (56320 <=? lo) && (lo <=? 57343))%N
                                        then
                                          prepend
                                            (utf8_encode
                                               (65536 + (cp - 55296) * 1024 + (lo - 56320))%N)
                                            (unescape 0 r3)
                                        else prepend replacement (unescape 0 r2)
                                    | None => prepend replacement (unescape 0 r2)
                                    end
                                | _ => prepend replacement (unescape 0 r2)
                                end
                              else if ((56320 <=? cp) && (cp <=? 57343))%N then
                                prepend replacement (unescape 0 r2)
                              else prepend (utf8_encode cp) (unescape 0 r2)
                          end
                      | _ => None
                      end
                  | _ => None
                  end
              | [] => None
              end
          | n =>
              if (n <? 32)%N then None
              else if (n <? 128)%N then prepend [a] (unescape 0 r)
              else
                match utf8_width s with
                | Some w => prepend [a] (unescape (pred w) r)
                | None => prepend replacement (unescape 0 r)
                end
          end
      end
  end.

(** The longest beginning of [s] made of characters of a number. *)
Fixpoint span_number (s : list ascii) : list ascii * list ascii :=
  match s with
  | a :: r =>
      if number_char a then let '(t, rest) := span_number r in (a :: t, rest)
      else ([], s)
  | [] => ([], [])
  end.

(** Modelled from the spec: JSON-decoding.  One value is read from the
    beginning of [s], after white space; the result is the value and the
    rest of the text.  Of two members of an object with the same key the
    later one stays. *)
Fixpoint parse_value (fuel : nat) (s : list ascii)
  : option (value num * list ascii) :=
  match fuel with
  | O => None
  | S fuel =>
      match skip_ws s with
      | [] => None
      | a :: r =>
          match code a with
          | 34%N =>
              match unescape 0 r with
              | Some (str, rest) => Some (JString (string_of_list_ascii str), rest)
              | None => None
              end
          | 91%N =>
              match skip_ws r with
              | b :: r' =>
                  if (code b =? 93)%N then Some (JArray [], r')
                  else parse_elements fuel r []
              | [] => None
              end
          | 123%N =>
              match skip_ws r with
              | b :: r' =>
                  if (code b =? 125)%N then Some (JObject ∅, r')
                  else parse_members fuel r []
              | [] => None
              end
          | 110%N =>
              match strip (txt "null") (a :: r) with
              | Some rest => Some (JNull, rest)
              | None => None
              end
          | 116%N =>
              match strip (txt "true") (a :: r) with
              | Some rest => Some (JBool true, rest)
              | None => None
              end
          | 102%N =>
              match strip (txt "false") (a :: r) with
              | Some rest => Some (JBool false, rest)
              | None => None
              end
          | _ =>
              let '(t, rest) := span_number (a :: r) in
              if number_text t then
                match read_number (string_of_list_ascii t) with
                | Some n => Some (JNumber n, rest)
                | None => None
                end
              else None
          end
      end
  end
with parse_elements (fuel : nat) (s : list ascii) (acc : list (value num))
  : option (value num * list ascii) :=
  match fuel with
  | O => None
  | S fuel =>
      match parse_value fuel s with
      | Some (v, r) =>
          match skip_ws r with
          | b :: r' =>
              if (code b =? 44)%N then parse_elements fuel r' (v :: acc)
              else if (code b =? 93)%N then Some (JArray (reverse (v :: acc)), r')
              else None
          | [] => None
          end
      | None => None
      end
  end
with parse_members (fuel : nat) (s : list ascii) (acc : list (string * value num))
  : option (value num * list ascii) :=
  match fuel with
  | O => None
  | S fuel =>
      match skip_ws s with
      | q :: r =>
          if (code q =? 34)%N then
            match unescape 0 r with
            | Some (k, r1) =>
                match skip_ws r1 with
                | c :: r2 =>
                    if (code c =? 58)%N then
                      match parse_value fuel r2 with
                      | Some (v, r3) =>
                          let acc' := (string_of_list_ascii k, v) :: acc in
                          match skip_ws r3 with
                          | b :: r4 =>
                              if (code b =? 44)%N then parse_members fuel r4 acc'
                              else if (code b =? 125)%N
                              then Some (JObject (list_to_map acc'), r4)
                              else None
                          | [] => None
                          end
                      | None => None
                      end
                    else None
                | [] => None
                end
            | None => None
            end
          else None
      | [] => None
      end
  end.

(** Modelled from the spec: what a decoded value gives for the fields of
    a [MessageRecord], taken by the names of their [json] tags: a missing
    member or [null] leaves the zero value of the field. *)
Definition to_date (v : option (value num)) : option string :=
  match v with
  | None | Some JNull => Some EmptyString
  | Some (JString s) => Some s
  | Some _ => None
  end.

Definition to_payload (v : option (value num)) : option (GoMap (value num)) :=
  match v with
  | None | Some JNull => Some NilMap
  | Some (JObject m) => Some (Map m)
  | Some _ => None
  end.

Definition to_record (v : value num) : option (JsonStore.MessageRecord (value num)) :=
  match v with
  | JNull => Some {| JsonStore.Date := EmptyString; JsonStore.Payload := NilMap |}
  | JObject m =>
      match to_date (m !! "date"), to_payload (m !! "payload") with
      | Some d, Some p => Some {| JsonStore.Date := d; JsonStore.Payload := p |}
      | _, _ => None
      end
  | _ => None
  end.

Fixpoint to_records (l : list (value num))
  : option (list (JsonStore.MessageRecord (value num))) :=
  match l with
  | [] => Some []
  | v :: l' =>
      match to_record v, to_records l' with
      | Some r, Some rs => Some (r :: rs)
      | _, _ => None
      end
  end.

(** Modelled from the spec: JSON-decoding the output file into a
    sequence of records: the whole text is one array of objects. *)
Definition decode (text : string) : option (list (JsonStore.MessageRecord (value num))) :=
  match parse_value (S (String.length text)) (txt text) with
  | Some (v, rest) =>
      match skip_ws rest, v with
      | [], JArray l => to_records l
      | [], JNull => Some []
      | _, _ => None
      end
  | None => None
  end.
End WithNumbers.
End Json.

(** ** Sample values, for running the definitions *)

Module Sample.
Import Go OS MQTT.

(** Decoded JSON scalars; a number is shown here only when integral. *)
Inductive value := VNil | VBool (b : bool) | VNum (z : Z) | VStr (s : string).

Definition show_Z (z : Z) : string :=
  DecimalString.NilZero.string_of_int (Z.to_int z).

Definition show_value (v : value) : string :=
  match v with
  | VNil => "<nil>"
  | VBool true => "true"
  | VBool false => "false"
  | VNum z => show_Z z
  | VStr s => s
  end.

Definition key_le (a b : string * value) : Prop := String.le a.1 b.1.

#[export] Instance key_le_dec : RelDecision key_le.
Proof. intros a b. unfold key_le. apply _. Defined.

(** The entries of a map, in key order. *)
Definition entries (m : GoMap value) : list (string * value) :=
  match m with
  | NilMap => []
  | Map g => merge_sort key_le (map_to_list g)
  end.

#[export] Instance value_dyn : Dyn value := {|
  Sprint_v := show_value;
  Sprint_plus_v m :=
    "map[" +:+ String.concat " " ((fun kv => kv.1 +:+ ":" +:+ show_value kv.2) <$> entries m)
      +:+ "]"
|}.

Definition sensor : GoMap value :=
  Map (<["name" := VStr "LYSD03MMC"]> (<["rssi" := VNum (-65)]> (<["id" := VStr "A4:C1:38"]> ∅))).

Definition no_rssi : GoMap value := Map (<["name" := VStr "LYSD03MMC"]> ∅).

(** A JSON string literal without escapes. *)
Definition quoted (s : string) : string :=
  String (ascii_of_nat 34) (s +:+ String (ascii_of_nat 34) EmptyString).

Definition sensor_body : string :=
  "{" +:+ quoted "name" +:+ ":" +:+ quoted "LYSD03MMC" +:+ ","
      +:+ quoted "rssi" +:+ ":-65,"
      +:+ quoted "id" +:+ ":" +:+ quoted "A4:C1:38" +:+ "}".

(** A decoder for three fixed bodies; every other body is rejected. *)
#[export] Instance sample_decoder : Decoder value := {|
  Unmarshal body :=
    if String.eqb body sensor_body then inl sensor
    else if String.eqb body "null" then inl NilMap
    else if String.eqb body "{}" then inl make_map
    else inr (Cause "invalid character")
|}.

Definition T0 : string := "2024-01-15T10:30:45Z".
Definition T1 : string := "2024-01-15T10:31:15Z".

(** A clock that shows [T0] at its first reading and [T1] afterwards. *)
Definition clock01 (n : nat) : string :=
  match n with O => T0 | _ => T1 end.

(** An environment in which no system call fails. *)
Definition calm : Env := {| clock := clock01; fault := fun _ => None |}.

(** An environment whose [k]-th system call fails with [f]. *)
Definition failing (k : nat) (f : Fault) : Env :=
  {| clock := clock01;
     fault := fun n => if Nat.eqb n k then Some f else None |}.

Definition boot (e : Env) : World :=
  {| env := e; files := ∅; fds := ∅; ticks := 0; calls := 0; stderr := [] |}.
(** *** A sample encoder: two-space indentation, keys in order *)

Definition spaces (n : nat) : string := String.concat "" (replicate n " ").

Definition json_value (v : value) : string :=
  match v with
  | VNil => "null"
  | VBool true => "true"
  | VBool false => "false"
  | VNum z => show_Z z
  | VStr s => quoted s
  end.

Definition json_payload (m : GoMap value) : string :=
  match m with
  | NilMap => "null"
  | Map _ =>
      match entries m with
      | [] => "{}"
      | es =>
          "{" +:+ LF
          +:+ String.concat ("," +:+ LF)
                ((fun kv => spaces 6 +:+ quoted kv.1 +:+ ": " +:+ json_value kv.2) <$> es)
          +:+ LF +:+ spaces 4 +:+ "}"
      end
  end.

Definition json_record (r : JsonStore.MessageRecord value) : string :=
  spaces 2 +:+ "{" +:+ LF
  +:+ spaces 4 +:+ quoted "date" +:+ ": " +:+ quoted (JsonStore.Date r) +:+ "," +:+ LF
  +:+ spaces 4 +:+ quoted "payload" +:+ ": " +:+ json_payload (JsonStore.Payload r) +:+ LF
  +:+ spaces 2 +:+ "}".

#[export] Instance sample_encoder : JsonStore.Encoder value := {|
  JsonStore.Marshal_indent rs :=
    inl (match rs with
         | [] => "[]" +:+ LF
         | _ => "[" +:+ LF +:+ String.concat ("," +:+ LF) (json_record <$> rs)
                  +:+ LF +:+ "]" +:+ LF
         end)
|}.

(** *** Sample processes *)

(** A Line Sink on [out.log], in a calm environment. *)
Definition writer0 : Proc LineSink.FileWriter :=
  {| self := LineSink.NewFileWriter "out.log"; world := boot calm |}.

(** A JSON Store on [out.json], in a calm environment. *)
Definition store0 : Proc (JsonStore.MessageStore value) :=
  {| self := JsonStore.NewMessageStore "out.json"; world := boot calm |}.

(** The same store when the disk is full: the first system call fails. *)
Definition store_full : Proc (JsonStore.MessageStore value) :=
  {| self := JsonStore.NewMessageStore "out.json";
     world := boot (failing 0 {| cause := "no space left on device"; written := 0 |}) |}.

(** The state two calls leave when the second payload is written first. *)
Definition writer_final : Proc LineSink.FileWriter :=
  match one_by_one LineSink.WriteMessage [no_rssi; sensor] writer0 with
  | Returns _ s => s
  | _ => writer0
  end.

Definition store_final : Proc (JsonStore.MessageStore value) :=
  match one_by_one JsonStore.AddMessage [no_rssi; sensor] store0 with
  | Returns _ s => s
  | _ => store0
  end.

(** *** A sample configuration *)

Definition config_text : string := "mqtt: {broker: localhost, topics: [sensors/#]}".

Definition config_settings : gmap string Viper.setting :=
  <["mqtt.broker" := Viper.VString "localhost"]>
    (<["mqtt.topics" := Viper.VList [Viper.VString "sensors/#"]]> ∅).

(** A reader that knows one file, and a decoder with no conversions. *)
#[export] Instance sample_codec : Viper.Codec := {|
  Viper.parse_config ty text :=
    if String.eqb ty "yaml" && String.eqb text config_text then inl config_settings
    else inr (Cause "yaml: unmarshal errors");
  Viper.weak_string _ := inr (Cause "expected type string");
  Viper.weak_int _ := inr (Cause "expected type int");
  Viper.weak_strings _ := inr (Cause "expected type []string")
|}.

(** A process about to load [config.yaml]. *)
Definition loader0 : Proc Viper.State :=
  {| self := Viper.initial;
     world := {| env := calm; files := <["config.yaml" := config_text]> ∅;
                 fds := ∅; ticks := 0; calls := 0; stderr := [] |} |}.

(** What [config.yaml] decodes to, given the default output file. *)
Definition config_with (output : string) : Settings.Config :=
  {| Settings.MQTT :=
       {| Settings.Broker := "localhost"; Settings.Port := 1883;
          Settings.Username := ""; Settings.Password := "";
          Settings.Topics := ["sensors/#"] |};
     Settings.OutputFile := output |}.
(** *** Sample processes running [main] *)

(** The Unix time of the two readings of the sample clock. *)
#[export] Instance sample_calendar : Main.Calendar := {|
  Main.unix date := if String.eqb date T0 then 1705314645%Z else 1705314675%Z
|}.

(** Options that start empty, with the retry settings off. *)
#[export] Instance sample_library {H : Type} : Paho.Library H := {|
  Paho.NewClientOptions :=
    {| Paho.Servers := []; Paho.ClientID := "";
       Paho.Username := ""; Paho.Password := "";
       Paho.AutoReconnect := false; Paho.ConnectRetry := false;
       Paho.ConnectRetryInterval := 0%Z;
       Paho.DefaultPublishHandler := None |}
|}.

(** A process about to run [main] in the environment [e], with the files
    [fs] on disk, which is sent the signals [sigs]. *)
Definition process {Sink : Type} (e : Env) (fs : gmap string string)
    (sigs : list Main.Signal) : Proc (Main.Process Sink) :=
  {| self := {| Main.viper := Viper.initial; Main.sink := None;
                Main.client := None; Main.signals := sigs |};
     world := {| env := e; files := fs; fds := ∅; ticks := 0; calls := 0;
                 stderr := [] |} |}.

(** The disk with the sample configuration file. *)
Definition configured : gmap string string := <["config.yaml" := config_text]> ∅.


(** A world whose output file is left from an earlier run. *)
Definition stale : World :=
  {| env := calm; files := <["out.json" := "[]"]> ∅; fds := ∅; ticks := 0;
     calls := 0; stderr := [] |}.

(** Two messages: the sample sensor message, and a body that is not JSON. *)
Definition inbox : list Message :=
  [ {| Topic := "sensors/a"; Payload := sensor_body |};
    {| Topic := "sensors/b"; Payload := "{" |} ].

(** A configuration file that sets every key, its settings and its
    reader. *)
Definition full_text : string :=
  "mqtt: {broker: broker.example.org, port: 8883, username: tracer, password: secret, topics: [sensors/#, home/+/rssi]}, output_file: trace.out".

Definition full_settings : gmap string Viper.setting :=
  <["mqtt.broker" := Viper.VString "broker.example.org"]>
    (<["mqtt.port" := Viper.VInt 8883]>
       (<["mqtt.username" := Viper.VString "tracer"]>
          (<["mqtt.password" := Viper.VString "secret"]>
             (<["mqtt.topics" :=
                  Viper.VList [Viper.VString "sensors/#"; Viper.VString "home/+/rssi"]]>
                (<["output_file" := Viper.VString "trace.out"]> ∅))))).

Definition full_codec : Viper.Codec := {|
  Viper.parse_config ty text :=
    if String.eqb ty "yaml" && String.eqb text full_text then inl full_settings
    else inr (Cause "yaml: unmarshal errors");
  Viper.weak_string _ := inr (Cause "expected type string");
  Viper.weak_int _ := inr (Cause "expected type int");
  Viper.weak_strings _ := inr (Cause "expected type []string")
|}.

(** A process about to load [full.yaml]. *)
Definition full_loader : Proc Viper.State :=
  {| self := Viper.initial;
     world := {| env := calm; files := <["full.yaml" := full_text]> ∅;
                 fds := ∅; ticks := 0; calls := 0; stderr := [] |} |}.

(** The viper instance and the world once the sample configuration file
    is loaded. *)
Definition after_load (default_output : string) (e : Env) : Proc Viper.State :=
  {| self :=
       {| Viper.configFile := "config.yaml";
          Viper.configType := "yaml";
          Viper.defaults :=
            <["output_file" := Viper.VString default_output]>
              (<["mqtt.port" := Viper.VInt 1883]> ∅);
          Viper.config := config_settings |};
     world := {| env := e; files := configured; fds := ∅; ticks := 0; calls := 1;
                 stderr := [] |} |}.

(** *** Sample JSON payloads *)

(** Numbers as decimal integers. *)
#[export] Instance decimal : Json.Number Z := {|
  Json.show_number := show_Z;
  Json.read_number s := Z.of_int <$> DecimalString.NilZero.int_of_string s
|}.

(** A payload with a text, a number and a key that the store drops. *)
Definition reading : GoMap (Json.value Z) :=
  Map (<["name" := Json.JString "LYSD03MMC <kitchen>"]>
         (<["rssi" := Json.JNumber (-65)%Z]>
            (<["id" := Json.JString "A4:C1:38"]> ∅))).

(** A payload whose name is a nested mapping. *)
Definition nested : GoMap (Json.value Z) :=
  Map (<["name" :=
           Json.JObject
             (<["model" := Json.JString "LYSD03MMC"]>
                (<["tags" := Json.JArray [Json.JString "a&b"; Json.JBool true; Json.JNull]]>
                   ∅))]> ∅).

(** A JSON Store on [out.json] for such payloads, in a calm environment. *)
Definition json_store0 : Proc (JsonStore.MessageStore (Json.value Z)) :=
  {| self := JsonStore.NewMessageStore "out.json"; world := boot calm |}.
End Sample.


(** * Vocabulary of the properties *)

Import Go Sync OS MQTT.

Section LineSinkWords.
Context {any : Type} `{Dyn any}.
Import LineSink.

(** The text [WriteMessage] assembles from a clock reading and a payload. *)
Definition line_of (date : string) (payload : GoMap any) : string :=
  let line := date in
  let line :=
    match index payload "name" with
    | Some name => line +:+ ("|name=" +:+ Sprint_v name)
    | None => line
    end in
  let line :=
    match index payload "rssi" with
    | Some rssi => line +:+ ("|rssi=" +:+ Sprint_v rssi)
    | None => line
    end in
  line +:+ LF.

(** The clock reading a call starting in [w] obtains. *)
Definition now (w : World) : string := clock (env w) (ticks w).

(** The outcome of the system call issued [k] calls after the present one. *)
Definition answer_at (k : nat) (w : World) : option Fault :=
  fault (env w) (k + calls w).

(** How many bytes of [s] a write with outcome [r] puts in the file. *)
Definition reached (r : option Fault) (s : string) : nat :=
  match r with
  | None => String.length s
  | Some f => Nat.min (written f) (String.length s)
  end.

(** The world a call of [WriteMessage] leaves when the open succeeds. *)
Definition after_write (payload : GoMap any) (p : Proc FileWriter) : World :=
  let w := world p in
  let path := filePath (self p) in
  let line := line_of (now w) payload in
  {| env := env w;
     files := <[path := content w path +:+ str_take (reached (answer_at 1 w) line) line]> (files w);
     fds := fds w;
     ticks := S (ticks w);
     calls := 3 + calls w;
     stderr := stderr w |}.

(** The lines [payloads] give when the first call takes the clock reading
    number [t]. *)
Fixpoint lines_from (clk : nat -> string) (t : nat) (payloads : list (GoMap any))
  : string :=
  match payloads with
  | [] => ""
  | payload :: rest => line_of (clk t) payload +:+ lines_from clk (S t) rest
  end.

(** The lock of the [FileWriter] is free, is held. *)
Definition fw_free (p : Proc FileWriter) : bool := negb (mu (self p)).
Definition fw_owned (p : Proc FileWriter) : bool := mu (self p).
End LineSinkWords.

Section JsonStoreWords.
Context {any : Type} `{JsonStore.Encoder any}.
Import JsonStore.

(** The map [AddMessage] builds from a payload. *)
Definition filtered (payload : GoMap any) : gmap string any :=
  let g := ∅ in
  let g :=
    match index payload "rssi" with
    | Some rssi => <["rssi" := rssi]> g
    | None => g
    end in
  match index payload "name" with
  | Some name => <["name" := name]> g
  | None => g
  end.

(** The restriction of a payload to the keys [name] and [rssi], as the
    specification words it. *)
Definition restriction (payload : GoMap any) : gmap string any :=
  filter (fun kv => kv.1 = "name" \/ kv.1 = "rssi")
    (match payload with NilMap => ∅ | Map m => m end).

(** The record a call starting in [w] appends. *)
Definition record_of (w : World) (payload : GoMap any) : MessageRecord any :=
  {| Date := now w; Payload := Map (filtered payload) |}.

(** The store after a call: one more record, nothing else changed. *)
Definition store_after (payload : GoMap any) (p : Proc (MessageStore any))
  : MessageStore any :=
  {| mu := mu (self p);
     messages := messages (self p) ++ [record_of (world p) payload];
     filePath := filePath (self p) |}.

(** The result of [saveToFile] on the records [rs], by the outcome of the
    create, of the encoding and of the write. *)
Definition save_result (rs : list (MessageRecord any)) (w : World) : option error :=
  match answer w with
  | Some f => Some (Errorf_w "failed to create output file" (Cause (cause f)))
  | None =>
      match Marshal_indent rs with
      | inr err => Some (Errorf_w "failed to encode JSON" err)
      | inl _ =>
          match answer_at 1 w with
          | Some f => Some (Errorf_w "failed to encode JSON" (Cause (cause f)))
          | None => None
          end
      end
  end.

(** The files [saveToFile] leaves. *)
Definition save_files (path : string) (rs : list (MessageRecord any)) (w : World)
  : gmap string string :=
  match answer w with
  | Some _ => files w
  | None =>
      match Marshal_indent rs with
      | inr _ => <[path := ""]> (files w)
      | inl text =>
          <[path := str_take (reached (answer_at 1 w) text) text]> (files w)
      end
  end.

(** The number of system calls [saveToFile] issues. *)
Definition save_calls (rs : list (MessageRecord any)) (w : World) : nat :=
  match answer w with
  | Some _ => 1
  | None =>
      match Marshal_indent rs with
      | inr _ => 2
      | inl _ => 3
      end
  end.

(** The world after a call of [AddMessage]. *)
Definition world_after (payload : GoMap any) (p : Proc (MessageStore any)) : World :=
  let w := world p in
  let rs := messages (store_after payload p) in
  {| env := env w;
     files := save_files (filePath (self p)) rs w;
     fds := fds w;
     ticks := S (ticks w);
     calls := save_calls rs w + calls w;
     stderr := stderr w |}.

(** [M] calls of [AddMessage] in a row, with the result of each. *)
Definition AddMessages (payloads : list (GoMap any))
  : M (Proc (MessageStore any)) (list (option error)) :=
  one_by_one AddMessage payloads.

(** The records [payloads] give when the first call takes the clock
    reading number [t]. *)
Fixpoint records_from (clk : nat -> string) (t : nat) (payloads : list (GoMap any))
  : list (MessageRecord any) :=
  match payloads with
  | [] => []
  | payload :: rest =>
      {| Date := clk t; Payload := Map (restriction payload) |}
        :: records_from clk (S t) rest
  end.

(** The lock of the [MessageStore] is free, is held for writing. *)
Definition ms_free (p : Proc (MessageStore any)) : bool :=
  negb (writer (mu (self p))) && Nat.eqb (readers (mu (self p))) 0.
Definition ms_owned (p : Proc (MessageStore any)) : bool :=
  writer (mu (self p)) && Nat.eqb (readers (mu (self p))) 0.
End JsonStoreWords.

(** The world with one more line of log output. *)
Definition logged (l : LogLine) (w : World) : World :=
  {| env := env w; files := files w; fds := fds w; ticks := ticks w;
     calls := calls w; stderr := stderr w ++ [l] |}.

(** An action that returns and leaves the sink object alone. *)
Definition world_only {T X} (c : M (Proc T) X) : Prop :=
  forall p, exists x w', c p = Returns x {| self := self p; world := w' |}.

(** The viper instance once [loadConfig] has set its defaults and read
    [settings] from the file at [path]. *)
Definition loaded (default_output path : string)
    (settings : gmap string Viper.setting) (v : Viper.State) : Viper.State :=
  {| Viper.configFile := path;
     Viper.configType := "yaml";
     Viper.defaults :=
       <["output_file" := Viper.VString default_output]>
         (<["mqtt.port" := Viper.VInt 1883]> (Viper.defaults v));
     Viper.config := settings |}.

Section HandlerWords.
Context {any : Type} `{Decoder any}.

(** The payloads of the messages whose body decodes, in arrival order. *)
Definition decoded (msgs : list Message) : list (GoMap any) :=
  omap (fun m =>
          match Unmarshal (Payload m) with
          | inl payload => Some payload
          | inr _ => None
          end) msgs.

(** The log line a handler writes for a body that does not decode. *)
Definition unmarshal_line (msg : Message) (err : error) : LogLine :=
  {| format := "Error unmarshaling message from topic %s: %v";
     args := [Topic msg; Error err] |}.

(** The log line a handler writes once the sink has returned [r]. *)
Definition saved_line (received : LogLine) (r : option error) : LogLine :=
  match r with
  | Some e => {| format := "Error saving message: %v"; args := [Error e] |}
  | None => received
  end.

(** The result a call of [WriteMessage] starting in [w] returns. *)
Definition write_result (w : World) : option error :=
  match answer w with
  | Some f => Some (Errorf_w "failed to open output file" (Cause (cause f)))
  | None =>
      match answer_at 1 w with
      | Some f => Some (Errorf_w "failed to write to file" (Cause (cause f)))
      | None => None
      end
  end.

(** The log line of the Line Sink's handler when no system call fails. *)
Definition writer_log (msg : Message) : LogLine :=
  match Unmarshal (Payload msg) with
  | inr err => unmarshal_line msg err
  | inl _ => {| format := "Received message on topic %s"; args := [Topic msg] |}
  end.
End HandlerWords.

Section MainWords.
Import Main.
Context {Sink : Type} `{Calendar}.
Context `{Paho.Library (Message -> M (Proc Sink) unit)}.

(** The subscription [main] makes for one topic. *)
Definition subscription_of (h : Message -> M (Proc Sink) unit) (tp : string)
  : Paho.Subscription (Message -> M (Proc Sink) unit) :=
  {| Paho.topic := tp; Paho.qos := 0; Paho.callback := h |}.

Definition subscribed_line (tp : string) : LogLine :=
  {| format := "Subscribed to topic: %s"; args := [tp] |}.

(** The process as the viper library sees it. *)
Definition viper_view (p : Proc (Process Sink)) : Proc Viper.State :=
  {| self := viper (self p); world := world p |}.

(** The four lines [main] logs about a configuration. *)
Definition config_lines (path : string) (c : Settings.Config) : list LogLine :=
  [ {| format := "Loaded configuration from %s"; args := [path] |};
    {| format := "MQTT Broker: %s:%d";
       args := [Settings.Broker (Settings.MQTT c);
                Fmt.Sprint_d (Settings.Port (Settings.MQTT c))] |};
    {| format := "Output file: %s"; args := [Settings.OutputFile c] |};
    {| format := "Subscribing to %d topics";
       args := [Fmt.Sprint_d (Z.of_nat (length (Settings.Topics (Settings.MQTT c))))] |} ].

(** The configuration file [main] loads. *)
Definition config_path (args : list string) : string :=
  match args with
  | _ :: path :: _ => path
  | _ => "config.yaml"
  end.

(** The options [main] builds from a configuration, with the clock
    reading [date] for the client identifier and [h] as handler. *)
Definition built_options (h : Message -> M (Proc Sink) unit)
    (c : Settings.Config) (date : string)
  : Paho.ClientOptions (Message -> M (Proc Sink) unit) :=
  {| Paho.Servers :=
       Paho.Servers Paho.NewClientOptions
         ++ ["tcp://" +:+ Settings.Broker (Settings.MQTT c) +:+ ":"
               +:+ Fmt.Sprint_d (Settings.Port (Settings.MQTT c))];
     Paho.ClientID := "mqtt-trace-" +:+ Fmt.Sprint_d (unix date);
     Paho.Username := Settings.Username (Settings.MQTT c);
     Paho.Password := Settings.Password (Settings.MQTT c);
     Paho.AutoReconnect := true;
     Paho.ConnectRetry := true;
     Paho.ConnectRetryInterval := 5000000000;
     Paho.DefaultPublishHandler := Some h |}.

(** The client once [main] has made the subscriptions to [topics]. *)
Definition client_with (h : Message -> M (Proc Sink) unit)
    (c : Settings.Config) (date : string) (up : bool) (topics : list string)
  : Paho.Client (Message -> M (Proc Sink) unit) :=
  {| Paho.options := built_options h c date;
     Paho.connected := up;
     Paho.subscriptions := subscription_of h <$> topics |}.
End MainWords.

(** ** Reading the JSON text back *)

Section JsonVocabulary.
Import Json.
Context {num : Type} `{Number num}.

(** What may follow a value in a text: not a character of a number. *)
Definition delimited (rest : list ascii) : Prop :=
  match rest with
  | [] => True
  | a :: _ => number_char a = false
  end.

(** A text that begins with a character that is neither white space nor
    a closing bracket. *)
Definition starts (s : list ascii) : Prop :=
  match s with
  | a :: _ => is_ws a = false /\ (code a =? 93)%N = false /\ (code a =? 125)%N = false
  | [] => False
  end.

(** [v] is read back from its text, at any depth and before any rest. *)
Definition reads_back (v : value num) : Prop :=
  forall d fuel rest,
    length (enc_value d v) <= fuel ->
    delimited rest ->
    parse_value fuel (enc_value d v ++ rest) = Some (v, rest).

(** The text of one member of an object. *)
Definition item (d : nat) (kv : string * value num) : list ascii :=
  member (kv.1, enc_value d kv.2).

(** A record as a JSON value: an object with the two members of the
    struct. *)
Definition payload_value (p : GoMap (value num)) : value num :=
  match p with
  | NilMap => JNull
  | Map m => JObject m
  end.

Definition record_value (r : JsonStore.MessageRecord (value num)) : value num :=
  JObject (<["date" := JString (JsonStore.Date r)]>
             (<["payload" := payload_value (JsonStore.Payload r)]> ∅)).
End JsonVocabulary.

(** * Properties *)

(** ** The descriptor table *)

Lemma fresh_fd_unused (t : gmap nat Handle) : t !! fresh (dom t) = None.
Proof. apply not_elem_of_dom. apply is_fresh. Qed.

Lemma close_after_open (t : gmap nat Handle) (o o' : Handle) :
  delete (fresh (dom t)) (<[fresh (dom t) := o']> (<[fresh (dom t) := o]> t)) = t.
Proof.
  rewrite delete_insert_eq, delete_insert_eq.
  apply delete_id, fresh_fd_unused.
Qed.

(** ** Strings *)

Lemma append_cons (c : ascii) (s t : string) :
  String c s +:+ t = String c (s +:+ t).
Proof. reflexivity. Qed.

Lemma str_take_all (s : string) : str_take (String.length s) s = s.
Proof. induction s as [|c s IH]; simpl; congruence. Qed.

Lemma str_drop_empty (n : nat) : str_drop n "" = "".
Proof. destruct n; reflexivity. Qed.

Lemma append_empty_r (s : string) : s +:+ "" = s.
Proof. induction s as [|c s IH]; [reflexivity|]. rewrite append_cons. congruence. Qed.

Lemma append_assoc (a b c : string) : (a +:+ b) +:+ c = a +:+ (b +:+ c).
Proof.
  induction a as [|x a IH]; [reflexivity|].
  rewrite !append_cons. congruence.
Qed.

(** ** The Line Sink *)

Section LineSinkFacts.
Context {any : Type} `{Dyn any} `{Decoder any}.
Import LineSink.

(** [WriteMessage] with the assembled line named. *)
Lemma WriteMessage_unfold (payload : GoMap any) :
  WriteMessage payload =
    (Lock fw_mu set_fw_mu ;;;
     defer (Unlock fw_mu set_fw_mu)
       (path <- gets (fun p => filePath (self p)) ;;
        r <- OpenFile path O_APPEND_CREATE_WRONLY ;;
        match r with
        | inr err => ret (Some (Errorf_w "failed to open output file" err))
        | inl file =>
            defer (Close file ;;; ret tt)
              (date <- Now_RFC3339 ;;
               w <- WriteString file (line_of date payload) ;;
               match w with
               | Some err => ret (Some (Errorf_w "failed to write to file" err))
               | None => ret None
               end)
        end))%go.
Proof. reflexivity. Qed.

(** [WriteMessage], evaluated: the result and the state it leaves, by the
    outcome of the open and of the write. *)
Lemma WriteMessage_eval (payload : GoMap any) (p : Proc FileWriter) :
  mu (self p) = false ->
  WriteMessage payload p =
    match answer (world p) with
    | Some f =>
        Returns (Some (Errorf_w "failed to open output file" (Cause (cause f))))
          {| self := self p; world := issued (world p) |}
    | None =>
        Returns
          (match answer_at 1 (world p) with
           | Some f => Some (Errorf_w "failed to write to file" (Cause (cause f)))
           | None => None
           end)
          {| self := self p; world := after_write payload p |}
    end.
Proof.
  intros Hmu. destruct p as [[m path] w]. simpl in Hmu. subst m.
  rewrite WriteMessage_unfold.
  unfold bind, defer, Lock, Unlock, gets, ret, fw_mu, set_fw_mu. simpl.
  unfold OpenFile, answer_at, answer. simpl.
  destruct (fault (env w) (calls w)) as [f|] eqn:Hopen; simpl; [reflexivity|].
  unfold WriteString, Close, bind, ret, answer. simpl.
  rewrite (lookup_insert_eq (fds w)). simpl.
  unfold after_write, now, content, answer_at, reached, set_world, with_fds,
    with_files, issued. simpl.
  rewrite (lookup_insert_eq (files w)), (insert_insert_eq (files w)). simpl.
  destruct (fault (env w) (S (calls w))) as [f|] eqn:Hwrite; simpl;
    rewrite (lookup_insert_eq (<[_ := _]> (fds w))); simpl;
    rewrite close_after_open; reflexivity.
Qed.

(** C1. When the file opens, [WriteMessage] assembles one line: the clock
    reading, then [|name=<name>] exactly when the payload has the key
    [name], then [|rssi=<rssi>] exactly when it has the key [rssi], then a
    single newline, and hands that line to the file: the file gains the
    whole line when the write succeeds and its first bytes otherwise.  A
    payload with neither key gives the clock reading and the newline. *)
Theorem WriteMessage_line_format (payload : GoMap any) (p : Proc FileWriter) :
  mu (self p) = false ->
  answer (world p) = None ->
  exists (line : string) (r : option error) (p' : Proc FileWriter),
    WriteMessage payload p = Returns r p' /\
    match index payload "name", index payload "rssi" with
    | Some name, Some rssi =>
        line = now (world p) +:+ "|name=" +:+ Sprint_v name
                 +:+ "|rssi=" +:+ Sprint_v rssi +:+ LF
    | Some name, None =>
        line = now (world p) +:+ "|name=" +:+ Sprint_v name +:+ LF
    | None, Some rssi =>
        line = now (world p) +:+ "|rssi=" +:+ Sprint_v rssi +:+ LF
    | None, None => line = now (world p) +:+ LF
    end /\
    files (world p') !! filePath (self p) =
      Some (content (world p) (filePath (self p))
              +:+ str_take (reached (answer_at 1 (world p)) line) line) /\
    (answer_at 1 (world p) = None ->
       r = None /\
       files (world p') !! filePath (self p) =
         Some (content (world p) (filePath (self p)) +:+ line)).
Proof.
  intros Hmu Hopen.
  exists (line_of (now (world p)) payload).
  rewrite (WriteMessage_eval payload p Hmu), Hopen.
  eexists _, _. split; [reflexivity|]. split; [|split].
  - unfold line_of.
    destruct (index payload "name"), (index payload "rssi");
      rewrite ?append_assoc; reflexivity.
  - simpl. apply lookup_insert_eq.
  - intros Hwrite. rewrite Hwrite. split; [reflexivity|].
    simpl. rewrite Hwrite. simpl. rewrite str_take_all. apply lookup_insert_eq.
Qed.

(** C9. A call of [WriteMessage] leaves the [FileWriter] as it found it
    (same path, lock released), leaves no descriptor open and writes no
    log; on disk it touches the output file only, which gains the
    assembled line when the call succeeds, and in every case at most an
    initial part of it. *)
Theorem WriteMessage_keeps_nothing (payload : GoMap any) (p : Proc FileWriter) :
  mu (self p) = false ->
  exists (r : option error) (p' : Proc FileWriter),
    WriteMessage payload p = Returns r p' /\
    self p' = self p /\
    fds (world p') = fds (world p) /\
    stderr (world p') = stderr (world p) /\
    (forall path, path <> filePath (self p) ->
       files (world p') !! path = files (world p) !! path) /\
    (r = None ->
       files (world p') =
         <[filePath (self p) :=
             content (world p) (filePath (self p))
               +:+ line_of (now (world p)) payload]> (files (world p))) /\
    (files (world p') = files (world p) \/
     exists part,
       str_prefix part (line_of (now (world p)) payload) /\
       files (world p') =
         <[filePath (self p) :=
             content (world p) (filePath (self p)) +:+ part]> (files (world p))).
Proof.
  intros Hmu. rewrite (WriteMessage_eval payload p Hmu).
  destruct (answer (world p)) as [f|] eqn:Hopen.
  - eexists _, _. split; [reflexivity|]. simpl.
    repeat split; try reflexivity; [discriminate | now left].
  - eexists _, _. split; [reflexivity|]. simpl.
    split; [reflexivity|]. split; [reflexivity|]. split; [reflexivity|].
    split; [|split].
    + intros path Hne. now apply lookup_insert_ne.
    + destruct (answer_at 1 (world p)) eqn:Hwrite; [discriminate|].
      intros _. simpl. now rewrite str_take_all.
    + right. eexists. split; [|reflexivity]. now eexists.
Qed.
End LineSinkFacts.

(** ** The JSON Store Sink *)

Section JsonStoreFacts.
Context {any : Type} `{Decoder any} `{JsonStore.Encoder any}.
Import JsonStore.

Lemma AddMessage_unfold (payload : GoMap any) :
  AddMessage payload =
    (RWLock ms_mu set_ms_mu ;;;
     defer (RWUnlock ms_mu set_ms_mu)
       (date <- Now_RFC3339 ;;
        append_record {| Date := date; Payload := Map (filtered payload) |} ;;;
        saveToFile))%go.
Proof.
  unfold AddMessage, filtered, assign, make_map.
  destruct (index payload "rssi"), (index payload "name"); reflexivity.
Qed.

(** [AddMessage], evaluated. *)
Lemma AddMessage_eval (payload : GoMap any) (p : Proc (MessageStore any)) :
  mu (self p) = rw_unlocked ->
  AddMessage payload p =
    Returns (save_result (messages (store_after payload p)) (world p))
      {| self := store_after payload p; world := world_after payload p |}.
Proof.
  intros Hmu. destruct p as [[m rs path] w]. simpl in Hmu. subst m.
  rewrite AddMessage_unfold.
  unfold bind, defer, RWLock, RWUnlock, gets, ret, ms_mu, set_ms_mu,
    append_record, saveToFile, modify, Now_RFC3339, Create. simpl.
  unfold world_after, store_after, record_of. simpl.
  unfold OpenFile, save_result, save_files, save_calls, now, answer_at,
    answer, bind, gets. simpl.
  destruct (fault (env w) (calls w)) as [f|] eqn:Hopen; simpl; [reflexivity|].
  unfold Encode, defer, bind, ret. simpl.
  destruct (Marshal_indent _) as [text|err] eqn:Henc; simpl.
  - unfold WriteString, Close, bind, ret, answer, content, set_world, with_fds,
      with_files, issued, reached. simpl.
    rewrite (lookup_insert_eq (fds w)). simpl.
    rewrite (lookup_insert_eq (files w)), (insert_insert_eq (files w)). simpl.
    rewrite str_drop_empty, append_empty_r.
    destruct (fault (env w) (S (calls w))) as [f|] eqn:Hwrite; simpl;
      rewrite (lookup_insert_eq (<[_ := _]> (fds w))); simpl;
      rewrite close_after_open; reflexivity.
  - unfold Close, bind, ret, answer, set_world, with_fds, with_files, issued. simpl.
    rewrite (lookup_insert_eq (fds w)). simpl.
    rewrite delete_insert_eq, (delete_id _ _ (fresh_fd_unused _)). reflexivity.
Qed.

Lemma filtered_name (payload : GoMap any) :
  filtered payload !! "name" = index payload "name".
Proof.
  unfold filtered.
  destruct (index payload "name") as [n|]; [apply lookup_insert_eq|].
  destruct (index payload "rssi"); [rewrite lookup_insert_ne by done|];
    apply lookup_empty.
Qed.

Lemma filtered_rssi (payload : GoMap any) :
  filtered payload !! "rssi" = index payload "rssi".
Proof.
  unfold filtered.
  destruct (index payload "name") as [n|]; [rewrite lookup_insert_ne by done|];
    (destruct (index payload "rssi"); [apply lookup_insert_eq | apply lookup_empty]).
Qed.

Lemma filtered_other (payload : GoMap any) (k : string) :
  k <> "name" -> k <> "rssi" -> filtered payload !! k = None.
Proof.
  intros Hn Hr. unfold filtered.
  destruct (index payload "name"), (index payload "rssi");
    rewrite ?lookup_insert_ne by done; apply lookup_empty.
Qed.

(** The map the code builds is the restriction of the payload. *)
Lemma filtered_restriction (payload : GoMap any) :
  filtered payload = restriction payload.
Proof.
  apply map_eq. intros k. unfold restriction.
  rewrite map_lookup_filter.
  destruct (decide (k = "name")) as [->|Hn].
  { rewrite filtered_name. destruct payload as [|m]; simpl.
    - now rewrite lookup_empty.
    - destruct (m !! "name"); simpl; [|reflexivity].
      reflexivity. }
  destruct (decide (k = "rssi")) as [->|Hr].
  { rewrite filtered_rssi. destruct payload as [|m]; simpl.
    - now rewrite lookup_empty.
    - destruct (m !! "rssi"); simpl; [|reflexivity].
      reflexivity. }
  rewrite filtered_other by assumption.
  destruct payload as [|m]; simpl.
  - now rewrite lookup_empty.
  - destruct (m !! k); simpl; [|reflexivity].
    case_guard as Hk; [|reflexivity]. simpl in Hk. destruct Hk; contradiction.
Qed.

(** C3. The record [AddMessage] appends holds an allocated map that has
    the key [name] exactly when the payload has it, with the same value,
    the key [rssi] exactly when the payload has it, with the same value,
    and no other key: it is the restriction of the payload to these two
    keys.  A payload with neither key still gives a record, whose map is
    empty. *)
Theorem AddMessage_filters (payload : GoMap any) (p : Proc (MessageStore any)) :
  mu (self p) = rw_unlocked ->
  exists (r : option error) (p' : Proc (MessageStore any)) (g : gmap string any),
    AddMessage payload p = Returns r p' /\
    messages (self p') =
      messages (self p) ++ [{| Date := now (world p); Payload := Map g |}] /\
    g !! "name" = index payload "name" /\
    g !! "rssi" = index payload "rssi" /\
    (forall k, k <> "name" -> k <> "rssi" -> g !! k = None) /\
    g = restriction payload /\
    (index payload "name" = None -> index payload "rssi" = None -> g = ∅).
Proof.
  intros Hmu. rewrite (AddMessage_eval payload p Hmu).
  eexists _, _, (filtered payload). split; [reflexivity|].
  split; [reflexivity|].
  split; [apply filtered_name|]. split; [apply filtered_rssi|].
  split; [apply filtered_other|]. split; [apply filtered_restriction|].
  intros Hn Hr. unfold filtered. now rewrite Hn, Hr.
Qed.

(** C5. A call of [AddMessage] that returns an error has appended its
    record all the same: the store it leaves is the store a successful
    call on the same store at the same clock reading leaves. *)
Theorem AddMessage_retains_on_failure
    (payload : GoMap any) (p p' : Proc (MessageStore any)) (err : error) :
  mu (self p) = rw_unlocked ->
  AddMessage payload p = Returns (Some err) p' ->
  messages (self p') =
    messages (self p) ++ [{| Date := now (world p); Payload := Map (restriction payload) |}] /\
  forall q q' : Proc (MessageStore any),
    self q = self p ->
    now (world q) = now (world p) ->
    AddMessage payload q = Returns None q' ->
    self p' = self q'.
Proof.
  intros Hmu Hrun. rewrite (AddMessage_eval payload p Hmu) in Hrun.
  injection Hrun as _ Hp'. subst p'. simpl. split.
  - unfold record_of. now rewrite filtered_restriction.
  - intros q q' Hself Hnow Hq.
    rewrite (AddMessage_eval payload q) in Hq by (now rewrite Hself).
    injection Hq as _ Hq'. subst q'. simpl.
    unfold store_after, record_of. now rewrite Hself, Hnow.
Qed.

Lemma AddMessages_eval (payloads : list (GoMap any)) :
  forall p : Proc (MessageStore any),
    mu (self p) = rw_unlocked ->
    exists rs p',
      AddMessages payloads p = Returns rs p' /\
      length rs = length payloads /\
      mu (self p') = rw_unlocked /\
      filePath (self p') = filePath (self p) /\
      env (world p') = env (world p) /\
      messages (self p') =
        messages (self p)
          ++ records_from (clock (env (world p))) (ticks (world p)) payloads /\
      (last rs = Some None ->
       exists text,
         Marshal_indent (messages (self p')) = inl text /\
         files (world p') !! filePath (self p) = Some text).
Proof.
  unfold AddMessages.
  induction payloads as [|payload rest IH]; intros p Hmu.
  - exists [], p. simpl. rewrite app_nil_r. repeat split; try assumption.
    discriminate.
  - simpl. unfold bind. rewrite (AddMessage_eval payload p Hmu).
    set (p1 := {| self := store_after payload p; world := world_after payload p |}).
    destruct (IH p1 Hmu) as (rs & p' & Hrun & Hlen & Hmu' & Hpath & Henv & Hmsgs & Hfile).
    rewrite Hrun. eexists _, p'. split; [reflexivity|].
    split; [simpl; now rewrite Hlen|]. split; [assumption|].
    split; [assumption|]. split; [assumption|]. split.
    + rewrite Hmsgs. simpl. unfold record_of, now.
      rewrite filtered_restriction, <- app_assoc. reflexivity.
    + destruct rs as [|r' rs'].
      * simpl. intros Hlast. injection Hlast as Hlast.
        destruct rest; [|discriminate].
        simpl in Hrun. injection Hrun as Hp'. subst p'. simpl.
        unfold save_result in Hlast. unfold save_files.
        destruct (answer (world p)); [discriminate|].
        destruct (Marshal_indent _) as [text|]; [|discriminate].
        destruct (answer_at 1 (world p)); [discriminate|].
        exists text. split; [reflexivity|].
        simpl. rewrite str_take_all. apply lookup_insert_eq.
      * rewrite last_cons_cons. exact Hfile.
Qed.

Lemma records_from_length (clk : nat -> string) (payloads : list (GoMap any)) :
  forall t, length (records_from clk t payloads) = length payloads.
Proof. induction payloads as [|x rest IH]; intros t; simpl; congruence. Qed.

Lemma records_from_lookup (clk : nat -> string) (payloads : list (GoMap any)) :
  forall t i payload,
    payloads !! i = Some payload ->
    records_from clk t payloads !! i =
      Some {| Date := clk (t + i); Payload := Map (restriction payload) |}.
Proof.
  induction payloads as [|x rest IH]; intros t i payload Hi; [discriminate|].
  destruct i as [|i]; simpl in *.
  - injection Hi as ->. now rewrite Nat.add_0_r.
  - rewrite (IH (S t) i payload Hi). now rewrite Nat.add_succ_r.
Qed.

(** When no system call fails and the records the store ends with can be
    encoded, the last of the calls returns no error. *)
Lemma AddMessages_saved (payloads : list (GoMap any)) :
  forall (p p' : Proc (MessageStore any)) (rs : list (option error)) (text : string),
    mu (self p) = rw_unlocked ->
    payloads <> [] ->
    (forall n, fault (env (world p)) n = None) ->
    AddMessages payloads p = Returns rs p' ->
    Marshal_indent (messages (self p')) = inl text ->
    last rs = Some None.
Proof.
  unfold AddMessages.
  induction payloads as [|payload rest IH]; intros p p' rs text Hmu Hne Hcalm Hrun Henc;
    [contradiction|].
  simpl in Hrun. unfold bind in Hrun. rewrite (AddMessage_eval payload p Hmu) in Hrun.
  set (p1 := {| self := store_after payload p; world := world_after payload p |}) in *.
  destruct rest as [|payload' rest'].
  - simpl in Hrun. injection Hrun as Hrs Hp'. subst rs p'. simpl in *.
    unfold save_result, answer, answer_at. rewrite !Hcalm.
    now rewrite Henc.
  - destruct (one_by_one AddMessage (payload' :: rest') p1) as [rs1 p1'| |] eqn:Hrest;
      try discriminate.
    injection Hrun as Hrs Hp'. subst rs p1'.
    assert (Hlast : last rs1 = Some None).
    { apply (IH p1 p' rs1 text Hmu); [discriminate| |exact Hrest|exact Henc].
      intros n. apply Hcalm. }
    destruct rs1 as [|r rs1]; [discriminate|].
    now rewrite last_cons_cons.
Qed.

(** With no failing system call, every call returns no error when the
    records it has to write can be encoded. *)
Lemma AddMessages_all_saved (payloads : list (GoMap any)) :
  forall (p p' : Proc (MessageStore any)) (rs : list (option error)),
    mu (self p) = rw_unlocked ->
    (forall n, fault (env (world p)) n = None) ->
    AddMessages payloads p = Returns rs p' ->
    (forall k, length (messages (self p)) < k ->
       exists text, Marshal_indent (take k (messages (self p'))) = inl text) ->
    Forall (eq None) rs.
Proof.
  induction payloads as [|payload rest IH]; intros p p' rs Hmu Hcalm Hrun Henc.
  - injection Hrun as <- _. constructor.
  - destruct (AddMessages_eval rest
                {| self := store_after payload p; world := world_after payload p |} Hmu)
      as (rs1 & p1' & Hrest & _ & _ & _ & _ & Hmsgs & _).
    unfold AddMessages in *. simpl in Hrun. unfold bind in Hrun.
    rewrite (AddMessage_eval payload p Hmu), Hrest in Hrun.
    injection Hrun as Hrs Hp'. subst rs p1'.
    constructor.
    + destruct (Henc (length (messages (store_after payload p)))) as [text Htext].
      { unfold store_after. simpl. rewrite length_app. simpl. lia. }
      rewrite Hmsgs in Htext. simpl in Htext. rewrite take_app_length in Htext.
      unfold save_result, answer, answer_at. rewrite !Hcalm.
      simpl. now rewrite Htext.
    + apply (IH {| self := store_after payload p; world := world_after payload p |}
               p' rs1 Hmu); [intros n; apply Hcalm|exact Hrest|].
      intros k Hk. apply Henc. simpl in Hk. rewrite length_app in Hk. lia.
Qed.

(** C2. After [M] calls of [AddMessage] in a row on a new store, the store
    holds exactly [M] records, in call order: the [i]-th holds the clock
    reading taken by the [i]-th call and the restriction of the [i]-th
    payload, whatever the operating system does.  When no system call
    fails and these [M] records can be encoded, the last call returns no
    error and the output file holds the encoding of exactly these
    records; when every beginning of them can be encoded, no call
    returns an error. *)
Theorem AddMessages_records
    (payloads : list (GoMap any)) (path : string) (w : World) :
  exists (rs : list (option error)) (p' : Proc (MessageStore any)),
    AddMessages payloads {| self := NewMessageStore path; world := w |}
      = Returns rs p' /\
    length rs = length payloads /\
    length (messages (self p')) = length payloads /\
    (forall i payload,
       payloads !! i = Some payload ->
       messages (self p') !! i =
         Some {| Date := clock (env w) (ticks w + i);
                 Payload := Map (restriction payload) |}) /\
    ((forall n, fault (env w) n = None) ->
     (forall text,
        payloads <> [] ->
        Marshal_indent (messages (self p')) = inl text ->
        last rs = Some None /\
        files (world p') !! path = Some text) /\
     ((forall k, exists text,
         Marshal_indent (take k (messages (self p'))) = inl text) ->
      Forall (eq None) rs)).
Proof.
  destruct (AddMessages_eval payloads {| self := NewMessageStore path; world := w |} eq_refl)
    as (rs & p' & Hrun & Hlen & _ & _ & _ & Hmsgs & Hfile).
  simpl in Hmsgs, Hfile.
  exists rs, p'. split; [assumption|]. split; [assumption|].
  rewrite Hmsgs. split; [apply records_from_length|].
  split; [apply records_from_lookup|].
  rewrite <- Hmsgs. intros Hcalm. split.
  - intros text Hne Henc.
    assert (Hlast : last rs = Some None).
    { now apply (AddMessages_saved payloads
                   {| self := NewMessageStore path; world := w |} p' rs text). }
    split; [exact Hlast|].
    destruct (Hfile Hlast) as (text' & Henc' & Hfiles).
    rewrite Henc in Henc'. now injection Henc' as <-.
  - intros Hall.
    apply (AddMessages_all_saved payloads
             {| self := NewMessageStore path; world := w |} p' rs eq_refl Hcalm Hrun).
    intros k _. apply Hall.
Qed.
End JsonStoreFacts.

(** ** Both sinks *)

Section BothSinks.
Context {any : Type} `{Dyn any} `{Decoder any} `{JsonStore.Encoder any}.

Lemma WriteMessage_returns (payload : GoMap any) (p : Proc LineSink.FileWriter) :
  LineSink.mu (self p) = false ->
  exists r p1,
    LineSink.WriteMessage payload p = Returns r p1 /\
    calls (world p) < calls (world p1).
Proof.
  intros Hp. rewrite (WriteMessage_eval payload p Hp).
  destruct (answer (world p)); eexists _, _; (split; [reflexivity|]); simpl; lia.
Qed.

Lemma AddMessage_returns (payload : GoMap any) (q : Proc (JsonStore.MessageStore any)) :
  JsonStore.mu (self q) = rw_unlocked ->
  exists r q1,
    JsonStore.AddMessage payload q = Returns r q1 /\
    JsonStore.messages (self q1) =
      JsonStore.messages (self q) ++ [record_of (world q) payload].
Proof.
  intros Hq. rewrite (AddMessage_eval payload q Hq).
  eexists _, _. split; reflexivity.
Qed.

(** C6. A sink call on a free lock returns; it neither panics nor blocks.
    The Line Sink returns the cause of a failed open wrapped in
    [failed to open output file], the cause of a failed write wrapped in
    [failed to write to file], and no error otherwise.  The JSON Store
    Sink returns the cause of a failed create wrapped in
    [failed to create output file], the cause of a failed encoding or of a
    failed write wrapped in [failed to encode JSON], and no error
    otherwise.  Every error returned unwraps to its cause. *)
Theorem sinks_propagate_errors
    (payload : GoMap any)
    (p : Proc LineSink.FileWriter) (q : Proc (JsonStore.MessageStore any)) :
  LineSink.mu (self p) = false ->
  JsonStore.mu (self q) = rw_unlocked ->
  (exists r p',
     LineSink.WriteMessage payload p = Returns r p' /\
     (forall f, answer (world p) = Some f ->
        r = Some (Errorf_w "failed to open output file" (Cause (cause f)))) /\
     (forall f, answer (world p) = None -> answer_at 1 (world p) = Some f ->
        r = Some (Errorf_w "failed to write to file" (Cause (cause f)))) /\
     (answer (world p) = None -> answer_at 1 (world p) = None -> r = None) /\
     (forall e, r = Some e -> is_Some (Unwrap e))) /\
  (exists r q',
     JsonStore.AddMessage payload q = Returns r q' /\
     (forall f, answer (world q) = Some f ->
        r = Some (Errorf_w "failed to create output file" (Cause (cause f)))) /\
     (forall e, answer (world q) = None ->
        JsonStore.Marshal_indent (JsonStore.messages (self q')) = inr e ->
        r = Some (Errorf_w "failed to encode JSON" e)) /\
     (forall text f, answer (world q) = None ->
        JsonStore.Marshal_indent (JsonStore.messages (self q')) = inl text ->
        answer_at 1 (world q) = Some f ->
        r = Some (Errorf_w "failed to encode JSON" (Cause (cause f)))) /\
     (forall text, answer (world q) = None ->
        JsonStore.Marshal_indent (JsonStore.messages (self q')) = inl text ->
        answer_at 1 (world q) = None -> r = None) /\
     (forall e, r = Some e -> is_Some (Unwrap e))).
Proof.
  intros Hp Hq. split.
  - rewrite (WriteMessage_eval payload p Hp).
    destruct (answer (world p)) as [f|] eqn:Hopen.
    + eexists _, _. split; [reflexivity|].
      repeat split; try congruence.
      intros e [= <-]. now eexists.
    + destruct (answer_at 1 (world p)) as [f|] eqn:Hwrite;
        (eexists _, _; split; [reflexivity|]);
        repeat split; try congruence.
      intros e [= <-]. now eexists.
  - rewrite (AddMessage_eval payload q Hq).
    eexists _, _. split; [reflexivity|]. simpl. unfold save_result.
    destruct (answer (world q)) as [f|] eqn:Hopen.
    { repeat split; try congruence. intros e [= <-]. now eexists. }
    destruct (JsonStore.Marshal_indent _) as [text|err] eqn:Henc.
    2: { repeat split; try congruence. intros e [= <-]. now eexists. }
    destruct (answer_at 1 (world q)) as [f|] eqn:Hwrite;
      repeat split; try congruence.
    intros e [= <-]. now eexists.
Qed.

(** C7. When the body of a message does not decode, the handler of either
    program only writes a log line: the sink object, the files, the open
    descriptors, the clock and the count of system calls are as before.
    When the body decodes, the handler runs the sink on the decoded
    payload, which issues a system call and, in the JSON Store, appends a
    record.  So the sink runs exactly when decoding succeeds. *)
Theorem decode_failure_skips_sink
    (msg : Message)
    (p : Proc LineSink.FileWriter) (q : Proc (JsonStore.MessageStore any)) :
  LineSink.mu (self p) = false ->
  JsonStore.mu (self q) = rw_unlocked ->
  exists p' q',
    LineSink.messageHandler msg p = Returns tt p' /\
    JsonStore.messageHandler msg q = Returns tt q' /\
    (forall err, Unmarshal (MQTT.Payload msg) = inr err ->
       let l := {| format := "Error unmarshaling message from topic %s: %v";
                   args := [Topic msg; Error err] |} in
       p' = {| self := self p; world := logged l (world p) |} /\
       q' = {| self := self q; world := logged l (world q) |}) /\
    (forall payload, Unmarshal (MQTT.Payload msg) = inl payload ->
       (exists r p1 l,
          LineSink.WriteMessage payload p = Returns r p1 /\
          p' = {| self := self p1; world := logged l (world p1) |}) /\
       (exists r q1 l,
          JsonStore.AddMessage payload q = Returns r q1 /\
          q' = {| self := self q1; world := logged l (world q1) |})) /\
    (calls (world p) < calls (world p') <->
       exists payload, Unmarshal (MQTT.Payload msg) = inl payload) /\
    (length (JsonStore.messages (self q')) = S (length (JsonStore.messages (self q))) <->
       exists payload, Unmarshal (MQTT.Payload msg) = inl payload) /\
    ((exists err, Unmarshal (MQTT.Payload msg) = inr err) ->
       files (world p') = files (world p) /\
       files (world q') = files (world q) /\
       JsonStore.messages (self q') = JsonStore.messages (self q)).
Proof.
  intros Hp Hq.
  unfold LineSink.messageHandler, JsonStore.messageHandler.
  destruct (Unmarshal (MQTT.Payload msg)) as [payload|err] eqn:Hdec.
  - destruct (WriteMessage_returns payload p Hp) as (r & p1 & Hw & Hcalls).
    destruct (AddMessage_returns payload q Hq) as (r' & q1 & Ha & Hmsgs).
    unfold bind. rewrite Hw, Ha.
    exists {| self := self p1;
              world := logged (match r with
                               | Some e => {| format := "Error saving message: %v";
                                              args := [Error e] |}
                               | None => {| format := "Received message on topic %s";
                                            args := [Topic msg] |}
                               end) (world p1) |}.
    exists {| self := self q1;
              world := logged (match r' with
                               | Some e => {| format := "Error saving message: %v";
                                              args := [Error e] |}
                               | None => {| format := "Received message on topic %s: %+v";
                                            args := [Topic msg; Sprint_plus_v payload] |}
                               end) (world q1) |}.
    split; [now destruct r|]. split; [now destruct r'|].
    split; [discriminate|].
    split.
    { intros ? [= <-]. split; eexists _, _, _; (split; [eassumption | reflexivity]). }
    split; [split; [eauto | intros _; exact Hcalls]|].
    split; [split; [eauto | intros _; simpl; rewrite Hmsgs, length_app; simpl; lia]|].
    intros [? ?]; discriminate.
  - unfold Printf. eexists _, _. split; [reflexivity|]. split; [reflexivity|].
    split; [intros ? [= <-]; split; reflexivity|].
    split; [discriminate|]. simpl.
    split; [split; [lia | intros [? ?]; discriminate]|].
    split; [split; [lia | intros [? ?]; discriminate]|].
    intros _. repeat split.
Qed.
End BothSinks.

(** ** Configuration *)

Section ConfigFacts.
Context `{Viper.Codec}.
Import Viper Settings.

(** [loadConfig] once the file is read and parsed: the decoding and the
    two checks remain. *)
Lemma loadConfig_with_eval (d path text : string)
    (settings : gmap string setting) (p : Proc State) :
  answer (world p) = None ->
  files (world p) !! path = Some text ->
  parse_config "yaml" text = inl settings ->
  loadConfig_with d path p =
    Returns
      (match decode_config (loaded d path settings (self p)) with
       | inr err => inr (Errorf_w "failed to unmarshal config" err)
       | inl config =>
           if String.eqb (Broker (MQTT config)) "" then
             inr (Errorf "mqtt.broker is required")
           else if Nat.eqb (List.length (Topics (MQTT config))) 0 then
             inr (Errorf "at least one mqtt.topic is required")
           else inl config
       end)
      {| self := loaded d path settings (self p); world := issued (world p) |}.
Proof.
  intros Hans Hfile Hyaml.
  unfold loadConfig_with, bind, SetConfigFile, SetConfigType, SetDefault,
    ReadInConfig, modify, gets, bind, ReadFile. simpl.
  rewrite Hans, Hfile. simpl. rewrite Hyaml. simpl.
  unfold Unmarshal_Config, bind, gets, ret, loaded. simpl.
  destruct (decode_config _) as [c|err]; [|reflexivity].
  destruct (String.eqb _ _); [reflexivity|].
  destruct (Nat.eqb _ _); reflexivity.
Qed.

Lemma decoded_defaults (d path : string) (settings : gmap string setting)
    (v : State) (c : Config) :
  decode_config (loaded d path settings v) = inl c ->
  (settings !! "mqtt.port" = None -> Port (MQTT c) = 1883%Z) /\
  (settings !! "output_file" = None -> OutputFile c = d).
Proof.
  unfold decode_config. intros Hdec.
  destruct (field decode_string "" _ "mqtt.broker") as [broker|]; [|discriminate].
  destruct (field decode_int 0%Z _ "mqtt.port") as [port|] eqn:Hport; [|discriminate].
  destruct (field decode_string "" _ "mqtt.username") as [username|]; [|discriminate].
  destruct (field decode_string "" _ "mqtt.password") as [password|]; [|discriminate].
  destruct (field decode_strings [] _ "mqtt.topics") as [topics|]; [|discriminate].
  destruct (field decode_string "" _ "output_file") as [output|] eqn:Hout; [|discriminate].
  injection Hdec as <-. simpl. split; intros Hnone.
  - unfold field, lookup_setting, loaded in Hport. simpl in Hport.
    rewrite Hnone in Hport.
    rewrite lookup_insert_ne, lookup_insert_eq in Hport by done.
    simpl in Hport. congruence.
  - unfold field, lookup_setting, loaded in Hout. simpl in Hout.
    rewrite Hnone in Hout. rewrite lookup_insert_eq in Hout.
    simpl in Hout. congruence.
Qed.

Lemma loadConfig_with_validates (d path text : string)
    (settings : gmap string setting) (p : Proc State) (c : Config) :
  answer (world p) = None ->
  files (world p) !! path = Some text ->
  parse_config "yaml" text = inl settings ->
  decode_config (loaded d path settings (self p)) = inl c ->
  exists res p',
    loadConfig_with d path p = Returns res p' /\
    ((exists e, res = inr e) <-> Broker (MQTT c) = "" \/ Topics (MQTT c) = []) /\
    (Broker (MQTT c) <> "" -> Topics (MQTT c) <> [] -> res = inl c) /\
    (settings !! "mqtt.port" = None -> Port (MQTT c) = 1883%Z) /\
    (settings !! "output_file" = None -> OutputFile c = d).
Proof.
  intros Hans Hfile Hyaml Hdec.
  rewrite (loadConfig_with_eval d path text settings p Hans Hfile Hyaml), Hdec.
  eexists _, _. split; [reflexivity|].
  destruct (decoded_defaults _ _ _ _ _ Hdec) as [Hport Hout].
  destruct (String.eqb_spec (Broker (MQTT c)) "") as [Hb|Hb].
  { repeat split; eauto; try contradiction. }
  destruct (Topics (MQTT c)) as [|t ts] eqn:Ht; simpl.
  { repeat split; eauto; try contradiction. }
  repeat split; eauto.
  - intros [e He]. discriminate.
  - intros [?|?]; [contradiction | discriminate].
Qed.

(** C10. Once the configuration file is read, parsed and decoded,
    [loadConfig] returns an error exactly when the broker is the empty
    string or the list of topics is empty, and the decoded configuration
    otherwise.  In that configuration a port the file does not set is 1883
    and an output file the file does not set is [mqtt-trace.log] in the
    Line Sink program and [mqtt-trace.json] in the JSON Store program. *)
Theorem loadConfig_validates (path text : string)
    (settings : gmap string setting) (p : Proc State) (c_log c_json : Config) :
  answer (world p) = None ->
  files (world p) !! path = Some text ->
  parse_config "yaml" text = inl settings ->
  decode_config (loaded "mqtt-trace.log" path settings (self p)) = inl c_log ->
  decode_config (loaded "mqtt-trace.json" path settings (self p)) = inl c_json ->
  (exists res p',
     LineSink.loadConfig path p = Returns res p' /\
     ((exists e, res = inr e) <->
        Broker (MQTT c_log) = "" \/ Topics (MQTT c_log) = []) /\
     (Broker (MQTT c_log) <> "" -> Topics (MQTT c_log) <> [] -> res = inl c_log) /\
     (settings !! "mqtt.port" = None -> Port (MQTT c_log) = 1883%Z) /\
     (settings !! "output_file" = None -> OutputFile c_log = "mqtt-trace.log")) /\
  (exists res p',
     JsonStore.loadConfig path p = Returns res p' /\
     ((exists e, res = inr e) <->
        Broker (MQTT c_json) = "" \/ Topics (MQTT c_json) = []) /\
     (Broker (MQTT c_json) <> "" -> Topics (MQTT c_json) <> [] -> res = inl c_json) /\
     (settings !! "mqtt.port" = None -> Port (MQTT c_json) = 1883%Z) /\
     (settings !! "output_file" = None -> OutputFile c_json = "mqtt-trace.json")).
Proof.
  intros Hans Hfile Hyaml Hlog Hjson. split.
  - exact (loadConfig_with_validates _ _ _ _ _ _ Hans Hfile Hyaml Hlog).
  - exact (loadConfig_with_validates _ _ _ _ _ _ Hans Hfile Hyaml Hjson).
Qed.
End ConfigFacts.

(** ** Calls cut into actions *)

Section Agreement.
Context {S : Type}.
Import Threads.

Lemma agrees_done {A} (a : A) : agrees (Done a) (ret a : M S A).
Proof. intros s. reflexivity. Qed.

Lemma agrees_lift {X} (c : M S X) : agrees (lift c) c.
Proof. intros s. simpl. destruct (c s); reflexivity. Qed.

Lemma run_pbind {A B} (c : Prog S A) (k : A -> Prog S B) (s : S) :
  run (pbind c k) s = bind (run c) (fun a => run (k a)) s.
Proof.
  revert s. induction c as [a|r|X c k' IH]; intros s; try reflexivity.
  simpl. unfold bind. simpl. destruct (c s) as [x s'| |]; try reflexivity.
  apply IH.
Qed.

Lemma agrees_pbind {A B} (c : Prog S A) (k : A -> Prog S B) m k' :
  agrees c m -> (forall a, agrees (k a) (k' a)) ->
  agrees (pbind c k) (bind m k').
Proof.
  intros Hc Hk s. rewrite run_pbind. unfold bind. rewrite Hc.
  destruct (m s); try reflexivity. apply Hk.
Qed.

Lemma run_pdefer {A} (d : Prog S unit) (b : Prog S A) (s : S) :
  run (pdefer d b) s = defer (run d) (run b) s.
Proof.
  revert s. induction b as [a|r|X c k IH]; intros s.
  - simpl. rewrite run_pbind. unfold bind, defer, ret. simpl.
    destruct (run d s); reflexivity.
  - simpl. rewrite run_pbind. unfold bind, defer, panic. simpl.
    destruct (run d s); reflexivity.
  - simpl. unfold catch, defer. simpl. destruct (c s) as [x s'|r s'|]; try reflexivity.
    + apply IH.
    + rewrite run_pbind. unfold bind. simpl. destruct (run d s'); reflexivity.
Qed.

Lemma agrees_pdefer {A} (d : Prog S unit) (b : Prog S A) md mb :
  agrees d md -> agrees b mb -> agrees (pdefer d b) (defer md mb).
Proof.
  intros Hd Hb s. rewrite run_pdefer. unfold defer. rewrite Hb.
  destruct (mb s) as [a s'|r s'|]; try reflexivity; now rewrite Hd.
Qed.
End Agreement.

(** ** Serialization by a lock *)

Section Serial.
Context {S : Type} (free owned : S -> bool).
Hypothesis owned_not_free : forall s, owned s = true -> free s = false.
Context {A : Type}.
Import Threads.

Lemma inv_init (pool0 : list (Prog S A)) (s0 : S) :
  free s0 = true -> inv free owned pool0 s0 (s0, pool0).
Proof.
  intros Hfree. split; [reflexivity|].
  exists [], s0. split; [constructor|]. split; [constructor|].
  split; [intros i a Hin; inversion Hin|].
  left. auto.
Qed.

Lemma done_not_act (l : list (nat * A)) (pool : list (Prog S A)) i X
    (c : M S X) (k : X -> Prog S A) :
  (forall i a, (i, a) ∈ l -> pool !! i = Some (Done a)) ->
  pool !! i = Some (Act c k) ->
  i ∉ l.*1.
Proof.
  intros Hdone Hi Hin.
  apply list_elem_of_fmap in Hin as ([j a] & -> & Hin). simpl in Hi.
  rewrite (Hdone _ _ Hin) in Hi. discriminate.
Qed.

Lemma inv_turn (pool0 : list (Prog S A)) (s0 : S) st st' :
  Forall (guarded free owned) pool0 ->
  inv free owned pool0 s0 st -> turn st st' -> inv free owned pool0 s0 st'.
Proof.
  intros Hguard (Hlen & l & sb & Hser & Hnd & Hdone & Hcase) Hturn.
  destruct Hturn as [i X c k x s s' pool Hi Hc | i X c k r s s' pool Hi Hc];
    simpl in *; pose proof (done_not_act _ _ _ _ _ _ Hdone Hi) as Hnotin.
  - destruct Hcase as [(Hfree & -> & Hrest) | (Hheld & o & co & c0 & Ho & Hpo & Hp0 & Hcrit & Hrun & Hrest)].
    + (* the lock is free: thread [i] takes it *)
      pose proof (Hrest i Hnotin) as Hi0. rewrite Hi in Hi0. symmetry in Hi0.
      pose proof (Forall_lookup_1 _ _ _ _ Hguard Hi0) as [_ Hg].
      destruct (Hg _ Hfree) as (x' & s'' & Hc' & Hheld' & Hcrit).
      rewrite Hc in Hc'. injection Hc' as <- <-.
      unfold inv; simpl. split; [now rewrite length_insert|].
      exists l, sb. split; [assumption|]. split; [assumption|]. split.
      { intros j a Hin. rewrite list_lookup_insert_ne; [now apply Hdone|].
        intros <-. apply Hnotin, list_elem_of_fmap. now exists (i, a). }
      right. split; [assumption|].
      exists i, (k x), (Act c k). split; [assumption|].
      split; [apply list_lookup_insert_eq; now apply lookup_lt_Some in Hi|].
      split; [assumption|]. split; [assumption|]. split.
      { simpl. now rewrite Hc. }
      intros j Hj Hne. rewrite list_lookup_insert_ne by congruence. now apply Hrest.
    + destruct (decide (i = o)) as [->|Hne].
      * (* the owner goes on *)
        rewrite Hi in Hpo. injection Hpo as <-.
        destruct (Hcrit _ Hheld) as (x' & s'' & Hc' & Hnext).
        rewrite Hc in Hc'. injection Hc' as <- <-.
        assert (Hrun' : run (k x) s' = run c0 sb).
        { rewrite <- Hrun. simpl. now rewrite Hc. }
        unfold inv; simpl. split; [now rewrite length_insert|].
        destruct Hnext as [(Hheld' & Hcrit') | (Hfree' & a & Hk)].
        -- exists l, sb. split; [assumption|]. split; [assumption|]. split.
           { intros j a Hin. rewrite list_lookup_insert_ne; [now apply Hdone|].
             intros <-. apply Ho, list_elem_of_fmap. now exists (o, a). }
           right. split; [assumption|].
           exists o, (k x), c0. split; [assumption|].
           split; [apply list_lookup_insert_eq; now apply lookup_lt_Some in Hi|].
           split; [assumption|]. split; [assumption|]. split; [assumption|].
           intros j Hj Hne. rewrite list_lookup_insert_ne by congruence. now apply Hrest.
        -- exists (l ++ [(o, a)]), s'. split.
           { econstructor; [eassumption | eassumption |].
             rewrite <- Hrun'. now rewrite Hk. }
           split.
           { rewrite fmap_app. apply NoDup_app. split; [assumption|]. split.
             - intros j Hj Hin. simpl in Hin. apply list_elem_of_singleton in Hin. congruence.
             - simpl. apply NoDup_singleton. }
           split.
           { intros j a' Hin. apply elem_of_app in Hin as [Hin|Hin].
             - rewrite list_lookup_insert_ne; [now apply Hdone|].
               intros <-. apply Ho, list_elem_of_fmap. now exists (o, a').
             - apply list_elem_of_singleton in Hin. injection Hin as -> ->.
               rewrite <- Hk. apply list_lookup_insert_eq. now apply lookup_lt_Some in Hi. }
           left. split; [assumption|]. split; [reflexivity|].
           intros j Hj. rewrite fmap_app in Hj. simpl in Hj.
           rewrite not_elem_of_app, list_elem_of_singleton in Hj. destruct Hj as [Hj Hjo].
           rewrite list_lookup_insert_ne by congruence. now apply Hrest.
      * (* another thread is still at its [Lock] *)
        pose proof (Hrest i Hnotin Hne) as Hi0. rewrite Hi in Hi0. symmetry in Hi0.
        pose proof (Forall_lookup_1 _ _ _ _ Hguard Hi0) as [Hg _].
        rewrite (Hg _ (owned_not_free _ Hheld)) in Hc. discriminate.
  - exfalso.
    destruct Hcase as [(Hfree & -> & Hrest) | (Hheld & o & co & c0 & Ho & Hpo & Hp0 & Hcrit & Hrun & Hrest)].
    + pose proof (Hrest i Hnotin) as Hi0. rewrite Hi in Hi0. symmetry in Hi0.
      pose proof (Forall_lookup_1 _ _ _ _ Hguard Hi0) as [_ Hg].
      destruct (Hg _ Hfree) as (x' & s'' & Hc' & _). congruence.
    + destruct (decide (i = o)) as [->|Hne].
      * rewrite Hi in Hpo. injection Hpo as <-.
        destruct (Hcrit _ Hheld) as (x' & s'' & Hc' & _). congruence.
      * pose proof (Hrest i Hnotin Hne) as Hi0. rewrite Hi in Hi0. symmetry in Hi0.
        pose proof (Forall_lookup_1 _ _ _ _ Hguard Hi0) as [Hg _].
        rewrite (Hg _ (owned_not_free _ Hheld)) in Hc. discriminate.
Qed.

Lemma inv_turns (pool0 : list (Prog S A)) (s0 : S) st st' :
  Forall (guarded free owned) pool0 ->
  inv free owned pool0 s0 st -> rtc turn st st' -> inv free owned pool0 s0 st'.
Proof.
  intros Hguard Hinv Hturns. induction Hturns as [|st st1 st2 Hturn _ IH]; [assumption|].
  apply IH. eapply inv_turn; eassumption.
Qed.

Lemma critical_unfinished (c : Prog S A) : critical free owned c -> ~ finished c.
Proof. destruct c; simpl; tauto. Qed.

Lemma guarded_unfinished (c : Prog S A) : guarded free owned c -> ~ finished c.
Proof. destruct c; simpl; tauto. Qed.

(** Calls that all begin by taking the same lock are serialized: when
    every goroutine has come to its end, the state is the one the calls
    leave when run alone one after the other in some order, with the
    same results. *)
Lemma serializable (pool0 pool : list (Prog S A)) (s0 s : S) :
  Forall (guarded free owned) pool0 ->
  free s0 = true ->
  rtc turn (s0, pool0) (s, pool) ->
  Forall finished pool ->
  length pool = length pool0 /\
  exists l,
    serial pool0 l s0 s /\
    NoDup (l.*1) /\
    (forall i, i ∈ l.*1 <-> i < length pool0) /\
    (forall i a, (i, a) ∈ l -> pool !! i = Some (Done a)).
Proof.
  intros Hguard Hfree Hturns Hfin.
  destruct (inv_turns pool0 s0 _ _ Hguard (inv_init pool0 s0 Hfree) Hturns)
    as (Hlen & l & sb & Hser & Hnd & Hdone & Hcase). simpl in *.
  destruct Hcase as [(_ & -> & Hrest) | (_ & o & c & c0 & _ & Hpo & _ & Hcrit & _)].
  - split; [assumption|].
    exists l. split; [assumption|]. split; [assumption|]. split; [|assumption].
    intros i. split.
    + intros Hin. apply list_elem_of_fmap in Hin as ([j a] & -> & Hin).
      simpl. rewrite <- Hlen. eapply lookup_lt_Some. apply Hdone. eassumption.
    + intros Hlt. destruct (decide (i ∈ l.*1)) as [|Hnotin]; [assumption|]. exfalso.
      destruct (lookup_lt_is_Some_2 pool0 i Hlt) as [c0 Hc0].
      pose proof (Hrest i Hnotin) as Hi. rewrite Hc0 in Hi.
      apply (guarded_unfinished c0).
      * eapply Forall_lookup_1; eassumption.
      * eapply Forall_lookup_1; eassumption.
  - exfalso. apply (critical_unfinished c Hcrit).
    eapply Forall_lookup_1; eassumption.
Qed.

(** ** Building critical sections *)

Lemma inner_lift {X} (Q : X -> Prop) (c : M S X) :
  (forall s, owned s = true -> exists x s', c s = Returns x s' /\ owned s' = true /\ Q x) ->
  inner owned Q (lift c).
Proof. intros Hc s Hs. destruct (Hc s Hs) as (x & s' & ? & ? & ?). now exists x, s'. Qed.

Lemma inner_pbind {X B} (Q : X -> Prop) (R : B -> Prop)
    (c : Prog S X) (k : X -> Prog S B) :
  inner owned Q c -> (forall x, Q x -> inner owned R (k x)) -> inner owned R (pbind c k).
Proof.
  intros Hc Hk. induction c as [a|r|Y c k' IH]; simpl in *; [now apply Hk | contradiction |].
  intros s Hs. destruct (Hc s Hs) as (x & s' & Hcs & Hs' & Hin).
  exists x, s'. split; [assumption|]. split; [assumption|]. now apply IH.
Qed.

Lemma inner_pdefer {B} (R : B -> Prop) (d : Prog S unit) (b : Prog S B) :
  inner owned (fun _ => True) d -> inner owned R b -> inner owned R (pdefer d b).
Proof.
  intros Hd Hb. induction b as [a|r|Y c k IH]; simpl in *; [|contradiction|].
  - eapply inner_pbind; [exact Hd|]. intros _ _. exact Hb.
  - intros s Hs. destruct (Hb s Hs) as (x & s' & Hcs & Hs' & Hin).
    exists (inl x), s'. unfold catch. rewrite Hcs.
    split; [reflexivity|]. split; [assumption|]. now apply IH.
Qed.

(** Releasing the lock at the end of a stretch makes a critical section. *)
Lemma critical_release (release : M S unit) (b : Prog S A) :
  (forall s, owned s = true -> exists s', release s = Returns tt s' /\ free s' = true) ->
  inner owned (fun _ => True) b ->
  critical free owned (pdefer (lift release) b).
Proof.
  intros Hrel Hb. induction b as [a|r|Y c k IH]; simpl in *; [|contradiction|].
  - intros s Hs. destruct (Hrel s Hs) as (s' & Hr & Hfree).
    exists tt, s'. split; [assumption|]. right. split; [assumption|]. now exists a.
  - intros s Hs. destruct (Hb s Hs) as (x & s' & Hcs & Hs' & Hin).
    exists (inl x), s'. unfold catch. rewrite Hcs.
    split; [reflexivity|]. left. split; [assumption|]. now apply IH.
Qed.

(** A call that takes the lock, runs a stretch that keeps it, and releases
    it at the end. *)
Lemma guarded_acquire (acquire release : M S unit) (b : Prog S A) :
  (forall s, free s = false -> acquire s = Blocks) ->
  (forall s, free s = true -> exists s', acquire s = Returns tt s' /\ owned s' = true) ->
  (forall s, owned s = true -> exists s', release s = Returns tt s' /\ free s' = true) ->
  inner owned (fun _ => True) b ->
  guarded free owned (pbind (lift acquire) (fun _ => pdefer (lift release) b)).
Proof.
  intros Hblock Hacq Hrel Hb. simpl. split; [assumption|].
  intros s Hs. destruct (Hacq s Hs) as (s' & Ha & Hs').
  exists tt, s'. split; [assumption|]. split; [assumption|].
  now apply critical_release.
Qed.
End Serial.

(** ** Actions that leave the sink object alone *)

Section WorldOnly.
Context {T : Type}.
Import Threads.

Lemma OpenFile_world_only name flag : world_only (OpenFile (T:=T) name flag).
Proof.
  intros p. unfold OpenFile. destruct (answer (world p)); [now eexists _, _|].
  destruct flag; now eexists _, _.
Qed.

Lemma WriteString_world_only file s : world_only (WriteString (T:=T) file s).
Proof.
  intros [x w]. unfold WriteString. simpl.
  destruct (fds w !! file) as [o|]; [|now eexists _, _].
  destruct (h_offset o); now eexists _, _.
Qed.

Lemma Close_world_only file : world_only (Close (T:=T) file).
Proof.
  intros [x w]. unfold Close. simpl. destruct (fds w !! file); now eexists _, _.
Qed.

Lemma Now_world_only : world_only (Now_RFC3339 (T:=T)).
Proof. intros [x w]. now eexists _, _. Qed.

Lemma gets_world_only {X} (f : Proc T -> X) : world_only (gets f).
Proof. intros [x w]. now eexists _, _. Qed.

Lemma inner_world_only {X} (owned : Proc T -> bool) (c : M (Proc T) X) :
  (forall p w', owned {| self := self p; world := w' |} = owned p) ->
  world_only c ->
  inner owned (fun _ => True) (lift c).
Proof.
  intros Hown Hc. apply inner_lift. intros p Hp.
  destruct (Hc p) as (x & w' & Hrun). eexists _, _. split; [exact Hrun|].
  split; [now rewrite Hown | trivial].
Qed.
End WorldOnly.

(** ** Calls one after the other *)

Lemma one_by_one_snoc {S X A} (f : X -> M S A) (xs : list X) (x : X) :
  forall s s1 s2 r a,
    one_by_one f xs s = Returns r s1 ->
    f x s1 = Returns a s2 ->
    one_by_one f (xs ++ [x]) s = Returns (r ++ [a]) s2.
Proof.
  induction xs as [|y xs IH]; intros s s1 s2 r a Hxs Hx; simpl in *.
  - injection Hxs as <- <-. unfold bind. now rewrite Hx.
  - unfold bind in *. destruct (f y s) as [b s'| |]; try discriminate.
    destruct (one_by_one f xs s') as [r' s''| |] eqn:Hrest; try discriminate.
    injection Hxs as <- <-.
    now rewrite (IH _ _ _ _ _ Hrest Hx).
Qed.

Lemma omap_lookup_seq {X} (xs pre : list X) :
  omap (fun i => (pre ++ xs) !! i) (seq (length pre) (length xs)) = xs.
Proof.
  revert pre. induction xs as [|x xs IH]; intros pre; [reflexivity|].
  simpl. rewrite lookup_app_r, Nat.sub_diag by lia. simpl. f_equal.
  specialize (IH (pre ++ [x])). rewrite length_app, <- app_assoc in IH. simpl in IH.
  now rewrite Nat.add_1_r in IH.
Qed.

(** Indices that name every position of [xs] once pick a permutation of [xs]. *)
Lemma picks_permutation {X} (xs : list X) (idx : list nat) :
  NoDup idx ->
  (forall i, i ∈ idx <-> i < length xs) ->
  omap (fun i => xs !! i) idx ≡ₚ xs.
Proof.
  intros Hnd Hall.
  assert (Hperm : idx ≡ₚ seq 0 (length xs)).
  { apply NoDup_Permutation; [assumption | apply NoDup_seq|].
    intros i. rewrite Hall, elem_of_seq. lia. }
  rewrite Hperm. pose proof (omap_lookup_seq xs []) as Heq. simpl in Heq. now rewrite Heq.
Qed.

Section SerialCalls.
Import Threads.
Context {S X A : Type} (F : X -> Prog S A) (G : X -> M S A).
Hypothesis F_agrees : forall x, agrees (F x) (G x).

(** Calls run alone one after the other are the calls of the sink in
    that order. *)
Lemma serial_calls (xs : list X) l s s' :
  serial (F <$> xs) l s s' ->
  one_by_one G (omap (fun i => xs !! i) l.*1) s = Returns l.*2 s'.
Proof.
  induction 1 as [s | l i c a s s1 s2 Hser IH Hi Hrun].
  - reflexivity.
  - rewrite !fmap_app, omap_app. simpl.
    rewrite list_lookup_fmap in Hi.
    destruct (xs !! i) as [x|] eqn:Hx; [|discriminate].
    injection Hi as <-. simpl.
    eapply one_by_one_snoc; [exact IH|]. now rewrite <- F_agrees.
Qed.
End SerialCalls.

(** ** The sinks as goroutines *)

Section LineSinkThreads.
Context {any : Type} `{Dyn any}.
Import Threads LineSink.

Lemma fw_owned_not_free (p : Proc FileWriter) :
  fw_owned p = true -> fw_free p = false.
Proof. unfold fw_owned, fw_free. now intros ->. Qed.

Lemma WriteMessage_steps_agrees (payload : GoMap any) :
  agrees (WriteMessage_steps payload) (WriteMessage payload).
Proof.
  unfold WriteMessage_steps, WriteMessage.
  apply agrees_pbind; [apply agrees_lift|]. intros _.
  apply agrees_pdefer; [apply agrees_lift|].
  apply agrees_pbind; [apply agrees_lift|]. intros path.
  apply agrees_pbind; [apply agrees_lift|]. intros [file|err]; [|apply agrees_done].
  apply agrees_pdefer.
  { apply agrees_pbind; [apply agrees_lift|]. intros _. apply agrees_done. }
  apply agrees_pbind; [apply agrees_lift|]. intros date.
  apply agrees_pbind; [apply agrees_lift|]. intros [err|]; apply agrees_done.
Qed.

Lemma WriteMessage_steps_guarded (payload : GoMap any) :
  guarded fw_free fw_owned (WriteMessage_steps payload).
Proof.
  unfold WriteMessage_steps. apply guarded_acquire.
  - intros [[m path] w]. unfold fw_free, Lock, fw_mu. simpl. now destruct m.
  - intros [[m path] w]. unfold fw_free, fw_owned, Lock, fw_mu. simpl.
    destruct m; [discriminate|]. now eexists.
  - intros [[m path] w]. unfold fw_free, fw_owned, Unlock, fw_mu. simpl.
    intros ->. now eexists.
  - assert (Hown : forall (p : Proc FileWriter) w',
              fw_owned {| self := self p; world := w' |} = fw_owned p) by reflexivity.
    eapply inner_pbind; [apply (inner_world_only _ _ Hown), gets_world_only|].
    intros path _.
    eapply inner_pbind; [apply (inner_world_only _ _ Hown), OpenFile_world_only|].
    intros [file|err] _; [|exact I].
    apply inner_pdefer.
    { eapply inner_pbind; [apply (inner_world_only _ _ Hown), Close_world_only|].
      intros _ _. exact I. }
    eapply inner_pbind; [apply (inner_world_only _ _ Hown), Now_world_only|].
    intros date _.
    eapply inner_pbind; [apply (inner_world_only _ _ Hown), WriteString_world_only|].
    intros [err|] _; exact I.
Qed.

Lemma WriteMessages_calm (order : list (GoMap any)) :
  forall p : Proc FileWriter,
    mu (self p) = false ->
    (forall n, fault (env (world p)) n = None) ->
    exists p',
      one_by_one WriteMessage order p = Returns (replicate (length order) None) p' /\
      self p' = self p /\
      fds (world p') = fds (world p) /\
      content (world p') (filePath (self p)) =
        content (world p) (filePath (self p))
          +:+ lines_from (clock (env (world p))) (ticks (world p)) order /\
      (forall path, path <> filePath (self p) ->
         files (world p') !! path = files (world p) !! path).
Proof.
  induction order as [|x rest IH]; intros p Hmu Hcalm.
  - exists p. simpl. rewrite append_empty_r. repeat split.
  - simpl. unfold bind. rewrite (WriteMessage_eval x p Hmu).
    unfold answer, answer_at. rewrite !Hcalm.
    set (p1 := {| self := self p; world := after_write x p |}).
    destruct (IH p1 Hmu Hcalm) as (p' & Hrun & Hself & Hfds & Hcontent & Hother).
    rewrite Hrun. exists p'. split; [reflexivity|]. split; [assumption|].
    split; [assumption|]. split.
    2: { intros path Hne. rewrite (Hother path Hne). simpl.
         now apply lookup_insert_ne. }
    simpl in Hcontent. rewrite Hcontent.
    unfold content at 1. simpl. rewrite lookup_insert_eq. simpl.
    unfold answer_at. rewrite Hcalm. simpl. rewrite str_take_all.
    now rewrite append_assoc.
Qed.
End LineSinkThreads.

Section JsonStoreThreads.
Context {any : Type} `{JsonStore.Encoder any}.
Import Threads JsonStore.

Lemma ms_owned_not_free (p : Proc (MessageStore any)) :
  ms_owned p = true -> ms_free p = false.
Proof. unfold ms_owned, ms_free. destruct (writer _); simpl; [reflexivity | discriminate]. Qed.

Lemma AddMessage_steps_agrees (payload : GoMap any) :
  agrees (AddMessage_steps payload) (AddMessage payload).
Proof.
  unfold AddMessage_steps, AddMessage.
  apply agrees_pbind; [apply agrees_lift|]. intros _.
  apply agrees_pdefer; [apply agrees_lift|].
  apply agrees_pbind.
  { destruct (index payload "rssi"); [apply agrees_lift | apply agrees_done]. }
  intros fp.
  apply agrees_pbind.
  { destruct (index payload "name"); [apply agrees_lift | apply agrees_done]. }
  intros fp'.
  apply agrees_pbind; [apply agrees_lift|]. intros date.
  apply agrees_pbind; [apply agrees_lift|]. intros _.
  unfold saveToFile_steps, saveToFile.
  apply agrees_pbind; [apply agrees_lift|]. intros path.
  apply agrees_pbind; [apply agrees_lift|]. intros [file|err]; [|apply agrees_done].
  apply agrees_pdefer.
  { apply agrees_pbind; [apply agrees_lift|]. intros _. apply agrees_done. }
  apply agrees_pbind; [apply agrees_lift|]. intros msgs.
  apply agrees_pbind.
  { unfold Encode_steps, Encode.
    destruct (Marshal_indent msgs); [apply agrees_lift | apply agrees_done]. }
  intros [err|]; apply agrees_done.
Qed.

Lemma AddMessage_steps_guarded (payload : GoMap any) :
  guarded (@ms_free any) (@ms_owned any) (AddMessage_steps payload).
Proof.
  unfold AddMessage_steps. apply guarded_acquire.
  - intros [[[wr rd] rs path] w]. unfold ms_free, RWLock, ms_mu. simpl.
    destruct wr; [reflexivity|]. destruct rd; [discriminate | reflexivity].
  - intros [[[wr rd] rs path] w]. unfold ms_free, ms_owned, RWLock, ms_mu. simpl.
    destruct wr; [discriminate|]. destruct rd; [|discriminate]. now eexists.
  - intros [[[wr rd] rs path] w]. unfold ms_free, ms_owned, RWUnlock, ms_mu. simpl.
    destruct wr; [|discriminate]. destruct rd; [|discriminate]. now eexists.
  - assert (Hown : forall (p : Proc (MessageStore any)) w',
              ms_owned {| self := self p; world := w' |} = ms_owned p) by reflexivity.
    cbv zeta.
    eapply (inner_pbind _ (fun m => exists g, m = Map g)).
    { destruct (index payload "rssi"); simpl; [|now eexists].
      intros p Hp. eexists _, p. split; [reflexivity|]. split; [assumption|]. now eexists. }
    intros fp [g ->].
    eapply (inner_pbind _ (fun _ => True)).
    { destruct (index payload "name"); simpl; [|exact I].
      intros p Hp. eexists _, p. split; [reflexivity|]. now split. }
    intros fp' _.
    eapply inner_pbind; [apply (inner_world_only _ _ Hown), Now_world_only|].
    intros date _.
    eapply (inner_pbind _ (fun _ => True)).
    { apply inner_lift. intros p Hp. eexists _, _. split; [reflexivity|]. now split. }
    intros _ _. unfold saveToFile_steps.
    eapply inner_pbind; [apply (inner_world_only _ _ Hown), gets_world_only|].
    intros path _.
    eapply inner_pbind; [apply (inner_world_only _ _ Hown), OpenFile_world_only|].
    intros [file|err] _; [|exact I].
    apply inner_pdefer.
    { eapply inner_pbind; [apply (inner_world_only _ _ Hown), Close_world_only|].
      intros _ _. exact I. }
    eapply inner_pbind; [apply (inner_world_only _ _ Hown), gets_world_only|].
    intros msgs _.
    eapply (inner_pbind _ (fun _ => True)).
    { unfold Encode_steps. destruct (Marshal_indent msgs); [|exact I].
      apply (inner_world_only _ _ Hown), WriteString_world_only. }
    intros [err|] _; exact I.
Qed.
End JsonStoreThreads.

Section Concurrency.
Context {any : Type} `{Dyn any} `{JsonStore.Encoder any}.
Import Threads.

(** C8. Goroutines that each make one call of the sink, taking turns in
    any way, are serialized by the lock of the sink.  When all [N] calls
    of [WriteMessage] have ended, in an environment where no system call
    fails, the output file has gained exactly the [N] assembled lines,
    whole and one after the other, in the order in which the calls took
    the lock, and every call has returned no error.  When all [N] calls of
    [AddMessage] have ended, the store is the one these calls leave when
    made one after the other in the order in which they took the lock: it
    has gained the [N] records in that order, and the file written last
    holds them all. *)
Theorem locks_serialize_calls
    (payloads : list (GoMap any))
    (p p' : Proc LineSink.FileWriter)
    (pool' : list (Prog (Proc LineSink.FileWriter) (option error)))
    (q q' : Proc (JsonStore.MessageStore any))
    (qpool' : list (Prog (Proc (JsonStore.MessageStore any)) (option error))) :
  LineSink.mu (self p) = false ->
  (forall n, fault (env (world p)) n = None) ->
  rtc turn (p, LineSink.WriteMessage_steps <$> payloads) (p', pool') ->
  Forall finished pool' ->
  JsonStore.mu (self q) = rw_unlocked ->
  rtc turn (q, JsonStore.AddMessage_steps <$> payloads) (q', qpool') ->
  Forall finished qpool' ->
  (exists order,
     order ≡ₚ payloads /\
     one_by_one LineSink.WriteMessage order p
       = Returns (replicate (length payloads) None) p' /\
     Forall (fun c => c = Done None) pool' /\
     length pool' = length payloads /\
     self p' = self p /\
     content (world p') (LineSink.filePath (self p)) =
       content (world p) (LineSink.filePath (self p))
         +:+ lines_from (clock (env (world p))) (ticks (world p)) order) /\
  (exists order rs,
     order ≡ₚ payloads /\
     AddMessages order q = Returns rs q' /\
     length qpool' = length payloads /\
     JsonStore.messages (self q') =
       JsonStore.messages (self q)
         ++ records_from (clock (env (world q))) (ticks (world q)) order /\
     (last rs = Some None ->
      exists text,
        JsonStore.Marshal_indent (JsonStore.messages (self q')) = inl text /\
        files (world q') !! JsonStore.filePath (self q) = Some text)).
Proof.
  intros Hp Hcalm Hturns Hfin Hq Hqturns Hqfin. split.
  - destruct (serializable fw_free fw_owned fw_owned_not_free
                (LineSink.WriteMessage_steps <$> payloads) pool' p p')
      as (Hlen & l & Hser & Hnd & Hall & Hdone); try assumption.
    { apply Forall_fmap, Forall_forall. intros x _. apply WriteMessage_steps_guarded. }
    { unfold fw_free. now rewrite Hp. }
    rewrite length_fmap in Hlen, Hall.
    pose proof (picks_permutation payloads _ Hnd Hall) as Hperm.
    pose proof (serial_calls LineSink.WriteMessage_steps LineSink.WriteMessage
                  WriteMessage_steps_agrees payloads l p p' Hser) as Hcalls.
    set (order := omap (fun i => payloads !! i) l.*1) in *.
    destruct (WriteMessages_calm order p Hp Hcalm)
      as (p'' & Hrun & Hself & _ & Hcontent & _).
    rewrite Hrun in Hcalls. injection Hcalls as Hres <-.
    rewrite (Permutation_length Hperm) in Hres, Hrun.
    exists order. split; [assumption|]. split; [assumption|]. split.
    { apply Forall_lookup. intros i c Hi.
      assert (Hin : i ∈ l.*1) by (apply Hall; rewrite <- Hlen; eapply lookup_lt_Some; eassumption).
      apply list_elem_of_fmap in Hin as ([j a] & -> & Hin). simpl in Hi.
      rewrite (Hdone _ _ Hin) in Hi. injection Hi as <-.
      assert (Ha : a ∈ l.*2) by (apply list_elem_of_fmap; now exists (j, a)).
      rewrite <- Hres in Ha. apply elem_of_replicate in Ha as [-> _]. reflexivity. }
    split; [assumption|]. split; assumption.
  - destruct (serializable (@ms_free any) (@ms_owned any) ms_owned_not_free
                (JsonStore.AddMessage_steps <$> payloads) qpool' q q')
      as (Hlen & l & Hser & Hnd & Hall & Hdone); try assumption.
    { apply Forall_fmap, Forall_forall. intros x _. apply AddMessage_steps_guarded. }
    { unfold ms_free. now rewrite Hq. }
    rewrite length_fmap in Hlen, Hall.
    pose proof (picks_permutation payloads _ Hnd Hall) as Hperm.
    pose proof (serial_calls JsonStore.AddMessage_steps JsonStore.AddMessage
                  AddMessage_steps_agrees payloads l q q' Hser) as Hcalls.
    set (order := omap (fun i => payloads !! i) l.*1) in *.
    exists order, l.*2. split; [assumption|]. split; [assumption|].
    split; [assumption|].
    destruct (AddMessages_eval order q Hq)
      as (rs & q'' & Hrun & _ & _ & _ & _ & Hmsgs & Hfile).
    unfold AddMessages in Hrun. rewrite Hcalls in Hrun. injection Hrun as <- <-.
    split; [exact Hmsgs | exact Hfile].
Qed.
End Concurrency.

(** ** Calls one after the other, whatever fails *)

Section LineSinkSequences.
Context {any : Type} `{Dyn any} `{Decoder any}.
Import LineSink.

Lemma WriteMessages_extend (payloads : list (GoMap any)) :
  forall p : Proc FileWriter,
    mu (self p) = false ->
    exists rs p' added,
      one_by_one WriteMessage payloads p = Returns rs p' /\
      length rs = length payloads /\
      self p' = self p /\
      fds (world p') = fds (world p) /\
      content (world p') (filePath (self p)) =
        content (world p) (filePath (self p)) +:+ added /\
      (forall path, path <> filePath (self p) ->
         files (world p') !! path = files (world p) !! path).
Proof.
  induction payloads as [|x rest IH]; intros p Hmu.
  - exists [], p, "". simpl. rewrite append_empty_r. repeat split.
  - simpl. unfold bind. rewrite (WriteMessage_eval x p Hmu).
    destruct (answer (world p)) as [f|] eqn:Hopen.
    + set (p1 := {| self := self p; world := issued (world p) |}).
      destruct (IH p1 Hmu) as (rs & p' & added & Hrun & Hlen & Hself & Hfds & Hc & Ho).
      rewrite Hrun. exists (Some (Errorf_w "failed to open output file" (Cause (cause f))) :: rs), p', added.
      split; [reflexivity|]. split; [simpl; now rewrite Hlen|].
      repeat split; assumption.
    + set (p1 := {| self := self p; world := after_write x p |}).
      destruct (IH p1 Hmu) as (rs & p' & added & Hrun & Hlen & Hself & Hfds & Hc & Ho).
      rewrite Hrun. eexists (_ :: rs), p', _.
      split; [reflexivity|]. split; [simpl; now rewrite Hlen|].
      split; [assumption|]. split; [assumption|]. split.
      * simpl in Hc. rewrite Hc. unfold content at 1. simpl.
        rewrite lookup_insert_eq. simpl. rewrite append_assoc. reflexivity.
      * intros path Hne. rewrite (Ho path Hne). simpl. now apply lookup_insert_ne.
Qed.

(** X1. Whatever system calls fail, any number of calls of [WriteMessage]
    made one after the other all return, with one result per call; they
    leave the writer and the table of open files as they were, they only
    add to the end of the output file, and they touch no other file. *)
Theorem WriteMessages_append_only (payloads : list (GoMap any)) (p : Proc FileWriter) :
  mu (self p) = false ->
  exists rs p' added,
    one_by_one WriteMessage payloads p = Returns rs p' /\
    length rs = length payloads /\
    self p' = self p /\
    fds (world p') = fds (world p) /\
    content (world p') (filePath (self p)) =
      content (world p) (filePath (self p)) +:+ added /\
    (forall path, path <> filePath (self p) ->
       files (world p') !! path = files (world p) !! path).
Proof. apply WriteMessages_extend. Qed.

(** X2. When no system call fails, [N] calls of [WriteMessage] made one
    after the other all return no error, and the output file gains the
    [N] lines in the order of the calls, each with the clock reading of
    its own call. *)
Theorem WriteMessages_lines (payloads : list (GoMap any)) (p : Proc FileWriter) :
  mu (self p) = false ->
  (forall n, fault (env (world p)) n = None) ->
  exists p',
    one_by_one WriteMessage payloads p
      = Returns (replicate (length payloads) None) p' /\
    content (world p') (filePath (self p)) =
      content (world p) (filePath (self p))
        +:+ lines_from (clock (env (world p))) (ticks (world p)) payloads.
Proof.
  intros Hmu Hcalm.
  destruct (WriteMessages_calm payloads p Hmu Hcalm) as (p' & Hrun & _ & _ & Hc & _).
  now exists p'.
Qed.
End LineSinkSequences.

(** ** Saving the store *)

Section SaveToFile.
Context {any : Type} `{JsonStore.Encoder any}.
Import JsonStore.

(** [saveToFile], evaluated. *)
Lemma saveToFile_eval (q : Proc (MessageStore any)) :
  saveToFile q =
    Returns (save_result (messages (self q)) (world q))
      {| self := self q;
         world :=
           {| env := env (world q);
              files := save_files (filePath (self q)) (messages (self q)) (world q);
              fds := fds (world q);
              ticks := ticks (world q);
              calls := save_calls (messages (self q)) (world q) + calls (world q);
              stderr := stderr (world q) |} |}.
Proof.
  destruct q as [[m rs path] w].
  unfold saveToFile, bind, gets, Create, OpenFile, save_result, save_files,
    save_calls, answer_at, answer. simpl.
  destruct (fault (env w) (calls w)) as [f|] eqn:Hopen; simpl; [reflexivity|].
  unfold Encode, defer, bind, ret. simpl.
  destruct (Marshal_indent rs) as [text|err] eqn:Henc; simpl.
  - unfold WriteString, Close, bind, ret, answer, content, set_world, with_fds,
      with_files, issued, reached. simpl.
    rewrite (lookup_insert_eq (fds w)). simpl.
    rewrite (lookup_insert_eq (files w)), (insert_insert_eq (files w)). simpl.
    rewrite str_drop_empty, append_empty_r.
    destruct (fault (env w) (S (calls w))) as [f|] eqn:Hwrite; simpl;
      rewrite (lookup_insert_eq (<[_ := _]> (fds w))); simpl;
      rewrite close_after_open; reflexivity.
  - unfold Close, bind, ret, answer, set_world, with_fds, with_files, issued. simpl.
    rewrite (lookup_insert_eq (fds w)). simpl.
    rewrite delete_insert_eq, (delete_id _ _ (fresh_fd_unused _)). reflexivity.
Qed.

(** X3. [saveToFile] always returns, keeps the store and the table of
    open files, and touches no file but the output file.  When the file
    cannot be created it is left as it was.  Once it is created its
    previous content is gone: the file is empty when the records cannot
    be encoded, holds the bytes that reached it when the write fails, and
    holds the whole encoding, with no error returned, when nothing
    fails. *)
Theorem saveToFile_outcomes (q : Proc (MessageStore any)) :
  exists r q',
    saveToFile q = Returns r q' /\
    self q' = self q /\
    fds (world q') = fds (world q) /\
    (forall path, path <> filePath (self q) ->
       files (world q') !! path = files (world q) !! path) /\
    (forall f, answer (world q) = Some f ->
       files (world q') = files (world q)) /\
    (forall e, answer (world q) = None ->
       Marshal_indent (messages (self q)) = inr e ->
       files (world q') !! filePath (self q) = Some "") /\
    (forall text f, answer (world q) = None ->
       Marshal_indent (messages (self q)) = inl text ->
       answer_at 1 (world q) = Some f ->
       files (world q') !! filePath (self q) =
         Some (str_take (Nat.min (written f) (String.length text)) text)) /\
    (forall text, answer (world q) = None ->
       Marshal_indent (messages (self q)) = inl text ->
       answer_at 1 (world q) = None ->
       r = None /\ files (world q') !! filePath (self q) = Some text).
Proof.
  rewrite saveToFile_eval. eexists _, _. split; [reflexivity|]. simpl.
  split; [reflexivity|]. split; [reflexivity|].
  unfold save_files, save_result.
  destruct (answer (world q)) as [f|] eqn:Hopen.
  { repeat split; try congruence. }
  destruct (Marshal_indent (messages (self q))) as [text|err] eqn:Henc.
  - split; [intros path Hne; now apply lookup_insert_ne|].
    split; [congruence|]. split; [congruence|]. split.
    + intros text' f _ [= <-] ->. simpl. apply lookup_insert_eq.
    + intros text' _ [= <-] ->. split; [reflexivity|].
      simpl. rewrite str_take_all. apply lookup_insert_eq.
  - split; [intros path Hne; now apply lookup_insert_ne|].
    split; [congruence|]. split; [intros; apply lookup_insert_eq|].
    split; congruence.
Qed.

(** X4. A store made by [NewMessageStore] starts with no record,
    whatever the output file holds: when its first message is saved, the
    file holds the encoding of that one record and nothing else. *)
Theorem new_store_overwrites (path text : string) (w : World) (payload : GoMap any) :
  answer w = None ->
  answer_at 1 w = None ->
  Marshal_indent [record_of w payload] = inl text ->
  exists q',
    AddMessage payload {| self := NewMessageStore path; world := w |}
      = Returns None q' /\
    messages (self q') = [record_of w payload] /\
    files (world q') !! path = Some text.
Proof.
  intros Hopen Hwrite Henc.
  rewrite AddMessage_eval by reflexivity.
  unfold save_result. simpl. rewrite Hopen, Henc, Hwrite.
  eexists. split; [reflexivity|]. split; [reflexivity|].
  simpl. unfold save_files. simpl. rewrite Hopen, Henc, Hwrite. simpl.
  rewrite str_take_all. apply lookup_insert_eq.
Qed.
End SaveToFile.

(** ** The handlers *)

Section Handlers.
Context {any : Type} `{Dyn any} `{Decoder any} `{JsonStore.Encoder any}.

Lemma store_handler_eval (msg : Message) (q : Proc (JsonStore.MessageStore any)) :
  JsonStore.mu (self q) = rw_unlocked ->
  JsonStore.messageHandler msg q =
    Returns tt
      match Unmarshal (Payload msg) with
      | inr err => {| self := self q; world := logged (unmarshal_line msg err) (world q) |}
      | inl payload =>
          {| self := store_after payload q;
             world :=
               logged
                 (saved_line
                    {| format := "Received message on topic %s: %+v";
                       args := [Topic msg; Sprint_plus_v payload] |}
                    (save_result (JsonStore.messages (store_after payload q)) (world q)))
                 (world_after payload q) |}
      end.
Proof.
  intros Hmu. unfold JsonStore.messageHandler.
  destruct (Unmarshal (Payload msg)) as [payload|err]; [|reflexivity].
  unfold bind. rewrite (AddMessage_eval payload q Hmu).
  destruct (save_result _ _); reflexivity.
Qed.

Lemma writer_handler_eval (msg : Message) (p : Proc LineSink.FileWriter) :
  LineSink.mu (self p) = false ->
  LineSink.messageHandler msg p =
    Returns tt
      match Unmarshal (Payload msg) with
      | inr err => {| self := self p; world := logged (unmarshal_line msg err) (world p) |}
      | inl payload =>
          {| self := self p;
             world :=
               logged
                 (saved_line
                    {| format := "Received message on topic %s"; args := [Topic msg] |}
                    (write_result (world p)))
                 (match answer (world p) with
                  | Some _ => issued (world p)
                  | None => after_write payload p
                  end) |}
      end.
Proof.
  intros Hmu. unfold LineSink.messageHandler, write_result.
  destruct (Unmarshal (Payload msg)) as [payload|err]; [|reflexivity].
  unfold bind. rewrite (WriteMessage_eval payload p Hmu).
  destruct (answer (world p)); [reflexivity|].
  destruct (answer_at 1 (world p)); reflexivity.
Qed.

(** X5. The handler of the JSON Store program, called for a list of
    messages one after the other, always returns, whatever fails.  The
    store gains one record per message whose body decodes, in arrival
    order and with the clock reading of its call; a message whose body
    does not decode adds nothing and takes no clock reading; the lock is
    free again; and each message leaves exactly one line in the log. *)
Theorem store_handler_records (msgs : list Message) :
  forall q : Proc (JsonStore.MessageStore any),
    JsonStore.mu (self q) = rw_unlocked ->
    exists q',
      one_by_one JsonStore.messageHandler msgs q
        = Returns (replicate (length msgs) tt) q' /\
      JsonStore.mu (self q') = rw_unlocked /\
      JsonStore.filePath (self q') = JsonStore.filePath (self q) /\
      env (world q') = env (world q) /\
      ticks (world q') = ticks (world q) + length (decoded msgs) /\
      JsonStore.messages (self q') =
        JsonStore.messages (self q)
          ++ records_from (clock (env (world q))) (ticks (world q)) (decoded msgs) /\
      length (stderr (world q')) = length (stderr (world q)) + length msgs.
Proof.
  induction msgs as [|msg rest IH]; intros q Hmu.
  - exists q. simpl. rewrite app_nil_r. repeat split; try assumption; lia.
  - simpl. unfold bind. rewrite (store_handler_eval msg q Hmu).
    unfold decoded. simpl. fold (decoded rest).
    destruct (Unmarshal (Payload msg)) as [payload|err].
    + set (q1 := {| self := store_after payload q; world := logged _ (world_after payload q) |}).
      destruct (IH q1 Hmu) as (q' & Hrun & Hmu' & Hpath & Henv & Hticks & Hmsgs & Hlog).
      rewrite Hrun. exists q'. split; [reflexivity|]. split; [assumption|].
      split; [assumption|]. split; [assumption|].
      split; [rewrite Hticks; simpl; lia|]. split.
      * rewrite Hmsgs. simpl. unfold record_of, now.
        rewrite filtered_restriction, <- app_assoc. reflexivity.
      * rewrite Hlog. simpl. rewrite length_app. simpl. lia.
    + set (q1 := {| self := self q; world := logged _ (world q) |}).
      destruct (IH q1 Hmu) as (q' & Hrun & Hmu' & Hpath & Henv & Hticks & Hmsgs & Hlog).
      rewrite Hrun. exists q'. split; [reflexivity|]. split; [assumption|].
      split; [assumption|]. split; [assumption|].
      split; [rewrite Hticks; simpl; lia|]. split; [exact Hmsgs|].
      rewrite Hlog. simpl. rewrite length_app. simpl. lia.
Qed.

(** X6. When no system call fails, the handler of the Line Sink
    program, called for a list of messages one after the other, adds to
    the output file the lines of the messages whose body decodes, in
    arrival order, and writes one log line per message: the reception
    notice with the topic for a decoded message, the decoding error
    otherwise. *)
Theorem writer_handler_lines (msgs : list Message) :
  forall p : Proc LineSink.FileWriter,
    LineSink.mu (self p) = false ->
    (forall n, fault (env (world p)) n = None) ->
    exists p',
      one_by_one LineSink.messageHandler msgs p
        = Returns (replicate (length msgs) tt) p' /\
      self p' = self p /\
      content (world p') (LineSink.filePath (self p)) =
        content (world p) (LineSink.filePath (self p))
          +:+ lines_from (clock (env (world p))) (ticks (world p)) (decoded msgs) /\
      stderr (world p') = stderr (world p) ++ (writer_log <$> msgs).
Proof.
  induction msgs as [|msg rest IH]; intros p Hmu Hcalm.
  - exists p. simpl. rewrite append_empty_r, app_nil_r. repeat split.
  - simpl. unfold bind. rewrite (writer_handler_eval msg p Hmu).
    unfold decoded. simpl. fold (decoded rest).
    unfold write_result, answer, answer_at. rewrite !Hcalm.
    destruct (Unmarshal (Payload msg)) as [payload|err] eqn:Hdec; simpl.
    + set (p1 := {| self := self p; world := logged _ (after_write payload p) |}).
      destruct (IH p1 Hmu Hcalm) as (p' & Hrun & Hself & Hc & Hlog).
      rewrite Hrun. exists p'. split; [reflexivity|]. split; [assumption|]. split.
      * simpl in Hc. rewrite Hc. unfold content at 1. simpl.
        rewrite lookup_insert_eq. simpl. unfold answer_at. rewrite Hcalm. simpl.
        rewrite str_take_all, append_assoc. reflexivity.
      * rewrite Hlog. simpl. rewrite <- app_assoc. simpl.
        unfold writer_log at 2. now rewrite Hdec.
    + set (p1 := {| self := self p; world := logged _ (world p) |}).
      destruct (IH p1 Hmu Hcalm) as (p' & Hrun & Hself & Hc & Hlog).
      rewrite Hrun. exists p'. split; [reflexivity|]. split; [assumption|].
      split; [exact Hc|]. rewrite Hlog. simpl. rewrite <- app_assoc. simpl.
      unfold writer_log at 2. now rewrite Hdec.
Qed.

(** X7. Each handler writes exactly one log line per message, and its
    text tells what happened.  A body that does not decode is reported
    with the topic and the decoding error by both handlers.  Otherwise
    the Line Sink handler reports a failed open as [failed to open output
    file], a failed write as [failed to write to file], and a success
    with the topic; the JSON Store handler reports a failed create as
    [failed to create output file], and both an encoding failure and a
    failed write of the encoded text as [failed to encode JSON], and a
    success with the topic and the whole payload. *)
Theorem handlers_log_outcome
    (msg : Message)
    (p : Proc LineSink.FileWriter) (q : Proc (JsonStore.MessageStore any)) :
  LineSink.mu (self p) = false ->
  JsonStore.mu (self q) = rw_unlocked ->
  exists p' q' l l',
    LineSink.messageHandler msg p = Returns tt p' /\
    JsonStore.messageHandler msg q = Returns tt q' /\
    stderr (world p') = stderr (world p) ++ [l] /\
    stderr (world q') = stderr (world q) ++ [l'] /\
    (forall err, Unmarshal (Payload msg) = inr err ->
       l = unmarshal_line msg err /\ l' = unmarshal_line msg err) /\
    (forall payload, Unmarshal (Payload msg) = inl payload ->
       (forall f, answer (world p) = Some f ->
          l = {| format := "Error saving message: %v";
                 args := ["failed to open output file: " +:+ cause f] |}) /\
       (forall f, answer (world p) = None -> answer_at 1 (world p) = Some f ->
          l = {| format := "Error saving message: %v";
                 args := ["failed to write to file: " +:+ cause f] |}) /\
       (answer (world p) = None -> answer_at 1 (world p) = None ->
          l = {| format := "Received message on topic %s"; args := [Topic msg] |}) /\
       (forall f, answer (world q) = Some f ->
          l' = {| format := "Error saving message: %v";
                  args := ["failed to create output file: " +:+ cause f] |}) /\
       (forall e, answer (world q) = None ->
          JsonStore.Marshal_indent (JsonStore.messages (self q')) = inr e ->
          l' = {| format := "Error saving message: %v";
                  args := ["failed to encode JSON: " +:+ Error e] |}) /\
       (forall text f, answer (world q) = None ->
          JsonStore.Marshal_indent (JsonStore.messages (self q')) = inl text ->
          answer_at 1 (world q) = Some f ->
          l' = {| format := "Error saving message: %v";
                  args := ["failed to encode JSON: " +:+ cause f] |}) /\
       (forall text, answer (world q) = None ->
          JsonStore.Marshal_indent (JsonStore.messages (self q')) = inl text ->
          answer_at 1 (world q) = None ->
          l' = {| format := "Received message on topic %s: %+v";
                  args := [Topic msg; Sprint_plus_v payload] |})).
Proof.
  intros Hp Hq.
  rewrite (writer_handler_eval msg p Hp), (store_handler_eval msg q Hq).
  destruct (Unmarshal (Payload msg)) as [payload|err].
  - unfold write_result, save_result. simpl.
    destruct (answer (world p)) as [f|]; destruct (answer (world q)) as [g|];
      destruct (answer_at 1 (world p)) as [f'|];
      destruct (JsonStore.Marshal_indent (JsonStore.messages (store_after payload q)))
        as [text|e] eqn:Henc;
      destruct (answer_at 1 (world q)) as [g'|];
      (eexists _, _, _, _; split; [reflexivity|]; split; [reflexivity|];
       split; [reflexivity|]; split; [reflexivity|]; split; [discriminate|]);
      intros ? [= <-]; repeat split; intros; simpl in *; try congruence;
      rewrite ?Henc;
      try match goal with
          | E : JsonStore.Marshal_indent _ = _, E' : JsonStore.Marshal_indent _ = _ |- _ =>
              rewrite E in E'; injection E' as <-
          end;
      simplify_eq; reflexivity.
  - eexists _, _, _, _. split; [reflexivity|]. split; [reflexivity|].
    split; [reflexivity|]. split; [reflexivity|].
    split; [intros ? [= <-]; split; reflexivity | discriminate].
Qed.
End Handlers.

(** ** Loading the configuration *)

Section ConfigFailures.
Context `{Viper.Codec}.
Import Viper Settings.

Lemma decode_all_strings (ss : list string) : decode_all (VString <$> ss) = inl ss.
Proof.
  induction ss as [|s ss IH]; [reflexivity|].
  change (VString <$> s :: ss) with (VString s :: (VString <$> ss)).
  cbn [decode_all decode_string]. now rewrite IH.
Qed.

(** X8. [loadConfig] always returns and its only effect on the world is
    the one read of the file.  A failed read, a missing file and a text
    the reader rejects are all reported as [failed to read config file]
    around the cause; a value of the wrong kind as [failed to unmarshal
    config]; an empty broker as [mqtt.broker is required], also when the
    topics are missing too; and an empty list of topics, with a broker, as
    [at least one mqtt.topic is required]. *)
Theorem loadConfig_failures (d path : string) (p : Proc State) :
  exists res p',
    loadConfig_with d path p = Returns res p' /\
    world p' = issued (world p) /\
    (forall f, answer (world p) = Some f ->
       res = inr (Errorf_w "failed to read config file" (Cause (cause f)))) /\
    (answer (world p) = None -> files (world p) !! path = None ->
       res = inr (Errorf_w "failed to read config file"
                    (Cause ("open " +:+ path +:+ ": no such file or directory")))) /\
    (forall text e,
       answer (world p) = None -> files (world p) !! path = Some text ->
       parse_config "yaml" text = inr e ->
       res = inr (Errorf_w "failed to read config file" e)) /\
    (forall text settings e,
       answer (world p) = None -> files (world p) !! path = Some text ->
       parse_config "yaml" text = inl settings ->
       decode_config (loaded d path settings (self p)) = inr e ->
       res = inr (Errorf_w "failed to unmarshal config" e)) /\
    (forall text settings c,
       answer (world p) = None -> files (world p) !! path = Some text ->
       parse_config "yaml" text = inl settings ->
       decode_config (loaded d path settings (self p)) = inl c ->
       Broker (MQTT c) = "" ->
       res = inr (Errorf "mqtt.broker is required")) /\
    (forall text settings c,
       answer (world p) = None -> files (world p) !! path = Some text ->
       parse_config "yaml" text = inl settings ->
       decode_config (loaded d path settings (self p)) = inl c ->
       Broker (MQTT c) <> "" -> Topics (MQTT c) = [] ->
       res = inr (Errorf "at least one mqtt.topic is required")).
Proof.
  destruct (answer (world p)) as [f|] eqn:Hans.
  { eexists _, _. split.
    { unfold loadConfig_with, bind, SetConfigFile, SetConfigType, SetDefault,
        ReadInConfig, modify, gets, bind, ReadFile. simpl. rewrite Hans. reflexivity. }
    split; [reflexivity|].
    split; [now intros ? [= <-]|]. repeat split; discriminate. }
  destruct (files (world p) !! path) as [text|] eqn:Hfile.
  2: { eexists _, _. split.
    { unfold loadConfig_with, bind, SetConfigFile, SetConfigType, SetDefault,
        ReadInConfig, modify, gets, bind, ReadFile. simpl. rewrite Hans, Hfile.
      reflexivity. }
    split; [reflexivity|].
    split; [discriminate|]. split; [reflexivity|]. repeat split; discriminate. }
  destruct (parse_config "yaml" text) as [settings|e] eqn:Hyaml.
  2: { eexists _, _. split.
    { unfold loadConfig_with, bind, SetConfigFile, SetConfigType, SetDefault,
        ReadInConfig, modify, gets, bind, ReadFile. simpl. rewrite Hans, Hfile.
      simpl. rewrite Hyaml. reflexivity. }
    split; [reflexivity|].
    split; [discriminate|]. split; [discriminate|].
    split; [intros ? ? _ [= <-]; congruence|].
    repeat split; intros ? ? ? _ [= <-]; congruence. }
  rewrite (loadConfig_with_eval d path text settings p Hans Hfile Hyaml).
  eexists _, _. split; [reflexivity|]. split; [reflexivity|].
  split; [discriminate|]. split; [discriminate|].
  split; [intros ? ? _ [= <-]; congruence|].
  repeat split; intros ? ? ? _ [= <-] Hy; rewrite Hyaml in Hy; injection Hy as <-.
  - now intros ->.
  - intros -> ->. reflexivity.
  - intros -> Hb Ht. destruct (String.eqb_spec (Broker (MQTT c)) ""); [contradiction|].
    now rewrite Ht.
Qed.

(** X9. In a process whose viper instance has no default yet, a
    configuration file that gives a broker and at least one topic, and
    whose values have the kinds of their fields, always loads: the result
    holds the values of the file, 1883 for a missing port, the empty
    string for a missing user name or password, and the program's default
    for a missing output file.  A port that fits a Go [int] and an output
    file that the file does set are taken as they are, with no further
    check. *)
Theorem loadConfig_well_kinded
    (d path text : string) (settings : gmap string setting) (p : Proc State)
    (broker : string) (topics : list string)
    (port : option Z) (username password output : option string) :
  defaults (self p) = ∅ ->
  answer (world p) = None ->
  files (world p) !! path = Some text ->
  parse_config "yaml" text = inl settings ->
  settings !! "mqtt.broker" = Some (VString broker) ->
  settings !! "mqtt.topics" = Some (VList (VString <$> topics)) ->
  settings !! "mqtt.port" = VInt <$> port ->
  (forall z, port = Some z ->
     (-9223372036854775808 <= z <= 9223372036854775807)%Z) ->
  settings !! "mqtt.username" = VString <$> username ->
  settings !! "mqtt.password" = VString <$> password ->
  settings !! "output_file" = VString <$> output ->
  broker <> "" -> topics <> [] ->
  loadConfig_with d path p =
    Returns
      (inl {| MQTT := {| Broker := broker;
                         Port := default 1883%Z port;
                         Username := default "" username;
                         Password := default "" password;
                         Topics := topics |};
              OutputFile := default d output |})
      {| self := loaded d path settings (self p); world := issued (world p) |}.
Proof.
  intros Hfresh Hans Hfile Hyaml Hb Ht Hport Hint Hu Hpw Hout Hbne Htne.
  rewrite (loadConfig_with_eval d path text settings p Hans Hfile Hyaml).
  unfold decode_config, field, lookup_setting, loaded. simpl.
  rewrite Hb, Ht, Hport, Hu, Hpw, Hout, Hfresh. simpl.
  rewrite decode_all_strings.
  assert (Hp' : match match VInt <$> port with
                      | Some x => Some x
                      | None => (<["output_file" := VString d]>
                                   (<["mqtt.port" := VInt 1883]> (∅ : gmap string setting)))
                                  !! "mqtt.port"
                      end with
                | Some x => decode_int x
                | None => inl 0%Z
                end = inl (default 1883%Z port)).
  { destruct port as [z|]; simpl.
    - assert (Hz : is_int z = true).
      { unfold is_int. specialize (Hint z eq_refl). apply andb_true_intro.
        split; apply Z.leb_le; lia. }
      now rewrite Hz.
    - rewrite lookup_insert_ne, lookup_insert_eq by done. reflexivity. }
  rewrite Hp'. clear Hp'.
  destruct topics as [|t ts]; [contradiction|].
  destruct username, password, output; simpl;
    rewrite ?lookup_insert_eq, ?lookup_insert_ne, ?lookup_empty by done; simpl;
    (destruct (String.eqb_spec broker "") as [|_]; [contradiction|]); reflexivity.
Qed.
End ConfigFailures.

(** ** Progress under a lock *)

Section Progress.
Context {S : Type} (free owned : S -> bool).
Context {A : Type}.
Import Threads.

Lemma inv_progress (pool0 : list (Prog S A)) (s0 : S) st :
  Forall (guarded free owned) pool0 ->
  inv free owned pool0 s0 st ->
  Forall finished st.2 \/ exists st', turn st st'.
Proof.
  intros Hguard (Hlen & l & sb & Hser & Hnd & Hdone & Hcase).
  destruct st as [s pool]. simpl in *.
  destruct Hcase as [(Hfree & -> & Hrest) | (Hheld & o & c & c0 & _ & Hpo & _ & Hcrit & _)].
  - destruct (decide (Forall (fun i => i ∈ l.*1) (seq 0 (length pool0)))) as [Hall|Hsome].
    + left. apply Forall_lookup. intros i c Hi.
      assert (Hin : i ∈ l.*1).
      { rewrite Forall_forall in Hall. apply Hall, elem_of_seq.
        apply lookup_lt_Some in Hi. lia. }
      apply list_elem_of_fmap in Hin as ([j a] & -> & Hin). simpl in Hi.
      rewrite (Hdone _ _ Hin) in Hi. injection Hi as <-. exact I.
    + right. apply not_Forall_Exists in Hsome; [|intros i; apply _].
      apply Exists_exists in Hsome as (i & Hi & Hnotin).
      apply elem_of_seq in Hi.
      destruct (lookup_lt_is_Some_2 pool0 i) as [c0 Hc0]; [lia|].
      pose proof (Forall_lookup_1 _ _ _ _ Hguard Hc0) as Hg.
      destruct c0 as [a|r|X c k]; simpl in Hg; try contradiction.
      destruct Hg as [_ Hg]. destruct (Hg _ Hfree) as (x & s' & Hc & _).
      eexists. eapply (turn_returns i); [|exact Hc].
      rewrite (Hrest i Hnotin). exact Hc0.
  - right. destruct c as [a|r|X c k]; simpl in Hcrit; try contradiction.
    destruct (Hcrit _ Hheld) as (x & s' & Hc & _).
    eexists. eapply (turn_returns o); eassumption.
Qed.

Lemma inv_no_fail (pool0 : list (Prog S A)) (s0 : S) st :
  Forall (guarded free owned) pool0 ->
  inv free owned pool0 s0 st ->
  Forall (fun c => forall r, c <> Fail r) st.2.
Proof.
  intros Hguard (Hlen & l & sb & Hser & Hnd & Hdone & Hcase).
  destruct st as [s pool]. simpl in *.
  apply Forall_lookup. intros i c Hi r ->.
  assert (Hnotin : i ∉ l.*1).
  { intros Hin. apply list_elem_of_fmap in Hin as ([j a] & -> & Hin). simpl in Hi.
    rewrite (Hdone _ _ Hin) in Hi. discriminate. }
  assert (Hfrom : pool0 !! i = Some (Fail r) -> False).
  { intros Hi0. pose proof (Forall_lookup_1 _ _ _ _ Hguard Hi0) as Hg. exact Hg. }
  destruct Hcase as [(_ & _ & Hrest) | (_ & o & c & c0 & _ & Hpo & _ & Hcrit & _ & Hrest)].
  - apply Hfrom. now rewrite <- (Hrest i Hnotin).
  - destruct (decide (i = o)) as [->|Hne].
    + rewrite Hi in Hpo. injection Hpo as <-. exact Hcrit.
    + apply Hfrom. now rewrite <- (Hrest i Hnotin Hne).
Qed.
End Progress.

Section SinksProgress.
Context {any : Type} `{Dyn any} `{JsonStore.Encoder any}.
Import Threads.

(** X10. Goroutines that each make one call of the sink never get stuck
    and never panic, whatever system calls fail: in every state they can
    reach, either every call has returned or some goroutine can take a
    turn, and no call has ended in a panic.  In particular no path through
    [WriteMessage] or [AddMessage] leaves the lock held. *)
Theorem sinks_never_deadlock
    (payloads : list (GoMap any))
    (p p' : Proc LineSink.FileWriter)
    (pool' : list (Prog (Proc LineSink.FileWriter) (option error)))
    (q q' : Proc (JsonStore.MessageStore any))
    (qpool' : list (Prog (Proc (JsonStore.MessageStore any)) (option error))) :
  LineSink.mu (self p) = false ->
  rtc turn (p, LineSink.WriteMessage_steps <$> payloads) (p', pool') ->
  JsonStore.mu (self q) = rw_unlocked ->
  rtc turn (q, JsonStore.AddMessage_steps <$> payloads) (q', qpool') ->
  ((Forall finished pool' \/ exists st, turn (p', pool') st) /\
   Forall (fun c => forall r, c <> Fail r) pool') /\
  ((Forall finished qpool' \/ exists st, turn (q', qpool') st) /\
   Forall (fun c => forall r, c <> Fail r) qpool').
Proof.
  intros Hp Hturns Hq Hqturns. split.
  - assert (Hguard : Forall (guarded fw_free fw_owned)
                       (LineSink.WriteMessage_steps <$> payloads)).
    { apply Forall_fmap, Forall_forall. intros x _. apply WriteMessage_steps_guarded. }
    assert (Hinv : inv fw_free fw_owned (LineSink.WriteMessage_steps <$> payloads) p
                     (p', pool')).
    { eapply (inv_turns fw_free fw_owned fw_owned_not_free); [exact Hguard| |exact Hturns].
      apply inv_init. unfold fw_free. now rewrite Hp. }
    split.
    + exact (inv_progress _ _ _ _ _ Hguard Hinv).
    + exact (inv_no_fail _ _ _ _ _ Hguard Hinv).
  - assert (Hguard : Forall (guarded (@ms_free any) (@ms_owned any))
                       (JsonStore.AddMessage_steps <$> payloads)).
    { apply Forall_fmap, Forall_forall. intros x _. apply AddMessage_steps_guarded. }
    assert (Hinv : inv (@ms_free any) (@ms_owned any)
                     (JsonStore.AddMessage_steps <$> payloads) q (q', qpool')).
    { eapply (inv_turns _ _ ms_owned_not_free); [exact Hguard| |exact Hqturns].
      apply inv_init. unfold ms_free. now rewrite Hq. }
    split.
    + exact (inv_progress _ _ _ _ _ Hguard Hinv).
    + exact (inv_no_fail _ _ _ _ _ Hguard Hinv).
Qed.

(** X11. Concurrent calls of [WriteMessage] are serialized also when
    system calls fail: when all have ended, the state and the results are
    those of the same calls made one after the other in some order; the
    writer and the table of open files are as before, the output file has
    only been added to, and no other file has changed. *)
Theorem writers_serialize_under_failures
    (payloads : list (GoMap any))
    (p p' : Proc LineSink.FileWriter)
    (pool' : list (Prog (Proc LineSink.FileWriter) (option error))) :
  LineSink.mu (self p) = false ->
  rtc turn (p, LineSink.WriteMessage_steps <$> payloads) (p', pool') ->
  Forall finished pool' ->
  exists order rs added,
    order ≡ₚ payloads /\
    one_by_one LineSink.WriteMessage order p = Returns rs p' /\
    pool' ≡ₚ Done <$> rs /\
    self p' = self p /\
    fds (world p') = fds (world p) /\
    content (world p') (LineSink.filePath (self p)) =
      content (world p) (LineSink.filePath (self p)) +:+ added /\
    (forall path, path <> LineSink.filePath (self p) ->
       files (world p') !! path = files (world p) !! path).
Proof.
  intros Hp Hturns Hfin.
  destruct (serializable fw_free fw_owned fw_owned_not_free
              (LineSink.WriteMessage_steps <$> payloads) pool' p p')
    as (Hlen & l & Hser & Hnd & Hall & Hdone); try assumption.
  { apply Forall_fmap, Forall_forall. intros x _. apply WriteMessage_steps_guarded. }
  { unfold fw_free. now rewrite Hp. }
  rewrite length_fmap in Hlen, Hall.
  pose proof (picks_permutation payloads _ Hnd Hall) as Hperm.
  pose proof (serial_calls LineSink.WriteMessage_steps LineSink.WriteMessage
                WriteMessage_steps_agrees payloads l p p' Hser) as Hcalls.
  set (order := omap (fun i => payloads !! i) l.*1) in *.
  destruct (WriteMessages_extend order p Hp)
    as (rs & p'' & added & Hrun & _ & Hself & Hfds & Hcontent & Hother).
  rewrite Hrun in Hcalls. injection Hcalls as Hres <-.
  exists order, rs, added. split; [assumption|]. split; [assumption|].
  split; [|auto].
  assert (Hall' : forall i, i ∈ l.*1 <-> i < length pool') by (intros i; rewrite Hlen; apply Hall).
  assert (Heq : omap (fun i => pool' !! i) l.*1 = Done <$> l.*2).
  { clear -Hdone. induction l as [|[i a] l IH]; [reflexivity|].
    simpl. rewrite (Hdone i a) by (left). simpl. f_equal.
    apply IH. intros j b Hin. apply Hdone. now right. }
  etransitivity; [symmetry; apply (picks_permutation pool' _ Hnd Hall')|].
  rewrite Heq. now rewrite Hres.
Qed.
End SinksProgress.

(** ** The program *)

Section MainFacts.
Import Main Settings.
Context {Sink : Type} `{Calendar}.
Context `{Paho.Library (Message -> M (Proc Sink) unit)}.
Variable loadConfig : string -> M (Proc Viper.State) (Config + error).
Variable NewSink : string -> Sink.
Variable messageHandler : Message -> M (Proc Sink) unit.
Variable last_words : M (Proc (Process Sink)) unit.


Lemma subscribe_all_made (topics : list string) :
  forall (p : Proc (Process Sink)) (cl : Paho.Client (Message -> M (Proc Sink) unit)),
    client (self p) = Some cl ->
    (forall i, i < length topics -> answer_at i (world p) = None) ->
    subscribe_all messageHandler topics p =
      Returns None
        {| self :=
             with_client
               {| Paho.options := Paho.options cl;
                  Paho.connected := Paho.connected cl;
                  Paho.subscriptions :=
                    Paho.subscriptions cl ++ (subscription_of messageHandler <$> topics) |}
               (self p);
           world :=
             {| env := env (world p); files := files (world p); fds := fds (world p);
                ticks := ticks (world p); calls := length topics + calls (world p);
                stderr := stderr (world p) ++ (subscribed_line <$> topics) |} |}.
Proof.
  induction topics as [|tp rest IH]; intros [s w] cl Hcl Hok; simpl in *.
  - unfold ret, with_client. destruct s, cl, w. simpl in *. subst.
    now rewrite !app_nil_r.
  - unfold bind, Paho.Subscribe. simpl. rewrite Hcl.
    pose proof (Hok 0 ltac:(lia)) as Hfirst. unfold answer_at in Hfirst. simpl in Hfirst.
    unfold answer. rewrite Hfirst. simpl.
    erewrite IH; [|reflexivity|].
    + simpl. unfold with_client. simpl. rewrite <- !app_assoc. simpl.
      repeat f_equal. lia.
    + intros i Hi. specialize (Hok (S i) ltac:(lia)).
      unfold answer_at in *. simpl in *. now rewrite Nat.add_succ_r.
Qed.

Lemma subscribe_all_refused (pre post : list string) (tp : string) (f : Fault) :
  forall (p : Proc (Process Sink)) (cl : Paho.Client (Message -> M (Proc Sink) unit)),
    client (self p) = Some cl ->
    (forall i, i < length pre -> answer_at i (world p) = None) ->
    answer_at (length pre) (world p) = Some f ->
    subscribe_all messageHandler (pre ++ tp :: post) p =
      Returns (Some 1%Z)
        {| self :=
             with_client
               {| Paho.options := Paho.options cl;
                  Paho.connected := Paho.connected cl;
                  Paho.subscriptions :=
                    Paho.subscriptions cl ++ (subscription_of messageHandler <$> pre) |}
               (self p);
           world :=
             {| env := env (world p); files := files (world p); fds := fds (world p);
                ticks := ticks (world p); calls := S (length pre) + calls (world p);
                stderr :=
                  stderr (world p) ++ (subscribed_line <$> pre)
                    ++ [{| format := "Failed to subscribe to topic %s: %v";
                           args := [tp; cause f] |}] |} |}.
Proof.
  induction pre as [|tp' pre IH]; intros [s w] cl Hcl Hok Hfail; simpl in *.
  - unfold bind, Paho.Subscribe. simpl. rewrite Hcl.
    unfold answer_at in Hfail. simpl in Hfail. unfold answer. rewrite Hfail. simpl.
    unfold with_client. destruct s, cl. simpl in *. subst.
    now rewrite app_nil_r.
  - unfold bind, Paho.Subscribe. simpl. rewrite Hcl.
    pose proof (Hok 0 ltac:(lia)) as Hfirst. unfold answer_at in Hfirst. simpl in Hfirst.
    unfold answer. rewrite Hfirst. simpl.
    erewrite IH; [|reflexivity| |].
    + simpl. unfold with_client. simpl. rewrite <- !app_assoc. simpl.
      repeat f_equal. lia.
    + intros i Hi. specialize (Hok (S i) ltac:(lia)).
      unfold answer_at in *. simpl in *. now rewrite Nat.add_succ_r.
    + unfold answer_at in *. simpl in *. now rewrite Nat.add_succ_r.
Qed.

Lemma main_with_bad_config (args : list string) (p : Proc (Process Sink))
    (err : error) (v : Proc Viper.State) :
  loadConfig (config_path args) (viper_view p) = Returns (inr err) v ->
  main_with loadConfig NewSink messageHandler last_words args p =
    Returns 1%Z
      {| self := {| viper := self v; sink := sink (self p);
                    client := client (self p); signals := signals (self p) |};
         world :=
           logged {| format := "Failed to load configuration: %v"; args := [Error err] |}
             (world v) |}.
Proof.
  intros Hload. unfold main_with, bind, on_viper.
  fold (config_path args). fold (viper_view p). rewrite Hload. reflexivity.
Qed.


Lemma main_with_refused (args : list string) (p : Proc (Process Sink))
    (c : Config) (v : Proc Viper.State)
    (pre post : list string) (tp : string) (f : Fault) :
  loadConfig (config_path args) (viper_view p) = Returns (inl c) v ->
  answer (world v) = None ->
  Topics (MQTT c) = pre ++ tp :: post ->
  (forall i, i < length pre -> answer_at (S i) (world v) = None) ->
  answer_at (S (length pre)) (world v) = Some f ->
  main_with loadConfig NewSink messageHandler last_words args p =
    Returns 1%Z
      {| self := {| viper := self v; sink := Some (NewSink (OutputFile c));
                    client := Some (client_with messageHandler c (now (world v)) true pre);
                    signals := signals (self p) |};
         world :=
           {| env := env (world v); files := files (world v); fds := fds (world v);
              ticks := S (ticks (world v));
              calls := S (length pre) + S (calls (world v));
              stderr :=
                (stderr (world v) ++ config_lines (config_path args) c
                   ++ [{| format := "Connected to MQTT broker"; args := [] |}])
                  ++ (subscribed_line <$> pre)
                  ++ [{| format := "Failed to subscribe to topic %s: %v";
                         args := [tp; cause f] |}] |} |}.
Proof.
  intros Hload Hans Htopics Hok Hfail. unfold main_with, bind, on_viper.
  fold (config_path args). fold (viper_view p). rewrite Hload.
  unfold Paho.Connect, answer in *. simpl. rewrite Hans. simpl.
  rewrite Htopics.
  erewrite subscribe_all_refused; [|reflexivity| |].
  - unfold ret, with_client, client_with, built_options, now. simpl.
    rewrite <- !app_assoc. reflexivity.
  - intros i Hi. specialize (Hok i Hi). unfold answer_at in *. simpl in *.
    now rewrite Nat.add_succ_r.
  - unfold answer_at in *. simpl in *. rewrite Nat.add_succ_r. exact Hfail.
Qed.

Lemma main_with_served (args : list string) (p : Proc (Process Sink))
    (c : Config) (v : Proc Viper.State) (s : Signal) (rest : list Signal) :
  world_only last_words ->
  loadConfig (config_path args) (viper_view p) = Returns (inl c) v ->
  answer (world v) = None ->
  (forall i, i < length (Topics (MQTT c)) -> answer_at (S i) (world v) = None) ->
  signals (self p) = s :: rest ->
  exists w',
    main_with loadConfig NewSink messageHandler last_words args p =
      Returns 0%Z
        {| self := {| viper := self v; sink := Some (NewSink (OutputFile c));
                      client :=
                        Some (client_with messageHandler c (now (world v)) false (Topics (MQTT c)));
                      signals := rest |};
           world := w' |}.
Proof.
  intros Hlast Hload Hans Hok Hsig. unfold main_with, bind, on_viper.
  fold (config_path args). fold (viper_view p). rewrite Hload.
  unfold Paho.Connect, answer in *. simpl. rewrite Hans. simpl.
  erewrite subscribe_all_made; [|reflexivity|].
  2: { intros i Hi. specialize (Hok i Hi). unfold answer_at in *. simpl in *.
       now rewrite Nat.add_succ_r. }
  unfold receive_signal. simpl. rewrite Hsig.
  unfold Paho.Disconnect. simpl.
  match goal with |- context [last_words ?st] => destruct (Hlast st) as (x & w' & ->) end.
  exists w'. destruct x. reflexivity.
Qed.

Lemma main_with_waits (args : list string) (p : Proc (Process Sink))
    (c : Config) (v : Proc Viper.State) :
  loadConfig (config_path args) (viper_view p) = Returns (inl c) v ->
  answer (world v) = None ->
  (forall i, i < length (Topics (MQTT c)) -> answer_at (S i) (world v) = None) ->
  signals (self p) = [] ->
  main_with loadConfig NewSink messageHandler last_words args p = Blocks.
Proof.
  intros Hload Hans Hok Hsig. unfold main_with, bind, on_viper.
  fold (config_path args). fold (viper_view p). rewrite Hload.
  unfold Paho.Connect, answer in *. simpl. rewrite Hans. simpl.
  erewrite subscribe_all_made; [|reflexivity|].
  2: { intros i Hi. specialize (Hok i Hi). unfold answer_at in *. simpl in *.
       now rewrite Nat.add_succ_r. }
  unfold receive_signal. simpl. now rewrite Hsig.
Qed.
End MainFacts.

Section ConfigWorld.
Context `{Viper.Codec}.
Import Viper Settings.

(** [loadConfig] issues one system call, the read of the file, and
    leaves the rest of the world alone. *)
Lemma loadConfig_with_world (d path : string) (p v : Proc State)
    (res : Config + error) :
  loadConfig_with d path p = Returns res v -> world v = issued (world p).
Proof.
  unfold loadConfig_with, bind, SetConfigFile, SetConfigType, SetDefault,
    ReadInConfig, modify, gets, bind, ReadFile. simpl.
  destruct (answer (world p)); simpl; [now intros [= <- <-]|].
  destruct (files (world p) !! path) as [text|]; simpl; [|now intros [= <- <-]].
  destruct (parse_config "yaml" text) as [settings|e]; simpl; [|now intros [= <- <-]].
  unfold Unmarshal_Config, bind, gets, ret. simpl.
  destruct (decode_config _) as [c|e]; [|now intros [= <- <-]].
  destruct (String.eqb _ _); [now intros [= <- <-]|].
  destruct (Nat.eqb _ _); now intros [= <- <-].
Qed.
End ConfigWorld.

Section Programs.
Import Main Settings.
Context {any : Type} `{Dyn any} `{Decoder any} `{JsonStore.Encoder any}.
Context `{Viper.Codec} `{Calendar}.
Context `{Paho.Library (Message -> M (Proc LineSink.FileWriter) unit)}.
Context `{Paho.Library (Message -> M (Proc (JsonStore.MessageStore any)) unit)}.

(** X12. When [loadConfig] fails, [main] of either program logs [Failed
    to load configuration] with the error and exits with status 1: no
    sink and no client is created, and no file is created or changed. *)
Theorem main_exits_on_bad_config (args : list string)
    (p : Proc (Process LineSink.FileWriter))
    (q : Proc (Process (JsonStore.MessageStore any)))
    (err err' : error) (v v' : Proc Viper.State) :
  LineSink.loadConfig (config_path args) (viper_view p) = Returns (inr err) v ->
  JsonStore.loadConfig (config_path args) (viper_view q) = Returns (inr err') v' ->
  (exists p',
     LineSinkCmd.main args p = Returns 1%Z p' /\
     sink (self p') = sink (self p) /\
     client (self p') = client (self p) /\
     files (world p') = files (world p) /\
     fds (world p') = fds (world p) /\
     stderr (world p') =
       stderr (world p)
         ++ [{| format := "Failed to load configuration: %v"; args := [Error err] |}]) /\
  (exists q',
     JsonStoreCmd.main args q = Returns 1%Z q' /\
     sink (self q') = sink (self q) /\
     client (self q') = client (self q) /\
     files (world q') = files (world q) /\
     fds (world q') = fds (world q) /\
     stderr (world q') =
       stderr (world q)
         ++ [{| format := "Failed to load configuration: %v"; args := [Error err'] |}]).
Proof.
  intros Hp Hq. split.
  - unfold LineSinkCmd.main. rewrite (main_with_bad_config _ _ _ _ _ _ _ _ Hp).
    eexists. split; [reflexivity|]. simpl.
    rewrite (loadConfig_with_world _ _ _ _ _ Hp). repeat split.
  - unfold JsonStoreCmd.main. rewrite (main_with_bad_config _ _ _ _ _ _ _ _ Hq).
    eexists. split; [reflexivity|]. simpl.
    rewrite (loadConfig_with_world _ _ _ _ _ Hq). repeat split.
Qed.


(** X14. Once connected, [main] of either program subscribes to the
    configured topics in their order, each at QoS 0 with the handler.
    When a subscription fails it exits with status 1, holding the
    subscriptions made before and still connected.  When all succeed it
    waits for a signal, for ever when none comes; at the first signal it
    disconnects and ends with status 0, holding a subscription for every
    topic. *)
Theorem main_subscribes_in_order (args : list string)
    (p : Proc (Process LineSink.FileWriter))
    (q : Proc (Process (JsonStore.MessageStore any)))
    (c c' : Config) (v v' : Proc Viper.State) :
  LineSink.loadConfig (config_path args) (viper_view p) = Returns (inl c) v ->
  answer (world v) = None ->
  JsonStore.loadConfig (config_path args) (viper_view q) = Returns (inl c') v' ->
  answer (world v') = None ->
  ((forall pre tp post f,
      Topics (MQTT c) = pre ++ tp :: post ->
      (forall i, i < length pre -> answer_at (S i) (world v) = None) ->
      answer_at (S (length pre)) (world v) = Some f ->
      exists p',
        LineSinkCmd.main args p = Returns 1%Z p' /\
        client (self p') =
          Some (client_with LineSink.messageHandler c (now (world p)) true pre)) /\
   ((forall i, i < length (Topics (MQTT c)) -> answer_at (S i) (world v) = None) ->
    (signals (self p) = [] -> LineSinkCmd.main args p = Blocks) /\
    (forall s rest, signals (self p) = s :: rest ->
       exists p',
         LineSinkCmd.main args p = Returns 0%Z p' /\
         signals (self p') = rest /\
         client (self p') =
           Some (client_with LineSink.messageHandler c (now (world p)) false
                   (Topics (MQTT c)))))) /\
  ((forall pre tp post f,
      Topics (MQTT c') = pre ++ tp :: post ->
      (forall i, i < length pre -> answer_at (S i) (world v') = None) ->
      answer_at (S (length pre)) (world v') = Some f ->
      exists q',
        JsonStoreCmd.main args q = Returns 1%Z q' /\
        client (self q') =
          Some (client_with JsonStore.messageHandler c' (now (world q)) true pre)) /\
   ((forall i, i < length (Topics (MQTT c')) -> answer_at (S i) (world v') = None) ->
    (signals (self q) = [] -> JsonStoreCmd.main args q = Blocks) /\
    (forall s rest, signals (self q) = s :: rest ->
       exists q',
         JsonStoreCmd.main args q = Returns 0%Z q' /\
         signals (self q') = rest /\
         client (self q') =
           Some (client_with JsonStore.messageHandler c' (now (world q)) false
                   (Topics (MQTT c')))))).
Proof.
  intros Hp Hans Hq Hans'.
  pose proof (loadConfig_with_world _ _ _ _ _ Hp) as Hw.
  pose proof (loadConfig_with_world _ _ _ _ _ Hq) as Hw'.
  assert (Hnow : now (world v) = now (world p)) by now rewrite Hw.
  assert (Hnow' : now (world v') = now (world q)) by now rewrite Hw'.
  split; (split; [intros pre tp post f Htopics Hok Hfail | intros Hok; split]).
  - unfold LineSinkCmd.main.
    rewrite (main_with_refused _ _ _ _ _ _ _ _ _ _ _ _ Hp Hans Htopics Hok Hfail).
    eexists. split; [reflexivity|]. simpl. now rewrite Hnow.
  - intros Hsig. unfold LineSinkCmd.main.
    apply (main_with_waits _ _ _ _ _ _ _ _ Hp Hans Hok Hsig).
  - intros s rest Hsig. unfold LineSinkCmd.main.
    destruct (main_with_served LineSink.loadConfig LineSink.NewFileWriter
                LineSink.messageHandler (ret tt) args p c v s rest) as (w' & ->);
      try assumption.
    { intros [x w]. now eexists _, _. }
    eexists. split; [reflexivity|]. simpl. now rewrite Hnow.
  - unfold JsonStoreCmd.main.
    rewrite (main_with_refused _ _ _ _ _ _ _ _ _ _ _ _ Hq Hans' Htopics Hok Hfail).
    eexists. split; [reflexivity|]. simpl. now rewrite Hnow'.
  - intros Hsig. unfold JsonStoreCmd.main.
    apply (main_with_waits _ _ _ _ _ _ _ _ Hq Hans' Hok Hsig).
  - intros s rest Hsig. unfold JsonStoreCmd.main.
    match goal with
    | |- context [main_with ?l ?n ?h ?lw args q] =>
        destruct (main_with_served l n h lw args q c' v' s rest) as (w' & ->);
          try assumption
    end.
    { intros [x w]. now eexists _, _. }
    eexists. split; [reflexivity|]. simpl. now rewrite Hnow'.
Qed.
End Programs.

(** ** The JSON text read back *)

Section JsonStrings.
Import Json.

Lemma chr_code (a : ascii) : chr (code a) = a.
Proof. apply ascii_N_embedding. Qed.

Lemma between_bounds (lo hi : N) (a : ascii) :
  between lo hi a = true -> (lo <= code a <= hi)%N.
Proof.
  unfold between. intros Hb. apply andb_prop in Hb as [Hlo Hhi].
  split; now apply N.leb_le.
Qed.

Lemma prepend_app (u v : list ascii) (r : option (list ascii * list ascii)) :
  prepend u (prepend v r) = prepend (u ++ v) r.
Proof. destruct r as [[w rest]|]; simpl; [now rewrite app_assoc | reflexivity]. Qed.

(** Bytes still to copy are copied whatever they are. *)
Lemma unescape_copy (u t : list ascii) :
  unescape (length u) (u ++ t) = prepend u (unescape 0 t).
Proof.
  induction u as [|a u IH]; simpl.
  - destruct (unescape 0 t) as [[v rest]|]; reflexivity.
  - rewrite IH. apply (prepend_app [a] u).
Qed.

(** An ASCII character comes back from its escaped form. *)
Lemma unescape_ascii (a : ascii) (t : list ascii) :
  (code a <? 128)%N = true ->
  unescape 0 (escape_ascii a ++ t) = prepend [a] (unescape 0 t).
Proof.
  destruct a as [b0 b1 b2 b3 b4 b5 b6 b7].
  destruct b7; [destruct b0, b1, b2, b3, b4, b5, b6; discriminate|]. intros _.
  destruct b0, b1, b2, b3, b4, b5, b6; reflexivity.
Qed.

(** A byte that is not ASCII begins a UTF-8 sequence or is replaced. *)
Lemma unescape_high (a : ascii) (r : list ascii) :
  (code a <? 128)%N = false ->
  unescape 0 (a :: r) =
    match utf8_width (a :: r) with
    | Some w => prepend [a] (unescape (pred w) r)
    | None => prepend replacement (unescape 0 r)
    end.
Proof.
  destruct a as [b0 b1 b2 b3 b4 b5 b6 b7].
  destruct b7; [|destruct b0, b1, b2, b3, b4, b5, b6; discriminate]. intros _.
  destruct b0, b1, b2, b3, b4, b5, b6; reflexivity.
Qed.

(** What [utf8_width] finds depends on the bytes of the sequence only,
    and a sequence that does not begin with an ASCII character holds
    none. *)
Lemma utf8_width_take (s : list ascii) (w : nat) :
  utf8_width s = Some w ->
  length (take w s) = w /\ 0 < w /\
  (forall t, utf8_width (take w s ++ t) = Some w).
Proof.
  destruct s as [|a r]; [discriminate|]. simpl.
  destruct (code a <? 128)%N eqn:Ha.
  { intros [= <-]. simpl. repeat split; [lia|]. intros t. now rewrite Ha. }
  destruct (between 194 223 a) eqn:H2.
  { destruct r as [|b r]; [discriminate|].
    destruct (cont b) eqn:Hb; [|discriminate].
    intros [= <-]. simpl. repeat split; [lia|]. intros t. now rewrite Ha, H2, Hb. }
  destruct (between 224 239 a) eqn:H3.
  { destruct r as [|b [|c r]]; try discriminate.
    match goal with |- context [if ?x then Some 3 else None] => destruct x eqn:Hbc end;
      [|discriminate].
    intros [= <-]. simpl. repeat split; [lia|]. intros t. now rewrite Ha, H2, H3, Hbc. }
  destruct (between 240 244 a) eqn:H4; [|discriminate].
  destruct r as [|b [|c [|d r]]]; try discriminate.
  match goal with |- context [if ?x then Some 4 else None] => destruct x eqn:Hbcd end;
    [|discriminate].
  intros [= <-]. simpl. repeat split; [lia|]. intros t. now rewrite Ha, H2, H3, H4, Hbcd.
Qed.

(** A well-formed sequence comes back from what the encoder writes for
    it. *)
Lemma unescape_chunk (s t : list ascii) (a : ascii) (r : list ascii) (w : nat) :
  s = a :: r ->
  (code a <? 128)%N = false ->
  utf8_width s = Some w ->
  unescape 0 (default (take w s) (separator (take w s)) ++ t)
    = prepend (take w s) (unescape 0 t).
Proof.
  intros -> Ha Hw.
  destruct (utf8_width_take _ _ Hw) as (Hlen & Hpos & Hsame).
  destruct w as [|w]; [lia|].
  change (take (S w) (a :: r)) with (a :: take w r) in *.
  destruct (separator (a :: take w r)) as [e|] eqn:Hsep.
  - simpl in Hsep.
    destruct (take w r) as [|b [|c [|? ?]]]; try discriminate.
    destruct ((code a =? 226) && (code b =? 128))%N eqn:Hab; [|discriminate].
    apply andb_prop in Hab as [Ha' Hb']. apply N.eqb_eq in Ha', Hb'.
    rewrite <- (chr_code a), <- (chr_code b), <- (chr_code c), Ha', Hb'.
    destruct (code c =? 168)%N eqn:Hc.
    + apply N.eqb_eq in Hc. rewrite Hc. injection Hsep as <-. reflexivity.
    + destruct (code c =? 169)%N eqn:Hc'; [|discriminate].
      apply N.eqb_eq in Hc'. rewrite Hc'. injection Hsep as <-. reflexivity.
  - change (unescape 0 (a :: (take w r ++ t)) = prepend (a :: take w r) (unescape 0 t)).
    rewrite (unescape_high a _ Ha).
    specialize (Hsame t). change (utf8_width (a :: (take w r ++ t)) = Some (S w)) in Hsame.
    rewrite Hsame.
    injection Hlen as Hlen. change (pred (S w)) with w. rewrite <- Hlen at 1.
    rewrite unescape_copy. apply (prepend_app [a]).
Qed.

Lemma valid_from_cons (fuel : nat) (a : ascii) (r : list ascii) :
  valid_from (S fuel) (a :: r) =
    match utf8_width (a :: r) with
    | Some w => valid_from fuel (drop w (a :: r))
    | None => false
    end.
Proof. reflexivity. Qed.

Lemma escape_from_cons (fuel : nat) (a : ascii) (r : list ascii) :
  escape_from (S fuel) (a :: r) =
    if (code a <? 128)%N then escape_ascii a ++ escape_from fuel r
    else
      match utf8_width (a :: r) with
      | Some w =>
          default (take w (a :: r)) (separator (take w (a :: r)))
            ++ escape_from fuel (drop w (a :: r))
      | None => backslash :: txt "ufffd" ++ escape_from fuel r
      end.
Proof. reflexivity. Qed.

(** The content of a string comes back from its escaped form. *)
Lemma unescape_escape_from (fuel : nat) :
  forall s t,
    length s <= fuel ->
    valid_from fuel s = true ->
    unescape 0 (escape_from fuel s ++ dquote :: t) = Some (s, t).
Proof.
  induction fuel as [|fuel IH]; intros s t Hlen Hvalid.
  - destruct s; [reflexivity | simpl in Hlen; lia].
  - destruct s as [|a r]; [reflexivity|].
    rewrite valid_from_cons in Hvalid. rewrite escape_from_cons.
    destruct (utf8_width (a :: r)) as [w|] eqn:Hw; [|discriminate].
    destruct (utf8_width_take _ _ Hw) as (Hlenw & Hpos & _).
    destruct (code a <? 128)%N eqn:Ha.
    + assert (w = 1) as -> by (simpl in Hw; rewrite Ha in Hw; congruence).
      change (drop 1 (a :: r)) with r in Hvalid.
      rewrite <- app_assoc, (unescape_ascii a _ Ha).
      rewrite (IH r t); [reflexivity | simpl in Hlen; lia | exact Hvalid].
    + rewrite <- app_assoc, (unescape_chunk _ _ a r w eq_refl Ha Hw).
      rewrite (IH (drop w (a :: r)) t).
      * simpl. now rewrite take_drop.
      * rewrite length_drop. simpl in *. lia.
      * exact Hvalid.
Qed.

Lemma length_txt (s : string) : length (txt s) = String.length s.
Proof. induction s as [|a s IH]; simpl; congruence. Qed.

Lemma unescape_escape (s : string) (t : list ascii) :
  valid_utf8 s = true ->
  unescape 0 (escape s ++ dquote :: t) = Some (txt s, t).
Proof.
  intros Hvalid. unfold escape. apply unescape_escape_from; [|exact Hvalid].
  now rewrite length_txt.
Qed.
End JsonStrings.

Section JsonValues.
Import Json.
Context {num : Type} `{Number num}.
Hypothesis show_number_text : writes_numbers.
Hypothesis read_show_number : reads_numbers.

Lemma skip_ws_newline (d : nat) (s : list ascii) :
  skip_ws (newline d ++ s) = skip_ws s.
Proof.
  unfold newline. simpl. induction d as [|d IH]; [reflexivity|]. simpl. exact IH.
Qed.

(** White space before a value is skipped. *)
Lemma parse_value_skip (fuel : nat) (s s' : list ascii) :
  skip_ws s = skip_ws s' ->
  parse_value fuel s = parse_value (num := num) fuel s'.
Proof. intros Heq. destruct fuel; [reflexivity|]. simpl. now rewrite Heq. Qed.

Lemma parse_value_newline (fuel d : nat) (s : list ascii) :
  parse_value fuel (newline d ++ s) = parse_value (num := num) fuel s.
Proof. apply parse_value_skip, skip_ws_newline. Qed.

Lemma parse_value_space (fuel : nat) (s : list ascii) :
  parse_value fuel (chr 32 :: s) = parse_value (num := num) fuel s.
Proof. now apply parse_value_skip. Qed.

Lemma parse_elements_unfold (fuel : nat) (s : list ascii) (acc : list (value num)) :
  parse_elements (S fuel) s acc =
    match parse_value fuel s with
    | Some (v, r) =>
        match skip_ws r with
        | b :: r' =>
            if (code b =? 44)%N then parse_elements fuel r' (v :: acc)
            else if (code b =? 93)%N then Some (JArray (reverse (v :: acc)), r')
            else None
        | [] => None
        end
    | None => None
    end.
Proof. reflexivity. Qed.

Lemma parse_members_unfold (fuel : nat) (s : list ascii)
    (acc : list (string * value num)) :
  parse_members (S fuel) s acc =
    match skip_ws s with
    | q :: r =>
        if (code q =? 34)%N then
          match unescape 0 r with
          | Some (k, r1) =>
              match skip_ws r1 with
              | c :: r2 =>
                  if (code c =? 58)%N then
                    match parse_value fuel r2 with
                    | Some (v, r3) =>
                        let acc' := (string_of_list_ascii k, v) :: acc in
                        match skip_ws r3 with
                        | b :: r4 =>
                            if (code b =? 44)%N then parse_members fuel r4 acc'
                            else if (code b =? 125)%N
                            then Some (JObject (list_to_map acc'), r4)
                            else None
                        | [] => None
                        end
                    | None => None
                    end
                  else None
              | [] => None
              end
          | None => None
          end
        else None
    | [] => None
    end.
Proof. reflexivity. Qed.

Lemma parse_value_string (fuel : nat) (r : list ascii) :
  parse_value (S fuel) (dquote :: r) =
    match unescape 0 r with
    | Some (str, rest) => Some (JString (num := num) (string_of_list_ascii str), rest)
    | None => None
    end.
Proof. reflexivity. Qed.

Lemma parse_value_array (fuel : nat) (r : list ascii) :
  parse_value (S fuel) (chr 91 :: r) =
    match skip_ws r with
    | b :: r' =>
        if (code b =? 93)%N then Some (JArray (num := num) [], r')
        else parse_elements fuel r []
    | [] => None
    end.
Proof. reflexivity. Qed.

Lemma parse_value_object (fuel : nat) (r : list ascii) :
  parse_value (S fuel) (chr 123 :: r) =
    match skip_ws r with
    | b :: r' =>
        if (code b =? 125)%N then Some (JObject (num := num) ∅, r')
        else parse_members fuel r []
    | [] => None
    end.
Proof. reflexivity. Qed.

Lemma parse_value_number (fuel : nat) (a : ascii) (r : list ascii) :
  (between 48 57 a || (code a =? 45)%N) = true ->
  parse_value (S fuel) (a :: r) =
    let '(t, rest) := span_number (a :: r) in
    if number_text t then
      match read_number (string_of_list_ascii t) with
      | Some n => Some (JNumber n, rest)
      | None => None
      end
    else None.
Proof.
  destruct a as [b0 b1 b2 b3 b4 b5 b6 b7].
  destruct b0, b1, b2, b3, b4, b5, b6, b7; try discriminate; intros _; reflexivity.
Qed.

Lemma span_number_app (t rest : list ascii) :
  forallb number_char t = true -> delimited rest ->
  span_number (t ++ rest) = (t, rest).
Proof.
  intros Ht Hrest. induction t as [|a t IH]; simpl in *.
  - destruct rest as [|b rest]; [reflexivity|]. simpl in *. now rewrite Hrest.
  - apply andb_prop in Ht as [Ha Ht]. now rewrite Ha, (IH Ht).
Qed.

Lemma skip_ws_starts (s t : list ascii) : starts s -> skip_ws (s ++ t) = s ++ t.
Proof. destruct s as [|a s]; [contradiction|]. simpl. now intros [-> _]. Qed.

Lemma block_starts (o c : ascii) (d : nat) (items : list (list ascii)) :
  starts [o] -> starts (block o c d items).
Proof. destruct items; exact id. Qed.

Lemma enc_value_starts (d : nat) (v : value num) : starts (enc_value d v).
Proof.
  destruct v as [|[]|n|s|l|m]; simpl; try (repeat split; reflexivity).
  - pose proof (show_number_text n) as Hn.
    destruct (txt (show_number n)) as [|a t]; [discriminate|]. simpl in Hn.
    apply andb_prop in Hn as [Ha _].
    destruct a as [b0 b1 b2 b3 b4 b5 b6 b7].
    destruct b0, b1, b2, b3, b4, b5, b6, b7; try discriminate; repeat split; reflexivity.
  - apply block_starts. repeat split; reflexivity.
  - apply block_starts. repeat split; reflexivity.
Qed.

Lemma commas_cons (d : nat) (x y : list ascii) (items : list (list ascii)) :
  commas d (x :: y :: items) = x ++ chr 44 :: newline d ++ commas d (y :: items).
Proof. simpl. now rewrite <- !app_assoc. Qed.

Lemma commas_one (d : nat) (x : list ascii) : commas d [x] = x.
Proof. apply app_nil_r. Qed.

Lemma length_commas_cons (d : nat) (x y : list ascii) (items : list (list ascii)) :
  length x + length (commas d (y :: items)) < length (commas d (x :: y :: items)).
Proof.
  rewrite commas_cons, length_app.
  change (length (chr 44 :: newline d ++ commas d (y :: items)))
    with (S (length (newline d ++ commas d (y :: items)))).
  rewrite length_app. lia.
Qed.

Lemma parse_elements_enc (di dc : nat) (l : list (value num)) :
  l <> [] ->
  (forall v, v ∈ l -> reads_back v) ->
  forall fuel acc rest,
    length (commas di (enc_value di <$> l)) < fuel ->
    parse_elements fuel
      (newline di ++ commas di (enc_value di <$> l) ++ newline dc ++ chr 93 :: rest) acc
      = Some (JArray (reverse acc ++ l), rest).
Proof.
  induction l as [|v l IH]; [contradiction|]. intros _ Hall fuel acc rest Hfuel.
  destruct fuel as [|fuel]; [lia|].
  rewrite parse_elements_unfold, parse_value_newline.
  destruct l as [|v' l'].
  - change (enc_value di <$> [v]) with [enc_value di v] in *.
    rewrite commas_one in *.
    rewrite (Hall v ltac:(left) di fuel); [|lia|reflexivity].
    rewrite skip_ws_newline. change (skip_ws (chr 93 :: rest)) with (chr 93 :: rest).
    change ((code (chr 93) =? 44)%N) with false.
    change ((code (chr 93) =? 93)%N) with true. cbv iota.
    now rewrite reverse_cons.
  - change (enc_value di <$> v :: v' :: l')
      with (enc_value di v :: enc_value di v' :: (enc_value di <$> l')) in *.
    pose proof (length_commas_cons di (enc_value di v) (enc_value di v')
                  (enc_value di <$> l')) as Hlen.
    rewrite commas_cons, <- !app_assoc.
    rewrite (Hall v ltac:(left) di fuel); [|lia|reflexivity].
    change (skip_ws ((chr 44 :: newline di ++ commas di (enc_value di v' :: (enc_value di <$> l')))
                       ++ newline dc ++ chr 93 :: rest))
      with (chr 44 :: (newline di ++ commas di (enc_value di v' :: (enc_value di <$> l')))
                       ++ newline dc ++ chr 93 :: rest).
    change ((code (chr 44) =? 44)%N) with true. cbv iota.
    rewrite <- app_assoc.
    change (enc_value di v' :: (enc_value di <$> l')) with (enc_value di <$> v' :: l') in *.
    rewrite IH; [|discriminate| |lia].
    + rewrite reverse_cons, <- app_assoc. reflexivity.
    + intros x Hx. apply Hall. now right.
Qed.

Lemma length_item (d : nat) (kv : string * value num) :
  length (enc_value d kv.2) < length (item d kv).
Proof.
  unfold item, member, quoted. simpl. rewrite !length_app. simpl. lia.
Qed.

(** Reading one member: its key, the colon and its value. *)
Lemma parse_member (d fuel : nat) (k : string) (v : value num) (tail : list ascii) :
  valid_utf8 k = true ->
  reads_back v ->
  length (enc_value d v) <= fuel ->
  delimited tail ->
  skip_ws (item d (k, v) ++ tail) = dquote :: (escape k ++ dquote :: txt ": " ++ enc_value d v ++ tail) /\
  unescape 0 (escape k ++ dquote :: txt ": " ++ enc_value d v ++ tail)
    = Some (txt k, txt ": " ++ enc_value d v ++ tail) /\
  parse_value fuel (chr 32 :: enc_value d v ++ tail) = Some (v, tail).
Proof.
  intros Hk Hv Hfuel Htail. split; [|split].
  - unfold item, member, quoted. simpl. now rewrite <- !app_assoc.
  - now apply unescape_escape.
  - rewrite parse_value_space. now apply Hv.
Qed.

Lemma parse_members_enc (di dc : nat) (P : list (string * value num)) :
  P <> [] ->
  (forall k v, (k, v) ∈ P -> valid_utf8 k = true /\ reads_back v) ->
  forall fuel acc rest,
    length (commas di (item di <$> P)) < fuel ->
    parse_members fuel
      (newline di ++ commas di (item di <$> P) ++ newline dc ++ chr 125 :: rest) acc
      = Some (JObject (list_to_map (reverse P ++ acc)), rest).
Proof.
  induction P as [|[k v] P IH]; [contradiction|]. intros _ Hall fuel acc rest Hfuel.
  destruct fuel as [|fuel]; [lia|].
  destruct (Hall k v ltac:(left)) as [Hk Hv].
  rewrite parse_members_unfold, skip_ws_newline.
  pose proof (length_item di (k, v)) as Hitem. change ((k, v).2) with v in Hitem.
  destruct P as [|kv' P'].
  - change (item di <$> [(k, v)]) with [item di (k, v)] in *.
    rewrite commas_one in *.
    destruct (parse_member di fuel k v (newline dc ++ chr 125 :: rest) Hk Hv)
      as (Hskip & Hkey & Hval); [lia|reflexivity|].
    rewrite Hskip. change ((code dquote =? 34)%N) with true. cbv iota.
    rewrite Hkey.
    change (skip_ws (txt ": " ++ ?t)) with (chr 58 :: chr 32 :: t).
    change ((code (chr 58) =? 58)%N) with true. cbv iota.
    rewrite Hval, skip_ws_newline.
    change (skip_ws (chr 125 :: rest)) with (chr 125 :: rest).
    change ((code (chr 125) =? 44)%N) with false.
    change ((code (chr 125) =? 125)%N) with true. cbv iota zeta.
    unfold txt. rewrite string_of_list_ascii_of_string.
    rewrite reverse_cons, reverse_nil. reflexivity.
  - change (item di <$> (k, v) :: kv' :: P')
      with (item di (k, v) :: item di kv' :: (item di <$> P')) in *.
    pose proof (length_commas_cons di (item di (k, v)) (item di kv') (item di <$> P'))
      as Hlen.
    rewrite commas_cons, <- !app_assoc, <- app_comm_cons, <- !app_assoc.
    destruct (parse_member di fuel k v
                (chr 44 :: newline di ++ commas di (item di kv' :: (item di <$> P'))
                   ++ newline dc ++ chr 125 :: rest) Hk Hv)
      as (Hskip & Hkey & Hval); [lia|reflexivity|].
    rewrite Hskip. change ((code dquote =? 34)%N) with true. cbv iota.
    rewrite Hkey.
    change (skip_ws (txt ": " ++ ?t)) with (chr 58 :: chr 32 :: t).
    change ((code (chr 58) =? 58)%N) with true. cbv iota.
    rewrite Hval.
    change (skip_ws (chr 44 :: ?t)) with (chr 44 :: t).
    change ((code (chr 44) =? 44)%N) with true. cbv iota zeta.
    unfold txt at 1. rewrite string_of_list_ascii_of_string.
    change (item di kv' :: (item di <$> P')) with (item di <$> kv' :: P') in *.
    rewrite IH; [|discriminate| |lia].
    + rewrite (reverse_cons _ (k, v)), <- app_assoc. reflexivity.
    + intros k0 v0 Hin. apply Hall. now right.
Qed.

Lemma block_cons (o c : ascii) (d : nat) (x : list ascii) (items : list (list ascii)) :
  block o c d (x :: items) =
    o :: newline (S d) ++ commas (S d) (x :: items) ++ newline d ++ [c].
Proof. reflexivity. Qed.

Lemma length_newline (d : nat) : 0 < length (newline d).
Proof. unfold newline. simpl. lia. Qed.

Lemma length_block_cons (o c : ascii) (d : nat) (x : list ascii)
    (items : list (list ascii)) :
  length (commas (S d) (x :: items)) + 3 < length (block o c d (x :: items)) + 1.
Proof.
  rewrite block_cons.
  change (length (o :: ?l)) with (S (length l)). rewrite !length_app.
  pose proof (length_newline (S d)). pose proof (length_newline d).
  change (length [c]) with 1. lia.
Qed.

(** After an opening bracket, the first item decides that the array or
    object is not empty. *)
Lemma skip_ws_items (d : nat) (x : list ascii) (items : list (list ascii))
    (t : list ascii) :
  starts x ->
  exists a r,
    skip_ws (newline d ++ commas d (x :: items) ++ t) = a :: r /\
    (code a =? 93)%N = false /\ (code a =? 125)%N = false.
Proof.
  intros Hx. rewrite skip_ws_newline.
  destruct x as [|a x]; [contradiction|]. destruct Hx as (Hws & H93 & H125).
  exists a. simpl. rewrite Hws. eexists. split; [reflexivity|]. now split.
Qed.

Lemma sorted_entries_fmap (d : nat) (m : gmap string (value num)) :
  exists P : list (string * value num),
    member <$> sorted_entries (enc_value d <$> m) = item d <$> P /\
    P ≡ₚ map_to_list m.
Proof.
  unfold sorted_entries.
  pose proof (merge_sort_Permutation by_key (map_to_list (enc_value d <$> m))) as Hperm.
  rewrite map_to_list_fmap in Hperm.
  apply Permutation_map_inv in Hperm as (P & HE & HP).
  exists P. split; [|now symmetry].
  rewrite map_to_list_fmap, HE.
  change (map (prod_map id (enc_value d)) P) with (prod_map id (enc_value d) <$> P).
  rewrite <- list_fmap_compose. apply list_fmap_ext. now intros i [k v] _.
Qed.

Lemma list_to_map_entries (m : gmap string (value num)) (P : list (string * value num)) :
  P ≡ₚ map_to_list m -> list_to_map (reverse P ++ []) = m.
Proof.
  intros HP. rewrite app_nil_r.
  rewrite <- (list_to_map_to_list m). apply list_to_map_proper.
  - rewrite reverse_Permutation, HP. apply NoDup_fst_map_to_list.
  - now rewrite reverse_Permutation.
Qed.

(** The text of a value, at any depth, is read back as that value. *)
Lemma enc_value_reads_back (v : value num) : wf v -> reads_back v.
Proof.
  induction 1 as [|b|n|s Hs|l Hl IH|m Hkeys Hm IH]; intros d fuel rest Hfuel Hrest.
  - destruct fuel as [|fuel]; [simpl in Hfuel; lia | reflexivity].
  - destruct fuel as [|fuel]; [destruct b; simpl in Hfuel; lia|]. destruct b; reflexivity.
  - simpl enc_value in *. pose proof (show_number_text n) as Hn.
    destruct (txt (show_number n)) as [|a t] eqn:Htxt; [discriminate|].
    destruct fuel as [|fuel]; [simpl in Hfuel; lia|].
    pose proof Hn as Hn'. simpl in Hn'. apply andb_prop in Hn' as [Ha Hall].
    rewrite <- app_comm_cons, (parse_value_number fuel a _ Ha), app_comm_cons.
    rewrite (span_number_app (a :: t) rest Hall Hrest), Hn, <- Htxt.
    unfold txt. now rewrite string_of_list_ascii_of_string, read_show_number.
  - simpl enc_value in *. unfold quoted in *.
    destruct fuel as [|fuel]; [simpl in Hfuel; lia|].
    rewrite <- app_comm_cons, parse_value_string, <- app_assoc.
    change ([dquote] ++ rest) with (dquote :: rest).
    rewrite (unescape_escape s rest Hs).
    unfold txt. now rewrite string_of_list_ascii_of_string.
  - change (enc_value d (JArray l))
      with (block (chr 91) (chr 93) d (enc_value (S d) <$> l)) in *.
    destruct l as [|v l].
    { destruct fuel as [|fuel]; [simpl in Hfuel; lia | reflexivity]. }
    change (enc_value (S d) <$> v :: l)
      with (enc_value (S d) v :: (enc_value (S d) <$> l)) in *.
    pose proof (length_block_cons (chr 91) (chr 93) d (enc_value (S d) v)
                  (enc_value (S d) <$> l)) as Hblock.
    rewrite block_cons.
    destruct fuel as [|fuel]; [lia|].
    rewrite <- app_comm_cons, parse_value_array, <- !app_assoc.
    destruct (skip_ws_items (S d) (enc_value (S d) v) (enc_value (S d) <$> l)
                (newline d ++ [chr 93] ++ rest) (enc_value_starts _ _))
      as (a & r & -> & -> & _).
    change ([chr 93] ++ rest) with (chr 93 :: rest).
    change (enc_value (S d) v :: (enc_value (S d) <$> l))
      with (enc_value (S d) <$> v :: l) in *.
    rewrite (parse_elements_enc (S d) d (v :: l)); [reflexivity|discriminate|exact IH|].
    lia.
  - change (enc_value d (JObject m))
      with (block (chr 123) (chr 125) d
              (member <$> sorted_entries (enc_value (S d) <$> m))) in *.
    destruct (sorted_entries_fmap (S d) m) as (P & HE & HP). rewrite HE in *.
    destruct P as [|[k v] P].
    { destruct fuel as [|fuel]; [simpl in Hfuel; lia|].
      symmetry in HP. apply Permutation_nil_r in HP. apply map_to_list_empty_iff in HP.
      subst m. reflexivity. }
    change (item (S d) <$> (k, v) :: P) with (item (S d) (k, v) :: (item (S d) <$> P)) in *.
    pose proof (length_block_cons (chr 123) (chr 125) d (item (S d) (k, v))
                  (item (S d) <$> P)) as Hblock.
    rewrite block_cons.
    destruct fuel as [|fuel]; [lia|].
    rewrite <- app_comm_cons, parse_value_object, <- !app_assoc.
    destruct (skip_ws_items (S d) (item (S d) (k, v)) (item (S d) <$> P)
                (newline d ++ [chr 125] ++ rest))
      as (a & r & -> & _ & ->).
    { repeat split; reflexivity. }
    change ([chr 125] ++ rest) with (chr 125 :: rest).
    change (item (S d) (k, v) :: (item (S d) <$> P))
      with (item (S d) <$> (k, v) :: P) in *.
    rewrite (parse_members_enc (S d) d ((k, v) :: P)).
    + now rewrite (list_to_map_entries m _ HP).
    + discriminate.
    + intros k0 v0 Hin. rewrite HP in Hin. apply elem_of_map_to_list in Hin.
      split; [exact (Hkeys _ _ Hin) | exact (IH _ _ Hin)].
    + lia.
Qed.
End JsonValues.

Section JsonRecords.
Import Json.
Context {num : Type} `{Number num}.
Hypothesis show_number_text : writes_numbers.
Hypothesis read_show_number : reads_numbers.

Lemma enc_record_value (d : nat) (r : JsonStore.MessageRecord (value num)) :
  enc_record d r = enc_value d (record_value r).
Proof. destruct r as [date [|m]]; reflexivity. Qed.

Lemma wf_record_value (r : JsonStore.MessageRecord (value num)) :
  wf_record r -> wf (record_value r).
Proof.
  intros [Hdate Hpayload]. constructor.
  - intros k v Hk. apply lookup_insert_Some in Hk as [[<- _]|[_ Hk]]; [reflexivity|].
    apply lookup_insert_Some in Hk as [[<- _]|[_ Hk]]; [reflexivity|].
    now rewrite lookup_empty in Hk.
  - intros k v Hk. apply lookup_insert_Some in Hk as [[_ <-]|[_ Hk]]; [now constructor|].
    apply lookup_insert_Some in Hk as [[_ <-]|[_ Hk]]; [|now rewrite lookup_empty in Hk].
    destruct (JsonStore.Payload r); [constructor | exact Hpayload].
Qed.

Lemma to_record_value (r : JsonStore.MessageRecord (value num)) :
  to_record (record_value r) = Some r.
Proof. destruct r as [date [|m]]; reflexivity. Qed.

Lemma to_records_values (rs : list (JsonStore.MessageRecord (value num))) :
  to_records (record_value <$> rs) = Some rs.
Proof.
  induction rs as [|r rs IH]; [reflexivity|].
  change (to_records (record_value <$> r :: rs))
    with (match to_record (record_value r), to_records (record_value <$> rs) with
          | Some r', Some rs' => Some (r' :: rs')
          | _, _ => None
          end).
  now rewrite to_record_value, IH.
Qed.

Lemma length_string_of_list_ascii (l : list ascii) :
  String.length (string_of_list_ascii l) = length l.
Proof. induction l as [|a l IH]; simpl; congruence. Qed.

(** Encoding then decoding gives the records back. *)
Lemma decode_encode (rs : list (JsonStore.MessageRecord (value num))) :
  Forall wf_record rs -> decode (encode rs) = Some rs.
Proof.
  intros Hwf. unfold decode, encode.
  rewrite length_string_of_list_ascii. unfold txt.
  rewrite list_ascii_of_string_of_list_ascii.
  assert (Henc : block (chr 91) (chr 93) 0 (enc_record 1 <$> rs)
                 = enc_value 0 (JArray (record_value <$> rs))).
  { change (enc_value 0 (JArray (record_value <$> rs)))
      with (block (chr 91) (chr 93) 0 (enc_value 1 <$> (record_value <$> rs))).
    f_equal. rewrite <- list_fmap_compose. apply list_fmap_ext.
    intros i r _. apply enc_record_value. }
  rewrite Henc.
  rewrite (enc_value_reads_back show_number_text read_show_number
             (JArray (record_value <$> rs))).
  - simpl. apply to_records_values.
  - constructor. intros v Hv. apply list_elem_of_fmap in Hv as (r & -> & Hr).
    apply wf_record_value. rewrite Forall_forall in Hwf. now apply Hwf.
  - rewrite length_app. simpl. lia.
  - reflexivity.
Qed.
End JsonRecords.

Section RoundTrip.
Import Json.
Context {num : Type} `{Number num}.

(** What [AddMessage] keeps of a well-formed payload is well-formed. *)
Lemma wf_filtered (payload : GoMap (value num)) :
  wf_payload payload -> wf (JObject (filtered payload)).
Proof.
  intros Hwf.
  assert (Hval : forall k v, index payload k = Some v -> wf v).
  { destruct payload as [|m]; [discriminate|]. simpl in *. inversion Hwf; eauto. }
  unfold filtered.
  destruct (index payload "rssi") as [rssi|] eqn:Hrssi;
    destruct (index payload "name") as [name|] eqn:Hname;
    constructor; intros k v Hk;
    repeat (apply lookup_insert_Some in Hk as [[<- <-]|[_ Hk]]; [reflexivity || eauto|]);
    now rewrite lookup_empty in Hk.
Qed.

Lemma wf_records_from (clk : nat -> string) (payloads : list (GoMap (value num))) :
  (forall i, valid_utf8 (clk i) = true) ->
  Forall wf_payload payloads ->
  forall t, Forall wf_record (records_from clk t payloads).
Proof.
  intros Hclk Hwf. induction Hwf as [|payload rest Hp _ IH]; intros t; simpl.
  - constructor.
  - constructor; [|apply IH]. split; [apply Hclk|]. simpl.
    rewrite <- filtered_restriction. now apply wf_filtered.
Qed.

(** C4. Take a store whose records have well-formed UTF-8 strings, and
    payloads that have too; let the library's number formatting read
    back what it writes.  After the calls of [AddMessage] for these
    payloads, JSON-decoding the text that the encoder of [saveToFile]
    produces for the records of the store gives the same records, in the
    same order, with the same dates and the same payloads.  When no
    system call fails, that text is what the output file holds after the
    last call. *)
Theorem saved_records_round_trip
    (payloads : list (GoMap (value num)))
    (q : Proc (JsonStore.MessageStore (value num))) :
  writes_numbers ->
  reads_numbers ->
  JsonStore.mu (self q) = rw_unlocked ->
  Forall wf_record (JsonStore.messages (self q)) ->
  Forall wf_payload payloads ->
  (forall i, valid_utf8 (clock (env (world q)) i) = true) ->
  exists rs q',
    AddMessages payloads q = Returns rs q' /\
    JsonStore.messages (self q') =
      JsonStore.messages (self q)
        ++ records_from (clock (env (world q))) (ticks (world q)) payloads /\
    JsonStore.Marshal_indent (JsonStore.messages (self q'))
      = inl (encode (JsonStore.messages (self q'))) /\
    decode (encode (JsonStore.messages (self q')))
      = Some (JsonStore.messages (self q')) /\
    (payloads <> [] ->
     (forall n, fault (env (world q)) n = None) ->
     exists text,
       files (world q') !! JsonStore.filePath (self q) = Some text /\
       decode text = Some (JsonStore.messages (self q'))).
Proof.
  intros Hshow Hread Hmu Hwf Hpayloads Hclk.
  destruct (AddMessages_eval payloads q Hmu)
    as (rs & q' & Hrun & _ & _ & _ & _ & Hmsgs & Hfile).
  assert (Hback : decode (encode (JsonStore.messages (self q')))
                  = Some (JsonStore.messages (self q'))).
  { apply (decode_encode Hshow Hread). rewrite Hmsgs. apply Forall_app. split; [exact Hwf|].
    now apply wf_records_from. }
  exists rs, q'. split; [exact Hrun|]. split; [exact Hmsgs|].
  split; [reflexivity|]. split; [exact Hback|].
  intros Hne Hcalm.
  destruct Hfile as (text & Henc & Hfiles).
  { now apply (AddMessages_saved payloads q q' rs
                 (encode (JsonStore.messages (self q')))). }
  exists text. split; [exact Hfiles|].
  injection Henc as <-. exact Hback.
Qed.
End RoundTrip.

(** * The theorems on sample inputs *)

Import Sample.

(** [WriteMessage_line_format] on the sample sensor message: the file
    gains the line with both segments. *)
Lemma WriteMessage_line_format_witness :
  exists p',
    LineSink.WriteMessage sensor writer0 = Returns None p' /\
    files (world p') !! "out.log" =
      Some ("2024-01-15T10:30:45Z|name=LYSD03MMC|rssi=-65" +:+ LF).
Proof.
  destruct (WriteMessage_line_format sensor writer0 eq_refl eq_refl)
    as (line & r & p' & Hrun & Hline & _ & Hok).
  destruct (Hok eq_refl) as [-> Hfile].
  exists p'. split; [exact Hrun|].
  change (LineSink.filePath (self writer0)) with "out.log" in Hfile.
  rewrite Hfile. vm_compute in Hline. now rewrite Hline.
Defined.

(** [WriteMessage_keeps_nothing] on the sample sensor message. *)
Lemma WriteMessage_keeps_nothing_witness :
  exists r p',
    LineSink.WriteMessage sensor writer0 = Returns r p' /\
    self p' = self writer0 /\
    fds (world p') = fds (world writer0).
Proof.
  destruct (WriteMessage_keeps_nothing sensor writer0 eq_refl)
    as (r & p' & Hrun & Hself & Hfds & _).
  exists r, p'. auto.
Defined.

(** [AddMessage_filters] on the sample sensor message: the key [id] is
    dropped. *)
Lemma AddMessage_filters_witness :
  exists r p' g,
    JsonStore.AddMessage sensor store0 = Returns r p' /\
    JsonStore.messages (self p') =
      [{| JsonStore.Date := T0; JsonStore.Payload := Map g |}] /\
    g !! "name" = Some (VStr "LYSD03MMC") /\
    g !! "rssi" = Some (VNum (-65)) /\
    g !! "id" = None.
Proof.
  destruct (AddMessage_filters sensor store0 eq_refl)
    as (r & p' & g & Hrun & Hmsgs & Hname & Hrssi & Hother & _).
  exists r, p', g. split; [exact Hrun|]. split; [exact Hmsgs|].
  split; [exact Hname|]. split; [exact Hrssi|].
  apply Hother; discriminate.
Defined.

(** [AddMessage_retains_on_failure] when the disk is full. *)
Lemma AddMessage_retains_on_failure_witness :
  exists err p' q',
    JsonStore.AddMessage sensor store_full = Returns (Some err) p' /\
    JsonStore.AddMessage sensor store0 = Returns None q' /\
    self p' = self q' /\
    length (JsonStore.messages (self p')) = 1.
Proof.
  pose proof (AddMessage_eval sensor store_full eq_refl
              : JsonStore.AddMessage sensor store_full =
                Returns
                  (Some (Errorf_w "failed to create output file"
                           (Cause "no space left on device")))
                  {| self := store_after sensor store_full;
                     world := world_after sensor store_full |}) as Hfull.
  pose proof (AddMessage_eval sensor store0 eq_refl
              : JsonStore.AddMessage sensor store0 =
                Returns None
                  {| self := store_after sensor store0;
                     world := world_after sensor store0 |}) as Hcalm.
  destruct (AddMessage_retains_on_failure sensor store_full _ _ eq_refl Hfull)
    as [Hmsgs Hsame].
  eexists _, _, _. split; [exact Hfull|]. split; [exact Hcalm|]. split.
  - exact (Hsame store0 _ eq_refl eq_refl Hcalm).
  - rewrite Hmsgs. reflexivity.
Defined.

(** [sinks_propagate_errors]: a calm Line Sink and a JSON Store on a full
    disk. *)
Lemma sinks_propagate_errors_witness :
  (exists p', LineSink.WriteMessage sensor writer0 = Returns None p') /\
  (exists q',
     JsonStore.AddMessage sensor store_full =
       Returns
         (Some (Errorf_w "failed to create output file"
                  (Cause "no space left on device"))) q').
Proof.
  destruct (sinks_propagate_errors sensor writer0 store_full eq_refl eq_refl)
    as [(r & p' & Hrun & _ & _ & Hok & _) (r' & q' & Hrun' & Hcreate & _)].
  split.
  - exists p'. now rewrite <- (Hok eq_refl eq_refl).
  - exists q'. rewrite (Hcreate _ eq_refl) in Hrun'. exact Hrun'.
Defined.

(** [decode_failure_skips_sink] on a body that is not JSON. *)
Lemma decode_failure_skips_sink_witness :
  exists p' q',
    LineSink.messageHandler {| Topic := "sensors/a"; Payload := "{" |} writer0
      = Returns tt p' /\
    JsonStore.messageHandler {| Topic := "sensors/a"; Payload := "{" |} store0
      = Returns tt q' /\
    files (world p') = files (world writer0) /\
    calls (world p') = 0 /\
    JsonStore.messages (self q') = [].
Proof.
  destruct (decode_failure_skips_sink
              {| Topic := "sensors/a"; Payload := "{" |} writer0 store0
              eq_refl eq_refl)
    as (p' & q' & Hp & Hq & Hfail & _).
  destruct (Hfail _ eq_refl) as [-> ->].
  eexists _, _. split; [exact Hp|]. split; [exact Hq|]. repeat split.
Defined.

Ltac take_turn i :=
  eapply rtc_l;
  [ eapply (Threads.turn_returns i); [reflexivity | vm_compute; reflexivity ]
  | simpl ].

(** Two goroutines write the sample messages; the second takes the lock
    first. *)
Lemma writers_schedule :
  rtc Threads.turn
    (writer0, LineSink.WriteMessage_steps <$> [sensor; no_rssi])
    (writer_final, [Threads.Done None; Threads.Done None]).
Proof.
  simpl. do 7 take_turn 1. do 7 take_turn 0.
  vm_compute. apply rtc_refl.
Defined.

Lemma stores_schedule :
  rtc Threads.turn
    (store0, JsonStore.AddMessage_steps <$> [sensor; no_rssi])
    (store_final, [Threads.Done None; Threads.Done None]).
Proof.
  simpl. do 10 take_turn 1. do 11 take_turn 0.
  vm_compute. apply rtc_refl.
Defined.

(** [locks_serialize_calls] on these two schedules. *)
Lemma locks_serialize_calls_witness :
  exists order,
    order ≡ₚ [sensor; no_rssi] /\
    content (world writer_final) "out.log" =
      content (world writer0) "out.log" +:+ lines_from clock01 0 order.
Proof.
  destruct (locks_serialize_calls [sensor; no_rssi]
              writer0 writer_final [Threads.Done None; Threads.Done None]
              store0 store_final [Threads.Done None; Threads.Done None])
    as [(order & Hperm & _ & _ & _ & _ & Hcontent) _].
  - reflexivity.
  - reflexivity.
  - exact writers_schedule.
  - repeat constructor.
  - reflexivity.
  - exact stores_schedule.
  - repeat constructor.
  - exists order. split; assumption.
Defined.

(** [loadConfig_validates] on the sample configuration file, which sets
    neither the port nor the output file. *)
Lemma loadConfig_validates_witness :
  (exists p',
     LineSink.loadConfig "config.yaml" loader0
       = Returns (inl (config_with "mqtt-trace.log")) p') /\
  (exists p',
     JsonStore.loadConfig "config.yaml" loader0
       = Returns (inl (config_with "mqtt-trace.json")) p').
Proof.
  destruct (@loadConfig_validates sample_codec
              "config.yaml" config_text config_settings
              loader0 (config_with "mqtt-trace.log") (config_with "mqtt-trace.json")
              eq_refl eq_refl eq_refl eq_refl eq_refl)
    as [(res & p' & Hrun & _ & Hok & _) (res' & p'' & Hrun' & _ & Hok' & _)].
  split.
  - exists p'. rewrite <- Hok; [exact Hrun | discriminate | discriminate].
  - exists p''. rewrite <- Hok'; [exact Hrun' | discriminate | discriminate].
Defined.

(** [WriteMessages_append_only] on two calls in a calm environment. *)
Lemma WriteMessages_append_only_witness :
  exists rs p' added,
    one_by_one LineSink.WriteMessage [sensor; no_rssi] writer0 = Returns rs p' /\
    self p' = self writer0 /\
    content (world p') "out.log" = content (world writer0) "out.log" +:+ added.
Proof.
  destruct (WriteMessages_append_only [sensor; no_rssi] writer0 eq_refl)
    as (rs & p' & added & Hrun & _ & Hself & _ & Hcontent & _).
  exists rs, p', added. split; [exact Hrun|]. split; [exact Hself | exact Hcontent].
Defined.

(** [WriteMessages_lines] on the same two calls. *)
Lemma WriteMessages_lines_witness :
  exists p',
    one_by_one LineSink.WriteMessage [sensor; no_rssi] writer0
      = Returns [None; None] p' /\
    content (world p') "out.log" =
      content (world writer0) "out.log" +:+ lines_from clock01 0 [sensor; no_rssi].
Proof.
  destruct (WriteMessages_lines [sensor; no_rssi] writer0 eq_refl (fun _ => eq_refl))
    as (p' & Hrun & Hcontent).
  exists p'. split; [exact Hrun | exact Hcontent].
Defined.

(** [new_store_overwrites] when the output file is left from an earlier
    run. *)
Lemma new_store_overwrites_witness :
  files stale !! "out.json" = Some "[]" /\
  exists text q',
    JsonStore.AddMessage sensor
      {| self := JsonStore.NewMessageStore "out.json"; world := stale |}
      = Returns None q' /\
    JsonStore.Marshal_indent [record_of stale sensor] = inl text /\
    files (world q') !! "out.json" = Some text.
Proof.
  split; [reflexivity|].
  pose (text := match JsonStore.Marshal_indent [record_of stale sensor] with
                | inl t => t
                | inr _ => EmptyString
                end).
  assert (Henc : JsonStore.Marshal_indent [record_of stale sensor] = inl text)
    by (vm_compute; reflexivity).
  destruct (new_store_overwrites "out.json" text stale sensor eq_refl eq_refl Henc)
    as (q' & Hrun & _ & Hfile).
  exists text, q'. split; [exact Hrun|]. split; [exact Henc | exact Hfile].
Defined.

(** [store_handler_records] on the two sample messages: one record. *)
Lemma store_handler_records_witness :
  exists q',
    one_by_one JsonStore.messageHandler inbox store0 = Returns [tt; tt] q' /\
    length (JsonStore.messages (self q')) = 1 /\
    length (stderr (world q')) = 2.
Proof.
  destruct (store_handler_records inbox store0 eq_refl)
    as (q' & Hrun & _ & _ & _ & _ & Hmsgs & Hlog).
  exists q'. split; [exact Hrun|]. split; [now rewrite Hmsgs | exact Hlog].
Defined.

(** [writer_handler_lines] on the two sample messages: one line. *)
Lemma writer_handler_lines_witness :
  exists p',
    one_by_one LineSink.messageHandler inbox writer0 = Returns [tt; tt] p' /\
    content (world p') "out.log" =
      "2024-01-15T10:30:45Z|name=LYSD03MMC|rssi=-65" +:+ LF /\
    length (stderr (world p')) = 2.
Proof.
  destruct (writer_handler_lines inbox writer0 eq_refl (fun _ => eq_refl))
    as (p' & Hrun & _ & Hcontent & Hlog).
  exists p'. split; [exact Hrun|]. split.
  - change (LineSink.filePath (self writer0)) with "out.log" in Hcontent.
    rewrite Hcontent. vm_compute. reflexivity.
  - rewrite Hlog. reflexivity.
Defined.

(** [handlers_log_outcome] on the sample sensor message, the Line Sink in
    a calm environment and the JSON Store on a full disk. *)
Lemma handlers_log_outcome_witness :
  exists p' q',
    LineSink.messageHandler {| Topic := "sensors/a"; Payload := sensor_body |} writer0
      = Returns tt p' /\
    JsonStore.messageHandler {| Topic := "sensors/a"; Payload := sensor_body |} store_full
      = Returns tt q' /\
    stderr (world p') =
      [{| format := "Received message on topic %s"; args := ["sensors/a"] |}] /\
    stderr (world q') =
      [{| format := "Error saving message: %v";
          args := ["failed to create output file: " +:+ "no space left on device"] |}].
Proof.
  destruct (handlers_log_outcome
              {| Topic := "sensors/a"; Payload := sensor_body |} writer0 store_full
              eq_refl eq_refl)
    as (p' & q' & l & l' & Hp & Hq & Hl & Hl' & _ & Hok).
  destruct (Hok sensor eq_refl) as (_ & _ & Hline & Hcreate & _).
  exists p', q'. split; [exact Hp|]. split; [exact Hq|]. split.
  - rewrite Hl, (Hline eq_refl eq_refl). reflexivity.
  - rewrite Hl', (Hcreate _ eq_refl). reflexivity.
Defined.

(** [loadConfig_well_kinded] on a configuration file that sets every
    key. *)
Lemma loadConfig_well_kinded_witness :
  exists p',
    @Settings.loadConfig_with full_codec "mqtt-trace.log" "full.yaml" full_loader
      = Returns
          (inl {| Settings.MQTT :=
                    {| Settings.Broker := "broker.example.org"; Settings.Port := 8883;
                       Settings.Username := "tracer"; Settings.Password := "secret";
                       Settings.Topics := ["sensors/#"; "home/+/rssi"] |};
                  Settings.OutputFile := "trace.out" |}) p'.
Proof.
  eexists.
  exact (@loadConfig_well_kinded full_codec
           "mqtt-trace.log" "full.yaml" full_text full_settings full_loader
           "broker.example.org" ["sensors/#"; "home/+/rssi"]
           (Some 8883%Z) (Some "tracer") (Some "secret") (Some "trace.out")
           eq_refl eq_refl eq_refl eq_refl eq_refl eq_refl eq_refl
           ltac:(intros z [= <-]; lia)
           eq_refl eq_refl eq_refl
           ltac:(discriminate) ltac:(discriminate)).
Defined.

(** [sinks_never_deadlock] at the end of the two sample schedules. *)
Lemma sinks_never_deadlock_witness :
  Forall (fun c : Threads.Prog (Proc LineSink.FileWriter) (option error) =>
            forall r, c <> Threads.Fail r)
    [Threads.Done None; Threads.Done None].
Proof.
  destruct (sinks_never_deadlock [sensor; no_rssi]
              writer0 writer_final [Threads.Done None; Threads.Done None]
              store0 store_final [Threads.Done None; Threads.Done None]
              eq_refl writers_schedule eq_refl stores_schedule)
    as [[_ Hfail] _].
  exact Hfail.
Defined.

(** [writers_serialize_under_failures] on the sample schedule. *)
Lemma writers_serialize_under_failures_witness :
  exists order rs,
    order ≡ₚ [sensor; no_rssi] /\
    one_by_one LineSink.WriteMessage order writer0 = Returns rs writer_final.
Proof.
  destruct (writers_serialize_under_failures [sensor; no_rssi]
              writer0 writer_final [Threads.Done None; Threads.Done None]
              eq_refl writers_schedule ltac:(repeat constructor))
    as (order & rs & added & Hperm & Hrun & _).
  exists order, rs. split; [exact Hperm | exact Hrun].
Defined.

(** [main_exits_on_bad_config] when there is no configuration file. *)
Lemma main_exits_on_bad_config_witness :
  (exists p',
     LineSinkCmd.main (any := value) ["mqtt-trace"] (process calm ∅ [])
       = Returns 1%Z p' /\
     files (world p') = ∅ /\
     stderr (world p') =
       [{| format := "Failed to load configuration: %v";
           args := ["failed to read config file: open config.yaml: no such file or directory"] |}]) /\
  (exists q',
     JsonStoreCmd.main (any := value) ["mqtt-trace"] (process calm ∅ [])
       = Returns 1%Z q' /\
     files (world q') = ∅).
Proof.
  assert (Hline :
    LineSink.loadConfig (config_path ["mqtt-trace"])
      (viper_view (Sink := LineSink.FileWriter) (process calm ∅ [])) =
    Returns (inr (Errorf_w "failed to read config file"
                    (Cause "open config.yaml: no such file or directory")))
      {| self := loaded "mqtt-trace.log" "config.yaml" ∅ Viper.initial;
         world := issued (boot calm) |}) by (vm_compute; reflexivity).
  assert (Hjson :
    JsonStore.loadConfig (config_path ["mqtt-trace"])
      (viper_view (Sink := JsonStore.MessageStore value) (process calm ∅ [])) =
    Returns (inr (Errorf_w "failed to read config file"
                    (Cause "open config.yaml: no such file or directory")))
      {| self := loaded "mqtt-trace.json" "config.yaml" ∅ Viper.initial;
         world := issued (boot calm) |}) by (vm_compute; reflexivity).
  destruct (@main_exits_on_bad_config
              value value_dyn sample_decoder sample_encoder sample_codec sample_calendar
              sample_library sample_library
              ["mqtt-trace"] (process calm ∅ []) (process calm ∅ []) _ _ _ _ Hline Hjson)
    as [(p' & Hp & _ & _ & Hfiles & _ & Hlog) (q' & Hq & _ & _ & Hfiles' & _)].
  split.
  - exists p'. split; [exact Hp|]. split; [exact Hfiles | exact Hlog].
  - exists q'. split; [exact Hq | exact Hfiles'].
Defined.


(** [main_subscribes_in_order] when nothing fails: the Line Sink program
    is interrupted, the JSON Store program is not. *)
Lemma main_subscribes_in_order_witness :
  (exists p' cl,
     LineSinkCmd.main (any := value) ["mqtt-trace"]
       (process calm configured [Main.Interrupt]) = Returns 0%Z p' /\
     Main.client (self p') = Some cl /\
     Paho.connected cl = false /\
     Paho.topic <$> Paho.subscriptions cl = ["sensors/#"]) /\
  JsonStoreCmd.main (any := value) ["mqtt-trace"] (process calm configured []) = Blocks.
Proof.
  assert (Hline :
    LineSink.loadConfig (config_path ["mqtt-trace"])
      (viper_view (Sink := LineSink.FileWriter)
         (process calm configured [Main.Interrupt])) =
    Returns (inl (config_with "mqtt-trace.log")) (after_load "mqtt-trace.log" calm))
    by (vm_compute; reflexivity).
  assert (Hjson :
    JsonStore.loadConfig (config_path ["mqtt-trace"])
      (viper_view (Sink := JsonStore.MessageStore value)
         (process calm configured [])) =
    Returns (inl (config_with "mqtt-trace.json")) (after_load "mqtt-trace.json" calm))
    by (vm_compute; reflexivity).
  destruct (@main_subscribes_in_order
              value value_dyn sample_decoder sample_encoder sample_codec sample_calendar
              sample_library sample_library
              ["mqtt-trace"]
              (process calm configured [Main.Interrupt])
              (process calm configured [])
              _ _ _ _ Hline eq_refl Hjson eq_refl)
    as [[_ Hserved] [_ Hwaits]].
  destruct (Hserved (fun _ _ => eq_refl)) as [_ Hdone].
  destruct (Hdone _ _ eq_refl) as (p' & Hp & _ & Hcl).
  destruct (Hwaits (fun _ _ => eq_refl)) as [Hblocks _].
  split.
  - eexists p', _. split; [exact Hp|]. split; [exact Hcl|]. repeat split.
  - exact (Hblocks eq_refl).
Defined.

(** ** The sample numbers *)

Section SampleNumbers.
Import Json Sample.

Lemma digits_string_of_uint (d : Decimal.uint) :
  forallb (between 48 57) (txt (DecimalString.NilEmpty.string_of_uint d)) = true.
Proof. induction d; simpl; try exact IHd; reflexivity. Qed.

Lemma digits_are_number_chars (s : list ascii) :
  forallb (between 48 57) s = true -> forallb number_char s = true.
Proof.
  induction s as [|a s IH]; [reflexivity|]. simpl.
  intros [Ha Hs]%andb_prop. unfold number_char. rewrite Ha. simpl. now apply IH.
Qed.

Lemma unsigned_number_text (d : Decimal.uint) :
  exists a s,
    txt (DecimalString.NilZero.string_of_uint d) = a :: s /\
    between 48 57 a = true /\ forallb (between 48 57) s = true.
Proof.
  destruct d; simpl;
    try (eexists _, _; split; [reflexivity|]; split; [reflexivity|];
         apply digits_string_of_uint).
  exists (chr 48), []. now vm_compute.
Qed.

Lemma decimal_writes : @writes_numbers Z decimal.
Proof.
  intros z. unfold show_number. simpl. unfold show_Z.
  destruct (Z.to_int z) as [d|d]; simpl.
  - destruct (unsigned_number_text d) as (a & s & -> & Ha & Hs).
    unfold number_text. rewrite Ha. simpl.
    unfold number_char at 1. rewrite Ha. simpl. now apply digits_are_number_chars.
  - destruct (unsigned_number_text d) as (a & s & -> & Ha & Hs).
    simpl. unfold number_char at 1. rewrite Ha. simpl. now apply digits_are_number_chars.
Qed.

Lemma decimal_reads : @reads_numbers Z decimal.
Proof.
  intros z. unfold show_number, read_number. simpl. unfold show_Z.
  rewrite DecimalString.NilZero.isi.
  - simpl. now rewrite DecimalZ.of_to.
  - destruct z; discriminate || (simpl; intros [= Hnil]; now apply DecimalPos.Unsigned.to_uint_nonnil in Hnil).
  - destruct z; discriminate || (simpl; intros [= Hnil]; now apply DecimalPos.Unsigned.to_uint_nonnil in Hnil).
Qed.
End SampleNumbers.

(** ** The sample JSON payloads *)

Section JsonSamples.
Import Sample Json.

Lemma wf_empty {num : Type} : wf (JObject (∅ : gmap string (value num))).
Proof. constructor; intros k v Hk; now rewrite lookup_empty in Hk. Qed.

Lemma wf_insert {num : Type} (k : string) (v : value num) (m : gmap string (value num)) :
  valid_utf8 k = true -> wf v -> wf (JObject m) -> wf (JObject (<[k := v]> m)).
Proof.
  intros Hk Hv Hm. inversion Hm as [| | | | |m' Hkeys Hvals]; subst.
  constructor; intros k' v' [[<- <-]|[_ Hin]]%lookup_insert_Some; eauto.
Qed.

Lemma wf_reading : wf_payload reading.
Proof.
  repeat (apply wf_insert; [reflexivity|constructor; reflexivity|]). apply wf_empty.
Qed.

Lemma wf_nested : wf_payload nested.
Proof.
  apply wf_insert; [reflexivity| |apply wf_empty].
  apply wf_insert; [reflexivity|constructor; reflexivity|].
  apply wf_insert; [reflexivity| |apply wf_empty].
  constructor. intros v Hv.
  repeat (apply elem_of_cons in Hv as [->|Hv]; [constructor; reflexivity|]).
  now apply elem_of_nil in Hv.
Qed.

Lemma valid_clock01 (i : nat) : valid_utf8 (clock01 i) = true.
Proof. destruct i; reflexivity. Qed.
End JsonSamples.

(** [saved_records_round_trip] on two payloads, one of them nested, in a
    calm environment. *)
Lemma saved_records_round_trip_witness :
  exists rs q',
    @AddMessages _ (@Json.encoder Z Sample.decimal)
      [Sample.reading; Sample.nested] Sample.json_store0
      = Returns rs q' /\
    exists text,
      files (world q') !! "out.json" = Some text /\
      @Json.decode Z Sample.decimal text = Some (JsonStore.messages (self q')) /\
      length (JsonStore.messages (self q')) = 2.
Proof.
  destruct (@saved_records_round_trip Z Sample.decimal
              [Sample.reading; Sample.nested] Sample.json_store0
              decimal_writes decimal_reads eq_refl
              (Forall_nil_2 _)
              (Forall_cons_2 _ _ _ wf_reading (Forall_cons_2 _ _ _ wf_nested (Forall_nil_2 _)))
              valid_clock01)
    as (rs & q' & Hrun & Hmsgs & _ & _ & Hfile).
  exists rs, q'. split; [exact Hrun|].
  destruct Hfile as (text & Hfiles & Hback); [discriminate|reflexivity|].
  exists text. split; [exact Hfiles|]. split; [exact Hback|].
  rewrite Hmsgs. reflexivity.
Defined.

(** [AddMessages_records] on two payloads in a calm environment. *)
Lemma AddMessages_records_witness :
  exists rs p' text,
    @AddMessages _ Sample.sample_encoder [Sample.no_rssi; Sample.sensor] Sample.store0
      = Returns rs p' /\
    length (JsonStore.messages (self p')) = 2 /\
    @JsonStore.Marshal_indent _ Sample.sample_encoder (JsonStore.messages (self p'))
      = inl text /\
    rs = [None; None] /\
    files (world p') !! "out.json" = Some text.
Proof.
  destruct (@AddMessages_records _ Sample.sample_encoder
              [Sample.no_rssi; Sample.sensor] "out.json" (Sample.boot Sample.calm))
    as (rs & p' & Hrun & Hrs & Hlen & _ & Hfile).
  destruct (Hfile (fun _ => eq_refl)) as [Hsaved Hall].
  destruct (Hsaved _ ltac:(discriminate) eq_refl) as [_ Hfiles].
  specialize (Hall (fun k => ex_intro _ _ eq_refl)).
  exists rs, p'. eexists. split; [exact Hrun|]. split; [exact Hlen|].
  split; [reflexivity|]. split; [|exact Hfiles].
  destruct rs as [|r1 [|r2 [|r3 rs]]]; try discriminate Hrs.
  apply Forall_cons in Hall as [<- Hall]. now apply Forall_cons in Hall as [<- _].
Defined.
